(** * Evaluation metrics of ppdet: VOC mean average precision and ReID

    A shallow embedding of [dygraph/ppdet/metrics/metrics.py]:
    the classes [VOCMetric], [COCOMetric] and [ReIDMetric], together with
    a model of the mAP engine [DetectionMAP] that [VOCMetric] drives, and
    of two helpers of the models: [make_divisible] of [mobilenet_v3.py]
    and [JDEHead.parse_anchor] of [jde_head.py].

    Conventions.
    - Python floats and numpy [float32]/[float64] entries are idealised as
      exact rationals ([Q]); NaN is outside the model.  Division by zero
      yields [0] in [Q], where numpy yields [inf]/[nan].  Where the code
      shows the digits of a float operation or branches on one (the
      product in [VOCMetric.log], the arithmetic of [make_divisible]), the
      operation is the IEEE 754 binary64 one ([Double]): the exact result
      rounded to the nearest double, ties to even, infinite beyond the
      range.
    - A Python exception is a value of [exn]; a method call returns a
      [completion]: its outcome, the object after the call (mutations made
      before an exception are kept) and the lines sent to the logger.
    - [tensor.numpy()] is the identity. *)

From Stdlib Require Import List ZArith QArith Qround Qabs Qpower Lia Lqa Bool Arith.
From Stdlib Require Import String Ascii DecimalString Permutation.
Import ListNotations.

Set Implicit Arguments.

(* ------------------------------------------------------------------ *)
(** ** Numbers *)

(** The type of Python floats in this model. *)
Abbreviation float := Q (only parsing).

Definition of_nat (n : nat) : float := inject_Z (Z.of_nat n).

(** Python's [int(x)] on a float: truncation toward zero. *)
Definition int (x : float) : Z := Z.quot (Qnum x) (Zpos (Qden x)).

Definition Qlt_bool (a b : float) : bool := negb (Qle_bool b a).

(** Python's [max(a, b)] and [min(a, b)] on floats. *)
Definition fmax (a b : float) : float := if Qle_bool a b then b else a.

Definition fmin (a b : float) : float := if Qle_bool a b then a else b.

(* ------------------------------------------------------------------ *)
(** ** Exceptions and results *)

Inductive exn : Type :=
| KeyError (key : string)
| IndexError
| TypeError
| ValueError
| AssertionError.

Inductive result (A : Type) : Type :=
| Ok (a : A)
| Raise (e : exn).
Arguments Ok {A} a.
Arguments Raise {A} e.

Definition rbind {A B} (r : result A) (k : A -> result B) : result B :=
  match r with
  | Ok a => k a
  | Raise e => Raise e
  end.

Declare Scope result_scope.
Delimit Scope result_scope with result.
Notation "x <- r ;; k" := (rbind r (fun x => k))
  (at level 61, r at next level, right associativity) : result_scope.

(** [a[i]] on a Python list or on the first axis of an array. *)
Definition getitem {A} (a : list A) (i : nat) : result A :=
  match nth_error a i with
  | Some x => Ok x
  | None => Raise IndexError
  end.

(** [d[key]] on a dict whose entry may be missing. *)
Definition getkey {A} (key : string) (entry : option A) : result A :=
  match entry with
  | Some v => Ok v
  | None => Raise (KeyError key)
  end.

(** [a[lo:lo+n]]: slices never raise. *)
Definition slice {A} (a : list A) (lo n : nat) : list A := firstn n (skipn lo a).

(** [l[i] = f(l[i])], nothing out of range (callers check the range). *)
Fixpoint alter_nth {A} (f : A -> A) (i : nat) (l : list A) : list A :=
  match l, i with
  | [], _ => []
  | x :: r, O => f x :: r
  | x :: r, S j => x :: alter_nth f j r
  end.

(* ------------------------------------------------------------------ *)
(** ** Two-dimensional arrays *)

(** A numpy array of rank 2: the number of columns is kept apart from the
    rows, so that the shape of an array without rows is still known. *)
Record ndarray : Type := mk_ndarray {
  ncols : nat;
  rows : list (list float)
}.

Definition shape (a : ndarray) : nat * nat := (List.length (rows a), ncols a).

(** [a[:, k:]] *)
Definition columns_from (k : nat) (a : ndarray) : ndarray :=
  {| ncols := ncols a - k; rows := map (skipn k) (rows a) |}.

(** [a[:, k]]: [IndexError] when the array has no column [k]. *)
Definition column (k : nat) (a : ndarray) : result (list float) :=
  if k <? ncols a then Ok (map (fun r => nth k r 0%Q) (rows a))
  else Raise IndexError.

(** [a[lo:lo+n]] on the first axis. *)
Definition row_slice (a : ndarray) (lo n : nat) : ndarray :=
  {| ncols := ncols a; rows := slice (rows a) lo n |}.

Definition shape_eqb (s t : nat * nat) : bool :=
  (fst s =? fst t) && (snd s =? snd t).

(** A box is a coordinate quadruple [(xmin, ymin, xmax, ymax)]. *)
Definition box : Type := (float * float * float * float)%type.

(* ------------------------------------------------------------------ *)
(** ** The mAP engine [DetectionMAP]

    [metrics.py] imports [DetectionMAP] from [map_utils.py], which is not
    among the sources at hand.  The engine below follows the
    specification's sections 3 (data model), 4.1 (matcher),
    4.2 (accumulator) and 4.3 (integrator). *)

Module DetectionMAP.

Local Open Scope Q_scope.

(** Modelled from the spec: the record [Detection] of [map_utils.py]
    (section 3); the image index plays no part in the matching of one
    image and is left out. *)
Record Detection : Type := mk_detection {
  class_id : Z;
  score : float;
  det_box : box
}.

(** Modelled from the spec: the record [GroundTruthBox] of [map_utils.py]
    (section 3), with its per-pass [matched] flag. *)
Record GroundTruthBox : Type := mk_gt {
  gt_class_id : Z;
  gt_coords : box;
  is_difficult : bool;
  matched : bool
}.

(** Modelled from the spec: the [PerClassRecord] of [map_utils.py]
    (section 3): the (score, is_true_positive) pairs in insertion order and
    the running count of ground-truth instances of the class. *)
Record PerClassRecord : Type := mk_record {
  score_pos : list (float * bool);
  gt_count : nat
}.

(** Modelled from the spec: the output of the engine (section 6): the
    average precision of every class id and the scalar mAP. *)
Record Score : Type := mk_score {
  ap_per_class : list float;
  mean_ap : float
}.

(** Modelled from the spec: the state of a [DetectionMAP] object of
    [map_utils.py]: the configuration of section 6, one [PerClassRecord]
    per class id, and the score computed by the last [accumulate]
    ([None] before the first one). *)
Record t : Type := mk {
  class_num : nat;
  overlap_thresh : float;
  map_type : string;
  is_bbox_normalized : bool;
  evaluate_difficult : bool;
  records : list PerClassRecord;
  computed : option Score
}.

(** Modelled from the spec: the record of a class in [map_utils.py] as
    [reset] creates it: no entry, no ground truth. *)
Definition empty_record : PerClassRecord := {| score_pos := []; gt_count := 0 |}.

(** Modelled from the spec: [DetectionMAP.reset] of [map_utils.py]
    ("records are created at reset", "an explicit reset, which clears all
    per-class state"). *)
Definition reset (self : t) : t :=
  {| class_num := class_num self;
     overlap_thresh := overlap_thresh self;
     map_type := map_type self;
     is_bbox_normalized := is_bbox_normalized self;
     evaluate_difficult := evaluate_difficult self;
     records := repeat empty_record (class_num self);
     computed := None |}.

(** Modelled from the spec: the constructor of [DetectionMAP] in
    [map_utils.py], with the keyword arguments [VOCMetric.__init__] passes. *)
Definition init (class_num : nat) (overlap_thresh : float) (map_type : string)
    (is_bbox_normalized evaluate_difficult : bool) : t :=
  reset {| class_num := class_num;
           overlap_thresh := overlap_thresh;
           map_type := map_type;
           is_bbox_normalized := is_bbox_normalized;
           evaluate_difficult := evaluate_difficult;
           records := [];
           computed := None |}.

(** Modelled from the spec: an assignment to the per-class records of a
    [DetectionMAP] object of [map_utils.py]; every other field stays. *)
Definition set_records (self : t) (r : list PerClassRecord) : t :=
  {| class_num := class_num self;
     overlap_thresh := overlap_thresh self;
     map_type := map_type self;
     is_bbox_normalized := is_bbox_normalized self;
     evaluate_difficult := evaluate_difficult self;
     records := r;
     computed := computed self |}.

(** *** Matcher (section 4.1) *)

(** Modelled from the spec: the IoU of [map_utils.py], by the glossary
    "ratio of overlapping area to union area of two boxes".  A box whose
    maximum lies below its minimum has no area.  The specification does
    not tell how normalized coordinates change the computation ("IoU is
    computed on whatever coordinate space both boxes share"), so
    [is_bbox_normalized] is carried as configuration only. *)
Definition area (b : box) : float :=
  let '(x1, y1, x2, y2) := b in
  if Qlt_bool x2 x1 || Qlt_bool y2 y1 then 0 else (x2 - x1) * (y2 - y1).

(** Modelled from the spec: the overlap of two boxes in the IoU of
    [map_utils.py]. *)
Definition intersection (a b : box) : box :=
  let '(ax1, ay1, ax2, ay2) := a in
  let '(bx1, by1, bx2, by2) := b in
  (fmax ax1 bx1, fmax ay1 by1, fmin ax2 bx2, fmin ay2 by2).

(** Modelled from the spec: the IoU of [map_utils.py], overlapping area
    over union area. *)
Definition iou (a b : box) : float :=
  let i := area (intersection a b) in
  i / (area a + area b - i).

(** Modelled from the spec: the candidates of a prediction in the matcher
    of [map_utils.py]: the unmatched ground-truth boxes of its class. *)
Definition eligible (d : Detection) (g : GroundTruthBox) : bool :=
  (gt_class_id g =? class_id d)%Z && negb (matched g).

(** Modelled from the spec: "select the ground-truth box with maximum
    IoU" among the candidates; [i] is the position of the head of [gts],
    and the first of several maxima is taken. *)
Fixpoint best_match (d : Detection) (gts : list GroundTruthBox) (i : nat)
  : option (nat * float) :=
  match gts with
  | [] => None
  | g :: rest =>
      let later := best_match d rest (S i) in
      if eligible d g then
        let v := iou (det_box d) (gt_coords g) in
        match later with
        | Some (j, w) => if Qle_bool w v then Some (i, v) else Some (j, w)
        | None => Some (i, v)
        end
      else later
  end.

(** Modelled from the spec: the matcher of [map_utils.py] marks a
    ground-truth box as matched. *)
Definition mark_matched (g : GroundTruthBox) : GroundTruthBox :=
  {| gt_class_id := gt_class_id g;
     gt_coords := gt_coords g;
     is_difficult := is_difficult g;
     matched := true |}.

(** Modelled from the spec: what the matcher of [map_utils.py] decides
    for a prediction: true positive, false positive, or discarded. *)
Inductive verdict : Type := TruePositive | FalsePositive | Discarded.

(** Modelled from the spec: the treatment of one prediction by the matcher
    of [map_utils.py]: a true positive marks its ground-truth box, a
    prediction whose best box is an excluded difficult one is discarded,
    every other prediction is a false positive. *)
Definition match_detection (thresh : float) (eval_difficult : bool)
    (d : Detection) (gts : list GroundTruthBox) : verdict * list GroundTruthBox :=
  match best_match d gts 0 with
  | Some (j, v) =>
      if Qle_bool thresh v then
        match nth_error gts j with
        | Some g =>
            if is_difficult g && negb eval_difficult then (Discarded, gts)
            else (TruePositive, alter_nth mark_matched j gts)
        | None => (FalsePositive, gts)
        end
      else (FalsePositive, gts)
  | None => (FalsePositive, gts)
  end.

(** Modelled from the spec: the matcher of [map_utils.py] over the
    predictions of one image, "in the order supplied by the caller"; it
    emits the labelled detections (class id, score, is_true_positive). *)
Fixpoint matcher (thresh : float) (eval_difficult : bool)
    (ds : list Detection) (gts : list GroundTruthBox)
  : list (Z * (float * bool)) :=
  match ds with
  | [] => []
  | d :: rest =>
      let '(v, gts') := match_detection thresh eval_difficult d gts in
      let tail := matcher thresh eval_difficult rest gts' in
      match v with
      | TruePositive => (class_id d, (score d, true)) :: tail
      | FalsePositive => (class_id d, (score d, false)) :: tail
      | Discarded => tail
      end
  end.

(** Modelled from the spec: which ground-truth instances enter the total
    of their class: "only non-difficult instances count ... unless
    configured to include difficult instances". *)
Definition counted (eval_difficult : bool) (g : GroundTruthBox) : bool :=
  eval_difficult || negb (is_difficult g).

(** *** Accumulator (section 4.2) *)

(** Modelled from the spec: the position of class id [c] among the
    per-class records of [map_utils.py], for the class ids
    [0 .. n - 1]. *)
Definition class_index (n : nat) (c : Z) : option nat :=
  if (0 <=? c)%Z && (c <? Z.of_nat n)%Z then Some (Z.to_nat c) else None.

(** Modelled from the spec: the accumulator of [map_utils.py] appends one
    (score, is_true_positive) pair to a record. *)
Definition add_score_pos (x : float * bool) (r : PerClassRecord) : PerClassRecord :=
  {| score_pos := score_pos r ++ [x]; gt_count := gt_count r |}.

(** Modelled from the spec: the accumulator of [map_utils.py] counts one
    more ground-truth instance in a record. *)
Definition add_gt (r : PerClassRecord) : PerClassRecord :=
  {| score_pos := score_pos r; gt_count := S (gt_count r) |}.

(** Modelled from the spec: the accumulator of [map_utils.py] "appends
    labeled results into the per-class record"; a class id outside
    [0 .. class_num - 1] is the configuration error "unknown class id"
    of section 7. *)
Fixpoint store_detections (labelled : list (Z * (float * bool)))
    (recs : list PerClassRecord) : result (list PerClassRecord) :=
  match labelled with
  | [] => Ok recs
  | (c, x) :: rest =>
      match class_index (List.length recs) c with
      | Some i => store_detections rest (alter_nth (add_score_pos x) i recs)
      | None => Raise ValueError
      end
  end.

(** Modelled from the spec: the accumulator of [map_utils.py] "increments
    the per-class ground-truth total" for every counted instance. *)
Fixpoint store_ground_truth (eval_difficult : bool) (gts : list GroundTruthBox)
    (recs : list PerClassRecord) : result (list PerClassRecord) :=
  match gts with
  | [] => Ok recs
  | g :: rest =>
      match class_index (List.length recs) (gt_class_id g) with
      | Some i =>
          store_ground_truth eval_difficult rest
            (if counted eval_difficult g then alter_nth add_gt i recs else recs)
      | None => Raise ValueError
      end
  end.

(** Modelled from the spec: the predictions of one image as [Detection]
    records; "mismatched lengths between boxes/scores/labels" is the
    input-shape error of section 7, and so is a box without four
    coordinates.  The label arrives as a float and is converted with
    [int]. *)
Fixpoint detections_of (bbox : list (list float)) (score label : list float)
  : result (list Detection) :=
  match bbox, score, label with
  | [], [], [] => Ok []
  | [x1; y1; x2; y2] :: bbox', s :: score', l :: label' =>
      (ds <- detections_of bbox' score' label' ;;
       Ok ({| class_id := int l; score := s; det_box := (x1, y1, x2, y2) |} :: ds))%result
  | _, _, _ => Raise ValueError
  end.

(** Modelled from the spec: the ground truth of one image as unmatched
    [GroundTruthBox] records; without difficulty flags no instance is
    difficult, a nonzero flag marks a difficult one. *)
Fixpoint ground_truth_of (gt_box : list box) (gt_label : list Z)
    (difficult : option (list Z)) : result (list GroundTruthBox) :=
  match gt_box, gt_label with
  | [], [] =>
      match difficult with
      | Some (_ :: _) => Raise ValueError
      | _ => Ok []
      end
  | b :: gt_box', l :: gt_label' =>
      match difficult with
      | None =>
          (gs <- ground_truth_of gt_box' gt_label' None ;;
           Ok ({| gt_class_id := l; gt_coords := b;
                  is_difficult := false; matched := false |} :: gs))%result
      | Some (d :: difficult') =>
          (gs <- ground_truth_of gt_box' gt_label' (Some difficult') ;;
           Ok ({| gt_class_id := l; gt_coords := b;
                  is_difficult := negb (d =? 0)%Z; matched := false |} :: gs))%result
      | Some [] => Raise ValueError
      end
  | _, _ => Raise ValueError
  end.

(** Modelled from the spec: [DetectionMAP.update] of [map_utils.py], with
    the six arguments of the call in [VOCMetric.update]: the matcher
    labels the predictions of the image, the accumulator stores them and
    the ground-truth counts.  An error leaves the object as it was
    ("fail fast").  The score of an earlier [accumulate] is kept: the
    running lists simply grow (section 9). *)
Definition update (self : t) (bbox : ndarray) (score label : list float)
    (gt_box : list box) (gt_label : list Z) (difficult : option (list Z))
  : result t :=
  (ds <- detections_of (rows bbox) score label ;;
   gts <- ground_truth_of gt_box gt_label difficult ;;
   let labelled := matcher (overlap_thresh self) (evaluate_difficult self) ds gts in
   recs <- store_ground_truth (evaluate_difficult self) gts (records self) ;;
   recs' <- store_detections labelled recs ;;
   Ok (set_records self recs'))%result.

(** Modelled from the spec: [accumulate] "sorts each class's (score,
    is_true_positive) sequence by descending score (stable tie-break:
    original insertion order)".  An entry is put in front of the first
    entry whose score does not exceed its own, so that among equal scores
    the earlier entry stays first. *)
Fixpoint insert_desc (x : float * bool) (l : list (float * bool))
  : list (float * bool) :=
  match l with
  | [] => [x]
  | y :: r => if Qle_bool (fst y) (fst x) then x :: y :: r else y :: insert_desc x r
  end.

(** Modelled from the spec: the stable sort by descending score in
    [accumulate] of [map_utils.py]. *)
Definition sort_desc (l : list (float * bool)) : list (float * bool) :=
  fold_right insert_desc [] l.

(** Modelled from the spec: "recall = cumulative_TP / total_ground_truth,
    precision = cumulative_TP / (cumulative_TP + cumulative_FP)". *)
Definition recall (tp gt : nat) : float := of_nat tp / of_nat gt.
(** Modelled from the spec: the precision at a rank, in [accumulate] of
    [map_utils.py]. *)
Definition precision (tp fp : nat) : float := of_nat tp / of_nat (tp + fp).

(** Modelled from the spec: the [PrecisionRecallCurve] of section 3, the
    (recall, precision) points at each rank of the sorted sequence, from
    the cumulative counts [tp] and [fp] reached before it. *)
Fixpoint pr_curve (gt tp fp : nat) (ranked : list (float * bool))
  : list (float * float) :=
  match ranked with
  | [] => []
  | (_, pos) :: rest =>
      let tp' := if pos then S tp else tp in
      let fp' := if pos then fp else S fp in
      (recall tp' gt, precision tp' fp') :: pr_curve gt tp' fp' rest
  end.

(** *** Integrator (section 4.3) *)

(** Modelled from the spec: a sum of floats in the integrator of
    [map_utils.py]. *)
Definition sum (l : list float) : float := fold_right Qplus 0 l.

(** Modelled from the spec: "the maximum precision observed at any recall
    >= r (zero if none)". *)
Definition max_precision_from (r : float) (curve : list (float * float)) : float :=
  fold_right (fun pt m => if Qle_bool r (fst pt) then fmax (snd pt) m else m) 0 curve.

(** Modelled from the spec: the recall thresholds 0.0, 0.1, ..., 1.0 of
    the 11-point rule of [map_utils.py]. *)
Definition recall_thresholds : list float :=
  map (fun j => of_nat j / 10) (seq 0 11).

(** Modelled from the spec: the 11-point interpolation of [map_utils.py]:
    "for recall thresholds r in {0.0, 0.1, ..., 1.0} ... average the 11
    values". *)
Definition eleven_point (curve : list (float * float)) : float :=
  sum (map (fun r => max_precision_from r curve) recall_thresholds) / 11.

(** Modelled from the spec: the monotonic envelope, "replace each
    precision value with the maximum of itself and all precision values
    ... to its right". *)
Fixpoint envelope (curve : list (float * float)) : list (float * float) :=
  match curve with
  | [] => []
  | (r, p) :: rest =>
      match envelope rest with
      | [] => [(r, p)]
      | (r', q) :: e => (r, fmax p q) :: (r', q) :: e
      end
  end.

(** Modelled from the spec: "sum precision * (recall_i - recall_{i-1})
    over points where recall changes"; [prev] is the recall of the last
    point counted, [0] at the start. *)
Fixpoint integrate (prev : float) (curve : list (float * float)) : float :=
  match curve with
  | [] => 0
  | (r, p) :: rest =>
      if Qeq_bool r prev then integrate prev rest
      else p * (r - prev) + integrate r rest
  end.

(** Modelled from the spec: the continuous interpolation of
    [map_utils.py]: the envelope, then the sum from recall 0. *)
Definition continuous (curve : list (float * float)) : float :=
  integrate 0 (envelope curve).

(** Modelled from the spec: the average precision of one class in
    [DetectionMAP.accumulate] of [map_utils.py].  A class without ground
    truth has AP = 0 (sections 4.3, 7 and the all-false-positive scenario
    of section 8).  The specification names the mode [11point] and does
    not give the identifier of the continuous mode: every other
    identifier selects the continuous rule here. *)
Definition average_precision (mode : string) (r : PerClassRecord) : float :=
  if (gt_count r =? 0)%nat then 0
  else
    let curve := pr_curve (gt_count r) 0 0 (sort_desc (score_pos r)) in
    if String.eqb mode "11point" then eleven_point curve else continuous curve.

(** Modelled from the spec: one class in the running mean of
    [accumulate] of [map_utils.py]: a class without ground truth "does
    not enter the mean". *)
Definition mean_step (mode : string) (acc : float * nat) (r : PerClassRecord)
  : float * nat :=
  if (gt_count r =? 0)%nat then acc
  else (fst acc + average_precision mode r, S (snd acc)).

(** Modelled from the spec: the end of [accumulate] of [map_utils.py]:
    the running sum divided by the number of classes in it; [0] when no
    class entered it. *)
Definition mean_of (acc : float * nat) : float :=
  if (snd acc =? 0)%nat then 0 else fst acc / of_nat (snd acc).

(** Modelled from the spec: [DetectionMAP.accumulate] of [map_utils.py]:
    the average precision of every class and their unweighted mean over
    the classes that have ground truth, recomputed "from whatever is in
    the running lists" (section 9).  Without any such class the mean is
    [0]. *)
Definition accumulate (self : t) : t :=
  let aps := map (average_precision (map_type self)) (records self) in
  let m := mean_of (fold_left (mean_step (map_type self)) (records self) (0, O)) in
  {| class_num := class_num self;
     overlap_thresh := overlap_thresh self;
     map_type := map_type self;
     is_bbox_normalized := is_bbox_normalized self;
     evaluate_difficult := evaluate_difficult self;
     records := records self;
     computed := Some {| ap_per_class := aps; mean_ap := m |} |}.

(** Modelled from the spec: [DetectionMAP.get_map] of [map_utils.py], the
    GET_SCORE step of section 4.3; Python's [None] before any
    [accumulate]. *)
Definition get_map (self : t) : option float := option_map mean_ap (computed self).

(** *** Merging the records of two workers (section 5) *)

(** Modelled from the spec: the merge of section 5 on one class:
    "concatenate per-class lists, sum ground-truth counts". *)
Definition merge_record (a b : PerClassRecord) : PerClassRecord :=
  {| score_pos := score_pos a ++ score_pos b; gt_count := gt_count a + gt_count b |}.

(** Modelled from the spec: the merge of section 5, class by class. *)
Fixpoint merge_records (l1 l2 : list PerClassRecord) : list PerClassRecord :=
  match l1, l2 with
  | a :: r1, b :: r2 => merge_record a b :: merge_records r1 r2
  | _, _ => []
  end.

(** Modelled from the spec: the merge of section 5, "concatenate
    per-class lists, sum ground-truth counts", of two accumulators of one
    configuration; the merged accumulator has no score yet. *)
Definition merge (a b : t) : t :=
  {| class_num := class_num a;
     overlap_thresh := overlap_thresh a;
     map_type := map_type a;
     is_bbox_normalized := is_bbox_normalized a;
     evaluate_difficult := evaluate_difficult a;
     records := merge_records (records a) (records b);
     computed := None |}.

(** *** A dataset pass *)

(** The arguments of one [update] call: the predictions and the ground
    truth of one image. *)
Record Image : Type := mk_image {
  im_bbox : ndarray;
  im_score : list float;
  im_label : list float;
  im_gt_box : list box;
  im_gt_label : list Z;
  im_difficult : option (list Z)
}.

Definition update_image (self : t) (im : Image) : result t :=
  update self (im_bbox im) (im_score im) (im_label im)
    (im_gt_box im) (im_gt_label im) (im_difficult im).

(** [update] once per image, in the order of the dataset. *)
Fixpoint update_all (self : t) (dataset : list Image) : result t :=
  match dataset with
  | [] => Ok self
  | im :: rest => (self' <- update_image self im ;; update_all self' rest)%result
  end.

(** The states an accumulator goes through: construction, then [reset],
    successful [update] and [accumulate] calls in any order. *)
Inductive reachable : t -> Prop :=
| reach_init n th mt bn ed : reachable (init n th mt bn ed)
| reach_reset s : reachable s -> reachable (reset s)
| reach_update s im s' : reachable s -> update_image s im = Ok s' -> reachable s'
| reach_accumulate s : reachable s -> reachable (accumulate s).

End DetectionMAP.

(* ------------------------------------------------------------------ *)
(** ** Method calls: outcome, object after the call, logger output *)

Record completion (S A : Type) : Type := mk_completion {
  outcome : result A;
  self_after : S;
  logged : list string
}.

(** A method body: a computation on the object [self]. *)
Definition M (S A : Type) : Type := S -> completion S A.

Definition ret {S A} (a : A) : M S A :=
  fun self => {| outcome := Ok a; self_after := self; logged := [] |}.

Definition raise {S A} (e : exn) : M S A :=
  fun self => {| outcome := Raise e; self_after := self; logged := [] |}.

Definition bind {S A B} (m : M S A) (k : A -> M S B) : M S B :=
  fun self =>
    let c := m self in
    match outcome c with
    | Ok a =>
        let c' := k a (self_after c) in
        {| outcome := outcome c';
           self_after := self_after c';
           logged := logged c ++ logged c' |}
    | Raise e =>
        {| outcome := Raise e; self_after := self_after c; logged := logged c |}
    end.

(** An expression that may raise and does not touch the object. *)
Definition lift {S A} (r : result A) : M S A :=
  match r with
  | Ok a => ret a
  | Raise e => raise e
  end.

Definition get_self {S} : M S S :=
  fun self => {| outcome := Ok self; self_after := self; logged := [] |}.

(** [logger.info(msg)] *)
Definition logger_info {S} (msg : string) : M S unit :=
  fun self => {| outcome := Ok tt; self_after := self; logged := [msg] |}.

Declare Scope method_scope.
Delimit Scope method_scope with method.
Notation "x <- m ;; k" := (bind m (fun x => k))
  (at level 61, m at next level, right associativity) : method_scope.
Notation "m ;;; k" := (bind m (fun _ => k))
  (at level 61, right associativity) : method_scope.

(* ------------------------------------------------------------------ *)
(** ** String formatting of floats *)

Definition round_half_even (q : Q) : Z :=
  let f := Qfloor q in
  match Qcompare (q - inject_Z f) (1 # 2) with
  | Lt => f
  | Gt => (f + 1)%Z
  | Eq => if Z.even f then f else (f + 1)%Z
  end.

Definition decimal (n : Z) : string := NilZero.string_of_uint (N.to_uint (Z.to_N n)).

(** [s] filled with zeros on the left up to [width] characters. *)
Fixpoint pad_zeros (fuel width : nat) (s : string) : string :=
  match fuel with
  | O => s
  | S f => if String.length s <? width then pad_zeros f width (String "0" s) else s
  end.

(** ["{:.<d>f}".format(q)]: [q] in fixed notation, rounded to [d] decimals. *)
Definition format_f (d : nat) (q : float) : string :=
  let scale := (10 ^ Z.of_nat d)%Z in
  let n := round_half_even (Qabs q * inject_Z scale) in
  let sign := if Qlt_bool q 0 then "-"%string else ""%string in
  let frac := match d with
              | O => ""%string
              | _ => ("." ++ pad_zeros d d (decimal (n mod scale)))%string
              end in
  (sign ++ decimal (n / scale) ++ frac)%string.

(* ------------------------------------------------------------------ *)
(** ** Doubles *)

(** Python's [float] is the IEEE 754 binary64 format: 53 significant
    bits, the last place no finer than [2 ^ -1074], values below
    [2 ^ 1024] in magnitude.  A float operation yields the double nearest
    to the exact result, ties to the even significand, and an infinity
    when that double would reach [2 ^ 1024]. *)
Module Double.

Local Open Scope Q_scope.

(** A float: a finite value or an infinity with its sign. *)
Inductive t : Type :=
| Finite (x : float)
| Infinite (negative : bool).

(** The [k] with [2 ^ k <= q < 2 ^ (k + 1)], for a positive [q]. *)
Definition binade (q : Q) : Z :=
  let k := (Z.log2 (Qnum q) - Z.log2 (Zpos (Qden q)))%Z in
  if Qle_bool (2 ^ k) q then k else (k - 1)%Z.

(** The exponent of the last place of the doubles of the magnitude of
    [q]. *)
Definition ulp_exponent (q : Q) : Z := Z.max (binade (Qabs q) - 52) (-1074).

(** The multiple of the last place nearest to [q], ties to the even
    multiple, as a reduced fraction. *)
Definition rounded (q : Q) : Q :=
  let e := ulp_exponent q in
  Qred (inject_Z (round_half_even (q / 2 ^ e)) * 2 ^ e).

(** The double nearest to [q]. *)
Definition round (q : Q) : t :=
  if Qle_bool (2 ^ 1024) (Qabs (rounded q)) then Infinite (Qlt_bool q 0)
  else Finite (rounded q).

(** [x + y] and [x * y] on finite doubles. *)
Definition add (x y : float) : t := round (x + y).

Definition mul (x y : float) : t := round (x * y).

(** [a * x] for a positive finite double [a]. *)
Definition times (a : float) (x : t) : t :=
  match x with
  | Finite y => mul a y
  | Infinite negative => Infinite negative
  end.

(** [n < x] for an int [n] and a float [x]: Python compares the exact
    values. *)
Definition lt_int (n : Z) (x : t) : bool :=
  match x with
  | Finite q => Qlt_bool (inject_Z n) q
  | Infinite negative => negb negative
  end.

(** ["{:.<d>f}".format(x)] *)
Definition format (d : nat) (x : t) : string :=
  match x with
  | Finite q => format_f d q
  | Infinite true => "-inf"
  | Infinite false => "inf"
  end.

End Double.

(* ------------------------------------------------------------------ *)
(** ** [class VOCMetric(Metric)] *)

Module VOCMetric.

Local Open Scope Q_scope.

(** The [inputs] dict of [update]: the entries the method reads; an entry
    may be missing.  [gt_bbox] holds, per image, its boxes; [gt_class]
    and [difficult] hold, per image, one integer per box; [scale_factor]
    holds, per image, the pair (height, width). *)
Record Inputs : Type := mk_inputs {
  gt_bbox : option (list (list box));
  gt_class : option (list (list Z));
  difficult : option (list (list Z));
  scale_factor : option (list (float * float))
}.

(** The [outputs] dict of [update], as the architectures' [get_pred]
    builds it: the rows [label, score, coordinates] of all images and the
    number of rows of each image. *)
Record Outputs : Type := mk_outputs {
  bbox : ndarray;
  bbox_num : list nat
}.

Record t : Type := mk {
  anno_file : string;
  clsid2catid : list (Z * Z);
  catid2name : list (Z * string);
  overlap_thresh : float;
  map_type : string;
  evaluate_difficult : bool;
  detection_map : DetectionMAP.t
}.

Definition set_detection_map (self : t) (dm : DetectionMAP.t) : t :=
  {| anno_file := anno_file self;
     clsid2catid := clsid2catid self;
     catid2name := catid2name self;
     overlap_thresh := overlap_thresh self;
     map_type := map_type self;
     evaluate_difficult := evaluate_difficult self;
     detection_map := dm |}.

(** [np.ones((n, 2))] *)
Definition np_ones (n : nat) : list (float * float) := repeat (1, 1) n.

(** [gt_box / np.array([a, b, c, d])]: the divisor is broadcast over the
    boxes of the image. *)
Definition box_div (b d : box) : box :=
  let '(x1, y1, x2, y2) := b in
  let '(d1, d2, d3, d4) := d in
  (x1 / d1, y1 / d2, x2 / d3, y2 / d4).

Definition array_div (gt_box : list box) (d : box) : list box :=
  map (fun b => box_div b d) gt_box.

(** [def reset(self)] *)
Definition reset : M t unit :=
  fun self =>
    {| outcome := Ok tt;
       self_after := set_detection_map self (DetectionMAP.reset (detection_map self));
       logged := [] |}.

(** [self.detection_map.update(bbox, score, label, gt_box, gt_label, difficult)] *)
Definition detection_map_update (bbox : ndarray) (score label : list float)
    (gt_box : list box) (gt_label : list Z) (difficult : option (list Z))
  : M t unit :=
  fun self =>
    match DetectionMAP.update (detection_map self) bbox score label
            gt_box gt_label difficult with
    | Ok dm => {| outcome := Ok tt; self_after := set_detection_map self dm; logged := [] |}
    | Raise e => {| outcome := Raise e; self_after := self; logged := [] |}
    end.

Section WithEnvironment.

(** [os.path.isfile] and [get_categories] ([category.py]) stand for the
    file system and the annotation reader. *)
Variable isfile : string -> bool.
Variable get_categories : string -> string -> list (Z * Z) * list (Z * string).

(** [prune_zero_padding] of [map_utils.py] is neither among the sources
    nor described by the specification: it is a parameter. *)
Variable prune_zero_padding :
  list box -> list Z -> option (list Z) -> list box * list Z * option (list Z).

(** [def __init__(self, anno_file, class_num=20, overlap_thresh=0.5,
    map_type='11point', is_bbox_normalized=False, evaluate_difficult=False)] *)
Definition init (anno_file : string) (class_num : nat) (overlap_thresh : float)
    (map_type : string) (is_bbox_normalized evaluate_difficult : bool) : result t :=
  if isfile anno_file then
    let '(clsid2catid, catid2name) := get_categories "VOC" anno_file in
    let self :=
      {| anno_file := anno_file;
         clsid2catid := clsid2catid;
         catid2name := catid2name;
         overlap_thresh := overlap_thresh;
         map_type := map_type;
         evaluate_difficult := evaluate_difficult;
         detection_map :=
           DetectionMAP.init class_num overlap_thresh map_type
             is_bbox_normalized evaluate_difficult |} in
    Ok (self_after (reset self))
  else Raise AssertionError.

(** The constructor with every keyword argument left at its default. *)
Definition init_default (anno_file : string) : result t :=
  init anno_file 20 (1 # 2) "11point" false false.

Section Loop.

(** The local variables of [update] that the loop reads. *)
Variables (gt_boxes : list (list box)) (gt_labels : list (list Z))
          (difficults : option (list (list Z)))
          (scale_factor : list (float * float))
          (bboxes : ndarray) (scores labels : list float)
          (bbox_lengths : list nat).

(** [for i in range(gt_boxes.shape[0]): ...], with the local [bbox_idx]. *)
Fixpoint update_loop (range : list nat) (bbox_idx : nat) : M t unit :=
  match range with
  | [] => ret tt
  | i :: range' =>
      (gt_box <- lift (getitem gt_boxes i) ;;
       hw <- lift (getitem scale_factor i) ;;
       let '(h, w) := hw in
       let gt_box := array_div gt_box (w, h, w, h) in
       gt_label <- lift (getitem gt_labels i) ;;
       difficult <- match difficults with
                    | None => ret None
                    | Some ds => (d <- lift (getitem ds i) ;; ret (Some d))
                    end ;;
       bbox_num <- lift (getitem bbox_lengths i) ;;
       let bbox := row_slice bboxes bbox_idx bbox_num in
       let score := slice scores bbox_idx bbox_num in
       let label := slice labels bbox_idx bbox_num in
       let '(gt_box, gt_label, difficult) :=
         prune_zero_padding gt_box gt_label difficult in
       detection_map_update bbox score label gt_box gt_label difficult ;;;
       update_loop range' (bbox_idx + bbox_num))%method
  end.

End Loop.

(** [def update(self, inputs, outputs)].  The test [bboxes is None] of the
    source is never true of an array and is left out. *)
Definition update (inputs : Inputs) (outputs : Outputs) : M t unit :=
  (let bboxes := columns_from 2 (bbox outputs) in
   scores <- lift (column 1 (bbox outputs)) ;;
   labels <- lift (column 0 (bbox outputs)) ;;
   let bbox_lengths := bbox_num outputs in
   if shape_eqb (shape bboxes) (1, 1)%nat then ret tt
   else
     gt_boxes <- lift (getkey "gt_bbox" (gt_bbox inputs)) ;;
     gt_labels <- lift (getkey "gt_class" (gt_class inputs)) ;;
     self <- get_self ;;
     difficults <- (if negb (evaluate_difficult self)
                    then (d <- lift (getkey "difficult" (difficult inputs)) ;;
                          ret (Some d))
                    else ret None) ;;
     let scale_factor :=
       match scale_factor inputs with
       | Some sf => sf
       | None => np_ones (List.length gt_boxes)
       end in
     update_loop gt_boxes gt_labels difficults scale_factor
       bboxes scores labels bbox_lengths (seq 0 (List.length gt_boxes)) 0)%method.

End WithEnvironment.

(** [def accumulate(self)] *)
Definition accumulate : M t unit :=
  (logger_info "Accumulating evaluatation results..." ;;;
   fun self =>
     {| outcome := Ok tt;
        self_after := set_detection_map self (DetectionMAP.accumulate (detection_map self));
        logged := [] |})%method.

(** [self.detection_map.get_map()] *)
Definition detection_map_get_map : M t (option float) :=
  fun self =>
    {| outcome := Ok (DetectionMAP.get_map (detection_map self));
       self_after := self;
       logged := [] |}.

(** [100. * m] for a score [m]: [get_map()] returns a float, the double
    of the score, and the product is a float product. *)
Definition percent (m : float) : Double.t := Double.times 100 (Double.round m).

(** [100. * x]: a [TypeError] when [x] is [None]. *)
Definition times_100 (x : option float) : result Double.t :=
  match x with
  | Some m => Ok (percent m)
  | None => Raise TypeError
  end.

(** The line of [log]: ["mAP({:.2f}, {}) = {:.2f}%".format(...)], the
    threshold being a float. *)
Definition summary (overlap_thresh : float) (map_type : string) (map_stat : Double.t)
  : string :=
  ("mAP(" ++ Double.format 2 (Double.round overlap_thresh) ++ ", "
   ++ map_type ++ ") = " ++ Double.format 2 map_stat ++ "%")%string.

(** [def log(self)] *)
Definition log : M t unit :=
  (m <- detection_map_get_map ;;
   map_stat <- lift (times_100 m) ;;
   self <- get_self ;;
   logger_info (summary (overlap_thresh self) (map_type self) map_stat))%method.

(** [def get_results(self)]: the body is the expression statement
    [self.detection_map.get_map()], without [return]; the method returns
    Python's [None]. *)
Definition get_results : M t (option float) :=
  (_ <- detection_map_get_map ;; ret None)%method.

(** The calls a driver makes on a metric after its construction. *)
Inductive call : Type :=
| Reset
| Update (inputs : Inputs) (outputs : Outputs)
| Accumulate
| Log
| GetResults.

Section Driver.

Variable prune_zero_padding :
  list box -> list Z -> option (list Z) -> list box * list Z * option (list Z).

Definition exec (c : call) : M t unit :=
  match c with
  | Reset => reset
  | Update inputs outputs => update prune_zero_padding inputs outputs
  | Accumulate => accumulate
  | Log => log
  | GetResults => (_ <- get_results ;; ret tt)%method
  end.

(** The object after a sequence of calls; a driver that catches an
    exception goes on with the object as the failed call left it. *)
Fixpoint run (calls : list call) (self : t) : t :=
  match calls with
  | [] => self
  | c :: rest => run rest (self_after (exec c self))
  end.

End Driver.

End VOCMetric.

(* ------------------------------------------------------------------ *)
(** ** [class ReIDMetric(Metric)] *)

Module ReIDMetric.

Local Open Scope Q_scope.

Record t : Type := mk {
  far_levels : list float;
  embedding : list (list float);
  id_labels : list Z;
  eval_results : list (string * string)
}.

(** [def reset(self)] *)
Definition reset : M t unit :=
  fun self =>
    {| outcome := Ok tt;
       self_after := {| far_levels := far_levels self;
                        embedding := [];
                        id_labels := [];
                        eval_results := [] |};
       logged := [] |}.

(** [def __init__(self, far_levels=[1e-6, 1e-5, 1e-4, 1e-3, 1e-2, 1e-1])];
    the attribute [self.metrics], the module [sklearn.metrics], is not
    part of the state. *)
Definition init (far_levels : list float) : t :=
  self_after (reset {| far_levels := far_levels;
                       embedding := [];
                       id_labels := [];
                       eval_results := [] |}).

Definition default_far_levels : list float :=
  [1 # 1000000; 1 # 100000; 1 # 10000; 1 # 1000; 1 # 100; 1 # 10].

(** [out[-1]]: an [IndexError] on an empty tensor. *)
Definition last_item (out : list float) : result float :=
  match rev out with
  | x :: _ => Ok x
  | [] => Raise IndexError
  end.

(** [self.embedding.append(feat); self.id_labels.append(label)] *)
Definition append_pair (feat : list float) (label : Z) : M t unit :=
  fun self =>
    {| outcome := Ok tt;
       self_after := {| far_levels := far_levels self;
                        embedding := embedding self ++ [feat];
                        id_labels := id_labels self ++ [label];
                        eval_results := eval_results self |};
       logged := [] |}.

(** [def update(self, inputs, outputs)]; [inputs] is not read. *)
Fixpoint update (outputs : list (list float)) : M t unit :=
  match outputs with
  | [] => ret tt
  | out :: rest =>
      (let feat := removelast out in
       x <- lift (last_item out) ;;
       let label := int x in
       (if (label =? -1)%Z then ret tt else append_pair feat label) ;;;
       update rest)%method
  end.

(** [d[key] = value] on a dict, which keeps the order of first insertion. *)
Fixpoint dict_set (key value : string) (d : list (string * string))
  : list (string * string) :=
  match d with
  | [] => [(key, value)]
  | (k, v) :: rest =>
      if String.eqb k key then (k, value) :: rest
      else (k, v) :: dict_set key value rest
  end.

Section WithLibraries.

(** The numeric pipeline of [accumulate] (normalisation, pairwise
    similarity, [roc_curve] of sklearn, [interp1d] of scipy) is library
    code: from the embeddings, the labels and the FAR levels it yields
    one TAR per level, or raises. *)
Variable tar_at_far : list (list float) -> list Z -> list float -> result (list float).

Definition set_eval_result (key value : string) : M t unit :=
  fun self =>
    {| outcome := Ok tt;
       self_after := {| far_levels := far_levels self;
                        embedding := embedding self;
                        id_labels := id_labels self;
                        eval_results := dict_set key value (eval_results self) |};
       logged := [] |}.

(** [for f, fa in enumerate(self.far_levels): ...]; [tar_at_far[f]] raises
    when the list is too short. *)
Fixpoint store_results (tars : list float) (levels : list (nat * float)) : M t unit :=
  match levels with
  | [] => ret tt
  | (f, fa) :: rest =>
      (tar <- lift (getitem tars f) ;;
       set_eval_result ("TPR@FAR=" ++ format_f 7 fa) (" " ++ format_f 4 tar) ;;;
       store_results tars rest)%method
  end.

(** [assert len(self.embedding) == len(self.id_labels)] *)
Definition accumulate_assertion (self : t) : bool :=
  (List.length (embedding self) =? List.length (id_labels self))%nat.

(** [def accumulate(self)] *)
Definition accumulate : M t unit :=
  (logger_info "Computing pairwise similairity..." ;;;
   self <- get_self ;;
   if negb (accumulate_assertion self) then raise AssertionError
   else if (List.length (embedding self) <? 1)%nat then ret tt
   else
     tars <- lift (tar_at_far (embedding self) (id_labels self) (far_levels self)) ;;
     store_results tars (combine (seq 0 (List.length (far_levels self))) (far_levels self)))%method.

(** The states a metric goes through: construction, then [reset],
    [update] and [accumulate] calls in any order, failed ones included. *)
Inductive reachable : t -> Prop :=
| reach_init levels : reachable (init levels)
| reach_reset s : reachable s -> reachable (self_after (reset s))
| reach_update s outputs : reachable s -> reachable (self_after (update outputs s))
| reach_accumulate s : reachable s -> reachable (self_after (accumulate s)).

End WithLibraries.

(** [def log(self)]: [for k, v in self.eval_results.items(): ...] *)
Fixpoint log_items (items : list (string * string)) : M t unit :=
  match items with
  | [] => ret tt
  | (k, v) :: rest => (logger_info (k ++ ": " ++ v) ;;; log_items rest)%method
  end.

Definition log : M t unit :=
  (self <- get_self ;; log_items (eval_results self))%method.

(** [def get_results(self)] *)
Definition get_results : M t (list (string * string)) :=
  (self <- get_self ;; ret (eval_results self))%method.

End ReIDMetric.

(* ------------------------------------------------------------------ *)
(** ** Sample data *)

Module Examples.

Local Open Scope Q_scope.

(** An image with one ground-truth box of class 0 and one prediction of
    class 0, score 0.5, on the same box. *)
Definition im_hit : DetectionMAP.Image :=
  {| DetectionMAP.im_bbox := {| ncols := 4; rows := [[0; 0; 1; 1]] |};
     DetectionMAP.im_score := [1 # 2];
     DetectionMAP.im_label := [0];
     DetectionMAP.im_gt_box := [(0, 0, 1, 1)];
     DetectionMAP.im_gt_label := [0%Z];
     DetectionMAP.im_difficult := None |}.

(** An image without ground truth and one prediction of class 0, score
    0.5. *)
Definition im_miss : DetectionMAP.Image :=
  {| DetectionMAP.im_bbox := {| ncols := 4; rows := [[0; 0; 1; 1]] |};
     DetectionMAP.im_score := [1 # 2];
     DetectionMAP.im_label := [0];
     DetectionMAP.im_gt_box := [];
     DetectionMAP.im_gt_label := [];
     DetectionMAP.im_difficult := None |}.

(** An image without ground truth and one prediction of class 0, score
    0.25. *)
Definition im_low_miss : DetectionMAP.Image :=
  {| DetectionMAP.im_bbox := {| ncols := 4; rows := [[0; 0; 1; 1]] |};
     DetectionMAP.im_score := [1 # 4];
     DetectionMAP.im_label := [0];
     DetectionMAP.im_gt_box := [];
     DetectionMAP.im_gt_label := [];
     DetectionMAP.im_difficult := None |}.

(** A one-class accumulator, threshold 0.5, 11-point mode. *)
Definition engine : DetectionMAP.t :=
  DetectionMAP.init 1 (1 # 2) "11point" false false.

Definition after (dataset : list DetectionMAP.Image) : DetectionMAP.t :=
  match DetectionMAP.update_all (DetectionMAP.reset engine) dataset with
  | Ok s => s
  | Raise _ => engine
  end.

(** An image without ground truth and three predictions of class 0. *)
Definition im_three_misses : DetectionMAP.Image :=
  {| DetectionMAP.im_bbox :=
       {| ncols := 4; rows := [[0; 0; 1; 1]; [1; 1; 2; 2]; [2; 2; 3; 3]] |};
     DetectionMAP.im_score := [9 # 10; 1 # 2; 1 # 10];
     DetectionMAP.im_label := [0; 0; 0];
     DetectionMAP.im_gt_box := [];
     DetectionMAP.im_gt_label := [];
     DetectionMAP.im_difficult := None |}.

(** An image whose only ground-truth box is difficult, with a prediction
    on the same box. *)
Definition im_difficult_hit : DetectionMAP.Image :=
  {| DetectionMAP.im_bbox := {| ncols := 4; rows := [[0; 0; 1; 1]] |};
     DetectionMAP.im_score := [1];
     DetectionMAP.im_label := [0];
     DetectionMAP.im_gt_box := [(0, 0, 1, 1)];
     DetectionMAP.im_gt_label := [0%Z];
     DetectionMAP.im_difficult := Some [1%Z] |}.

(** An image whose prediction covers half of its ground-truth box: the
    IoU is exactly 0.5. *)
Definition im_half_overlap : DetectionMAP.Image :=
  {| DetectionMAP.im_bbox := {| ncols := 4; rows := [[0; 0; 1; 1]] |};
     DetectionMAP.im_score := [1];
     DetectionMAP.im_label := [0];
     DetectionMAP.im_gt_box := [(0, 0, 2, 1)];
     DetectionMAP.im_gt_label := [0%Z];
     DetectionMAP.im_difficult := None |}.

(** The scores of a pass of [engine], in 11-point or in continuous mode,
    over a dataset. *)
Definition scores (mode : string) (dataset : list DetectionMAP.Image)
  : option DetectionMAP.Score :=
  match DetectionMAP.update_all (DetectionMAP.init 1 (1 # 2) mode false false) dataset with
  | Ok s => DetectionMAP.computed (DetectionMAP.accumulate s)
  | Raise _ => None
  end.

(** A file system in which every path is a file, an annotation reader
    that finds no category, and a pruning that keeps everything. *)
Definition any_file (path : string) : bool := true.

Definition no_categories (kind path : string) : list (Z * Z) * list (Z * string) :=
  ([], []).

Definition keep_all (gt_box : list box) (gt_label : list Z) (difficult : option (list Z))
  : list box * list Z * option (list Z) :=
  (gt_box, gt_label, difficult).

Definition voc (evaluate_difficult : bool) : VOCMetric.t :=
  {| VOCMetric.anno_file := "annotations.txt";
     VOCMetric.clsid2catid := [];
     VOCMetric.catid2name := [];
     VOCMetric.overlap_thresh := 1 # 2;
     VOCMetric.map_type := "11point";
     VOCMetric.evaluate_difficult := evaluate_difficult;
     VOCMetric.detection_map :=
       DetectionMAP.init 1 (1 # 2) "11point" false evaluate_difficult |}.

(** One image of scale (height 2, width 4), one box of class 0, one
    prediction of class 0 and score 0.5. *)
Definition inputs_one (flags : option (list (list Z))) : VOCMetric.Inputs :=
  {| VOCMetric.gt_bbox := Some [[(0, 0, 4, 2)]];
     VOCMetric.gt_class := Some [[0%Z]];
     VOCMetric.difficult := flags;
     VOCMetric.scale_factor := Some [(2, 4)] |}.

Definition outputs_one : VOCMetric.Outputs :=
  {| VOCMetric.bbox := {| ncols := 6; rows := [[0; 1 # 2; 0; 0; 1; 1]] |};
     VOCMetric.bbox_num := [1%nat] |}.

(** Outputs of shape (1, 3): their columns from 2 on have shape (1, 1). *)
Definition outputs_none : VOCMetric.Outputs :=
  {| VOCMetric.bbox := {| ncols := 3; rows := [[0; 0; 0]] |};
     VOCMetric.bbox_num := [1%nat] |}.

Definition no_inputs : VOCMetric.Inputs :=
  {| VOCMetric.gt_bbox := None;
     VOCMetric.gt_class := None;
     VOCMetric.difficult := None;
     VOCMetric.scale_factor := None |}.

(** A ROC pipeline that always fails. *)
Definition no_roc (embedding : list (list float)) (labels : list Z)
    (levels : list float) : result (list float) :=
  Raise ValueError.

End Examples.

(* ------------------------------------------------------------------ *)
(** ** Notions used in the properties *)

(** A method body leaves the part [key] of the object alone, whether it
    returns or raises. *)
Definition keeps {S K A : Type} (key : S -> K) (m : M S A) : Prop :=
  forall self, key (self_after (m self)) = key self.

(** A method body maintains the invariant [P] of the object, whether it
    returns or raises. *)
Definition maintains {S A : Type} (P : S -> Prop) (m : M S A) : Prop :=
  forall self, P self -> P (self_after (m self)).

Module DetectionMAPNotions.
Import DetectionMAP.

(** The fields fixed by the constructor. *)
Definition config (s : t) : nat * float * string * bool * bool :=
  (class_num s, overlap_thresh s, map_type s, is_bbox_normalized s, evaluate_difficult s).

(** The number of true positives of a sequence. *)
Definition count_tp (l : list (float * bool)) : nat :=
  List.length (filter snd l).

(** A curve whose precisions lie in [[0, 1]]. *)
Definition precisions_bounded (curve : list (float * float)) : Prop :=
  Forall (fun pt => 0 <= snd pt <= 1)%Q curve.

(** A curve whose recalls rise from [prev] and stay below 1, with
    precisions in [[0, 1]]. *)
Fixpoint rising (prev : float) (curve : list (float * float)) : Prop :=
  match curve with
  | [] => True
  | (r, p) :: rest =>
      (prev <= r)%Q /\ (r <= 1)%Q /\ (0 <= p <= 1)%Q /\ rising r rest
  end.

(** A record whose true positives do not outnumber its ground truth. *)
Definition tp_within_gt (r : PerClassRecord) : Prop :=
  (count_tp (score_pos r) <= gt_count r)%nat.

(** The entries the matcher emitted for class [c], in order. *)
Definition entries_of (c : Z) (labelled : list (Z * (float * bool)))
  : list (float * bool) :=
  map snd (filter (fun e => (fst e =? c)%Z) labelled).

(** The ground-truth instances of class [c] that enter its total. *)
Definition gt_of (ed : bool) (c : Z) (gts : list GroundTruthBox) : nat :=
  List.length (filter (fun g => (gt_class_id g =? c)%Z && counted ed g) gts).

(** A record with more entries and a larger ground-truth count. *)
Definition extend (r : PerClassRecord) (entries : list (float * bool)) (n : nat)
  : PerClassRecord :=
  {| score_pos := score_pos r ++ entries; gt_count := gt_count r + n |}.

(** The instances of class [c] that enter the total and are still
    unmatched. *)
Definition avail (ed : bool) (c : Z) (gts : list GroundTruthBox) : nat :=
  List.length
    (filter (fun g => (gt_class_id g =? c)%Z && counted ed g && negb (matched g)) gts).

(** The ground truth and the labelled detections of an image; an image
    that [update] rejects contributes nothing. *)
Definition im_gts (im : Image) : list GroundTruthBox :=
  match ground_truth_of (im_gt_box im) (im_gt_label im) (im_difficult im) with
  | Ok gts => gts
  | Raise _ => []
  end.

Definition im_labelled (th : float) (ed : bool) (im : Image)
  : list (Z * (float * bool)) :=
  match detections_of (rows (im_bbox im)) (im_score im) (im_label im) with
  | Ok ds => matcher th ed ds (im_gts im)
  | Raise _ => []
  end.

(** What an image adds to the record of class [c]. *)
Definition im_entries (th : float) (ed : bool) (c : Z) (im : Image)
  : list (float * bool) :=
  entries_of c (im_labelled th ed im).

Definition im_gt_count (ed : bool) (c : Z) (im : Image) : nat :=
  gt_of ed c (im_gts im).

(** The invariant of the accumulator: one record per class, and in each
    the true positives do not outnumber the ground truth. *)
Definition well_formed (s : t) : Prop :=
  List.length (records s) = class_num s
  /\ forall i r, nth_error (records s) i = Some r -> tp_within_gt r.

(** The unweighted arithmetic mean; [0] for no value. *)
Definition mean (l : list float) : float :=
  if (List.length l =? 0)%nat then 0%Q else (sum l / of_nat (List.length l))%Q.

Definition has_ground_truth (r : PerClassRecord) : bool := (0 <? gt_count r)%nat.

(** Entries of equal score have the same verdict: no true positive ties
    with a false positive. *)
Fixpoint ties_agree (l : list (float * bool)) : Prop :=
  match l with
  | [] => True
  | x :: r => Forall (fun y => (fst x == fst y)%Q -> snd x = snd y) r /\ ties_agree r
  end.

(** Two rankings that have, rank by rank, equal scores and the same
    verdict. *)
Definition same_ranking (l l' : list (float * bool)) : Prop :=
  Forall2 (fun a b => (fst a == fst b)%Q /\ snd a = snd b) l l'.

(** The claim C4 as it is stated: whatever the split and whatever the
    order of the single pass, the mAP is the same. *)
Definition score_independent_of_insertion_order : Prop :=
  forall s0 d1 d2 d' s1 s2 s' m m',
    update_all (reset s0) d1 = Ok s1 ->
    update_all (reset s0) d2 = Ok s2 ->
    Permutation (d1 ++ d2) d' ->
    update_all (reset s0) d' = Ok s' ->
    get_map (accumulate (merge s1 s2)) = Some m ->
    get_map (accumulate s') = Some m' ->
    (m == m')%Q.

End DetectionMAPNotions.

Module VOCMetricNotions.
Import VOCMetric.

(** The configuration of a metric: its own fields and those of its
    accumulator. *)
Definition config (self : t) :=
  (overlap_thresh self, map_type self, evaluate_difficult self,
   DetectionMAPNotions.config (detection_map self)).

(** The accumulator of the metric is in a state that [DetectionMAP]'s own
    calls lead to. *)
Definition engine_reachable (self : t) : Prop :=
  DetectionMAP.reachable (detection_map self).

End VOCMetricNotions.

Module ReIDMetricNotions.
Import ReIDMetric.

(** Every stored embedding has its label, and no stored label is [-1]. *)
Definition paired (s : t) : Prop :=
  List.length (embedding s) = List.length (id_labels s)
  /\ Forall (fun l => l <> (-1)%Z) (id_labels s).

End ReIDMetricNotions.

(* ------------------------------------------------------------------ *)
(** ** Python lists and dicts *)

(** [l[i]] with a Python integer: a negative index counts from the end. *)
Definition py_getitem {A} (l : list A) (i : Z) : result A :=
  let n := Z.of_nat (List.length l) in
  if (0 <=? i)%Z && (i <? n)%Z then getitem l (Z.to_nat i)
  else if (- n <=? i)%Z && (i <? 0)%Z then getitem l (Z.to_nat (n + i))
  else Raise IndexError.

(** [d[key] = value] on a dict, which keeps the order of first insertion. *)
Fixpoint py_setitem {V} (key : string) (value : V) (d : list (string * V))
  : list (string * V) :=
  match d with
  | [] => [(key, value)]
  | (k, v) :: rest =>
      if String.eqb k key then (k, value) :: rest
      else (k, v) :: py_setitem key value rest
  end.

(** [d.get(key)]: [None] for a missing key. *)
Fixpoint py_get {V} (key : string) (d : list (string * V)) : option V :=
  match d with
  | [] => None
  | (k, v) :: rest => if String.eqb k key then Some v else py_get key rest
  end.

(* ------------------------------------------------------------------ *)
(** ** [class COCOMetric(Metric)] *)

Module COCOMetric.

Section WithLibraries.

(** One entry of the result lists (a JSON object) and the statistics of
    an evaluation are values of the COCO tools. *)
Variable item : Type.
Variable stats : Type.

(** [self.results]: the dict with the keys [bbox], [mask] and [segm]. *)
Record Results : Type := mk_results {
  res_bbox : list item;
  res_mask : list item;
  res_segm : list item
}.

(** What [get_infer_results] returns: a dict in which each of the three
    keys may be missing. *)
Record InferResults : Type := mk_infer {
  infer_bbox : option (list item);
  infer_mask : option (list item);
  infer_segm : option (list item)
}.

Record t : Type := mk {
  anno_file : string;
  clsid2catid : list (Z * Z);
  catid2name : list (Z * string);
  bias : Z;
  results : Results;
  eval_results : list (string * stats)
}.

(** The metric and the files of the working directory, each holding the
    list that [json.dump] wrote. *)
Record world : Type := mk_world {
  metric : t;
  files : list (string * list item)
}.

(** [os.path.isfile] and [get_categories] ([category.py]);
    [get_infer_results] and [cocoapi_eval] ([coco_utils.py], not among
    the sources): the latter reads the result file and the annotation
    file, and is taken to return. *)
Variable isfile : string -> bool.
Variable get_categories : string -> string -> list (Z * Z) * list (Z * string).
Variable get_infer_results :
  list (string * ndarray) -> list (Z * Z) -> Z -> InferResults.
Variable cocoapi_eval :
  list (string * list item) -> string -> string -> string -> stats.

Definition set_results (self : t) (r : Results) : t :=
  {| anno_file := anno_file self;
     clsid2catid := clsid2catid self;
     catid2name := catid2name self;
     bias := bias self;
     results := r;
     eval_results := eval_results self |}.

Definition set_eval_results (self : t) (e : list (string * stats)) : t :=
  {| anno_file := anno_file self;
     clsid2catid := clsid2catid self;
     catid2name := catid2name self;
     bias := bias self;
     results := results self;
     eval_results := e |}.

Definition modify (f : t -> t) : M world unit :=
  fun w =>
    {| outcome := Ok tt;
       self_after := {| metric := f (metric w); files := files w |};
       logged := [] |}.

(** [def reset(self)] *)
Definition reset : M world unit :=
  modify (fun self =>
    {| anno_file := anno_file self;
       clsid2catid := clsid2catid self;
       catid2name := catid2name self;
       bias := bias self;
       results := {| res_bbox := []; res_mask := []; res_segm := [] |};
       eval_results := [] |}).

(** [def __init__(self, anno_file, **kwargs)]; [kwargs.get('bias', 0)]. *)
Definition init (anno : string) (kwargs_bias : option Z) (fs : list (string * list item))
  : result world :=
  if isfile anno then
    let '(c2c, c2n) := get_categories "COCO" anno in
    let self :=
      {| anno_file := anno;
         clsid2catid := c2c;
         catid2name := c2n;
         bias := match kwargs_bias with Some b => b | None => 0%Z end;
         results := {| res_bbox := []; res_mask := []; res_segm := [] |};
         eval_results := [] |} in
    Ok (self_after (reset {| metric := self; files := fs |}))
  else Raise AssertionError.

(** [infer_results[k] if k in infer_results else []] *)
Definition or_empty (entry : option (list item)) : list item :=
  match entry with
  | Some l => l
  | None => []
  end.

(** [def update(self, inputs, outputs)]: [outputs] is a dict of arrays,
    [inputs] is read at the key [im_id] only. *)
Definition update (inputs_im_id : option ndarray) (outputs : list (string * ndarray))
  : M world unit :=
  (let outs := outputs in
   im_id <- lift (getkey "im_id" inputs_im_id) ;;
   let outs := py_setitem "im_id" im_id outs in
   w <- get_self ;;
   let infer_results :=
     get_infer_results outs (clsid2catid (metric w)) (bias (metric w)) in
   modify (fun self =>
     set_results self
       {| res_bbox := res_bbox (results self) ++ or_empty (infer_bbox infer_results);
          res_mask := res_mask (results self);
          res_segm := res_segm (results self) |}) ;;;
   modify (fun self =>
     set_results self
       {| res_bbox := res_bbox (results self);
          res_mask := res_mask (results self) ++ or_empty (infer_mask infer_results);
          res_segm := res_segm (results self) |}) ;;;
   modify (fun self =>
     set_results self
       {| res_bbox := res_bbox (results self);
          res_mask := res_mask (results self);
          res_segm := res_segm (results self) ++ or_empty (infer_segm infer_results) |}))%method.

(** [with open(path, 'w') as f: json.dump(data, f)] *)
Definition json_dump (path : string) (data : list item) : M world unit :=
  fun w =>
    {| outcome := Ok tt;
       self_after := {| metric := metric w; files := py_setitem path data (files w) |};
       logged := [] |}.

(** [self.eval_results[key] = value] *)
Definition store_stats (key : string) (value : stats) : M world unit :=
  modify (fun self => set_eval_results self (py_setitem key value (eval_results self))).

(** One [if len(self.results[name]) > 0:] block of [accumulate], on the
    list [data = self.results[name]]: the list is written to
    [<name>.json], the logger is told, the file is evaluated in the style
    [style] and the statistics are stored under [key]. *)
Definition evaluate (data : list item) (name style key : string) : M world unit :=
  if (0 <? List.length data)%nat then
    (json_dump (name ++ ".json") data ;;;
     logger_info ("The " ++ name ++ " result is saved to " ++ name ++ ".json.") ;;;
     w <- get_self ;;
     let seg_stats :=
       cocoapi_eval (files w) (name ++ ".json") style (anno_file (metric w)) in
     store_stats key seg_stats)%method
  else ret tt.

(** [def accumulate(self)]: the [bbox] results are evaluated in the style
    [bbox] and stored under [bbox]; the [mask] results and then the [segm]
    results are evaluated in the style [segm] and both stored under
    [mask]. *)
Definition accumulate : M world unit :=
  (w <- get_self ;;
   evaluate (res_bbox (results (metric w))) "bbox" "bbox" "bbox" ;;;
   w <- get_self ;;
   evaluate (res_mask (results (metric w))) "mask" "segm" "mask" ;;;
   w <- get_self ;;
   evaluate (res_segm (results (metric w))) "segm" "segm" "mask")%method.

(** [def log(self)]: [pass] *)
Definition log : M world unit := ret tt.

(** [def get_results(self)] *)
Definition get_results : M world (list (string * stats)) :=
  (w <- get_self ;; ret (eval_results (metric w)))%method.

(** The calls a driver makes on the metric. *)
Inductive call : Type :=
| Reset
| Update (inputs_im_id : option ndarray) (outputs : list (string * ndarray))
| Accumulate
| Log
| GetResults.

Definition exec (c : call) : M world unit :=
  match c with
  | Reset => reset
  | Update im_id outputs => update im_id outputs
  | Accumulate => accumulate
  | Log => log
  | GetResults => (_ <- get_results ;; ret tt)%method
  end.

(** The world after a sequence of calls; a failed call leaves it as it
    was when the exception was raised. *)
Fixpoint run (calls : list call) (w : world) : world :=
  match calls with
  | [] => w
  | c :: rest => run rest (self_after (exec c w))
  end.

End WithLibraries.

End COCOMetric.

(* ------------------------------------------------------------------ *)
(** ** [make_divisible] of [mobilenet_v3.py] *)

Module MobileNetV3.

Local Open Scope Q_scope.

(** Python's [max(a, b)] on integers. *)
Definition py_max (a b : Z) : Z := if (a <? b)%Z then b else a.

(** The float literal [0.9]: the double nearest to 9/10. *)
Definition nine_tenths : float := 8106479329266893 # 9007199254740992.

(** [def make_divisible(v, divisor=8, min_value=None)], on a number [v]
    (a float, or an int, which the float operations convert) and
    integers [divisor] and [min_value].  [v + divisor / 2] and [0.9 * v]
    are float operations; [None] stands for an exception: the
    [ZeroDivisionError] of [// divisor], or the [OverflowError] of an
    int too large for a float or of [int] on an infinite sum. *)
Definition make_divisible (v : float) (divisor : Z) (min_value : option Z)
  : option Z :=
  let min_value := match min_value with Some m => m | None => divisor end in
  match Double.round v, Double.round (inject_Z divisor / 2) with
  | Double.Finite v, Double.Finite half =>
      match Double.add v half with
      | Double.Finite s =>
          if (divisor =? 0)%Z then None
          else
            let new_v := py_max min_value (int s / divisor * divisor)%Z in
            let new_v :=
              if Double.lt_int new_v (Double.mul nine_tenths v)
              then (new_v + divisor)%Z else new_v in
            Some new_v
      | Double.Infinite _ => None
      end
  | _, _ => None
  end.

End MobileNetV3.

(* ------------------------------------------------------------------ *)
(** ** [JDEHead.parse_anchor] of [jde_head.py] *)

Module JDEHead.

(** The two attributes [parse_anchor] assigns; an anchor is a list of
    integers, [[w, h]]. *)
Record t : Type := mk {
  anchors : list (list (list Z));
  mask_anchors : list (list Z)
}.

(** [[anchors[i] for i in mask]] *)
Fixpoint select (anchor_list : list (list Z)) (mask : list Z)
  : result (list (list Z)) :=
  match mask with
  | [] => Ok []
  | i :: rest =>
      (a <- py_getitem anchor_list i ;;
       others <- select anchor_list rest ;;
       Ok (a :: others))%result
  end.

(** [[[anchors[i] for i in mask] for mask in anchor_masks]] *)
Fixpoint select_all (anchor_list : list (list Z)) (anchor_masks : list (list Z))
  : result (list (list (list Z))) :=
  match anchor_masks with
  | [] => Ok []
  | mask :: rest =>
      (group <- select anchor_list mask ;;
       others <- select_all anchor_list rest ;;
       Ok (group :: others))%result
  end.

Definition set_anchors (a : list (list (list Z))) : M t unit :=
  fun self =>
    {| outcome := Ok tt;
       self_after := {| anchors := a; mask_anchors := mask_anchors self |};
       logged := [] |}.

Definition set_mask_anchors (m : list (list Z)) : M t unit :=
  fun self =>
    {| outcome := Ok tt;
       self_after := {| anchors := anchors self; mask_anchors := m |};
       logged := [] |}.

(** [self.mask_anchors.append([])] *)
Definition append_empty : M t unit :=
  fun self =>
    {| outcome := Ok tt;
       self_after := {| anchors := anchors self;
                        mask_anchors := mask_anchors self ++ [[]] |};
       logged := [] |}.

(** [self.mask_anchors[-1].extend(a)] *)
Definition extend_last (a : list Z) : M t unit :=
  fun self =>
    match rev (mask_anchors self) with
    | [] => {| outcome := Raise IndexError; self_after := self; logged := [] |}
    | x :: before =>
        {| outcome := Ok tt;
           self_after := {| anchors := anchors self;
                            mask_anchors := rev before ++ [x ++ a] |};
           logged := [] |}
    end.

(** [for mask in masks: assert mask < anchor_num; ...extend(anchors[mask])] *)
Fixpoint extend_masks (anchor_list : list (list Z)) (anchor_num : Z) (masks : list Z)
  : M t unit :=
  match masks with
  | [] => ret tt
  | mask :: rest =>
      (if (mask <? anchor_num)%Z then ret tt else raise AssertionError) ;;;
      (a <- lift (py_getitem anchor_list mask) ;;
       extend_last a ;;;
       extend_masks anchor_list anchor_num rest)
  end%method.

(** [for masks in anchor_masks: ...] *)
Fixpoint fill_mask_anchors (anchor_list : list (list Z)) (anchor_num : Z)
    (anchor_masks : list (list Z)) : M t unit :=
  match anchor_masks with
  | [] => ret tt
  | masks :: rest =>
      (append_empty ;;;
       extend_masks anchor_list anchor_num masks ;;;
       fill_mask_anchors anchor_list anchor_num rest)
  end%method.

(** [def parse_anchor(self, anchors, anchor_masks)] *)
Definition parse_anchor (anchor_list : list (list Z)) (anchor_masks : list (list Z))
  : M t unit :=
  (selected <- lift (select_all anchor_list anchor_masks) ;;
   set_anchors selected ;;;
   set_mask_anchors [] ;;;
   let anchor_num := Z.of_nat (List.length anchor_list) in
   fill_mask_anchors anchor_list anchor_num anchor_masks)%method.

End JDEHead.

(* ------------------------------------------------------------------ *)
(** ** Notions used in the further properties *)

Module COCOMetricNotions.
Import COCOMetric.

Section Notions.

Context {item stats : Type}.

(** The fields the constructor sets and no method assigns. *)
Definition config (w : world item stats) : string * list (Z * Z) * list (Z * string) * Z :=
  (anno_file (metric w), clsid2catid (metric w), catid2name (metric w), bias (metric w)).

(** [old] is the beginning of [new]. *)
Definition prefix (old new : list item) : Prop := exists more, new = old ++ more.

(** Each result list of [w'] begins with the one of [w]. *)
Definition grown (w w' : world item stats) : Prop :=
  prefix (res_bbox (results (metric w))) (res_bbox (results (metric w')))
  /\ prefix (res_mask (results (metric w))) (res_mask (results (metric w')))
  /\ prefix (res_segm (results (metric w))) (res_segm (results (metric w'))).

(** The statistics are stored under [bbox] and [mask] only. *)
Definition keys_known (w : world item stats) : Prop :=
  Forall (fun k => k = "bbox"%string \/ k = "mask"%string)
    (map fst (eval_results (metric w))).

(** A sequence of calls without [reset]. *)
Definition no_reset (calls : list call) : Prop :=
  Forall (fun c => c <> Reset) calls.

End Notions.

End COCOMetricNotions.

Module VOCMetricBatch.
Import VOCMetric.

(** The entry of [inputs] that [update] misses first: [gt_bbox], then
    [gt_class], then, unless difficult instances are evaluated,
    [difficult]. *)
Definition first_missing (evaluate_difficult : bool) (inputs : Inputs) : option string :=
  match gt_bbox inputs, gt_class inputs with
  | None, _ => Some "gt_bbox"%string
  | Some _, None => Some "gt_class"%string
  | Some _, Some _ =>
      if negb evaluate_difficult then
        match difficult inputs with
        | None => Some "difficult"%string
        | Some _ => None
        end
      else None
  end.

Section Batch.

Variable prune_zero_padding :
  list box -> list Z -> option (list Z) -> list box * list Z * option (list Z).

Variables (bboxes : ndarray) (scores labels : list float).

(** What the engine is given for one image: the [n] detections from row
    [bbox_idx] on, and the ground truth of the image, scaled and pruned. *)
Definition image (g : list box) (hw : float * float) (l : list Z)
    (d : option (list Z)) (n bbox_idx : nat) : DetectionMAP.Image :=
  let '(h, w) := hw in
  let '(gb, gl, df) := prune_zero_padding (array_div g (w, h, w, h)) l d in
  {| DetectionMAP.im_bbox := row_slice bboxes bbox_idx n;
     DetectionMAP.im_score := slice scores bbox_idx n;
     DetectionMAP.im_label := slice labels bbox_idx n;
     DetectionMAP.im_gt_box := gb;
     DetectionMAP.im_gt_label := gl;
     DetectionMAP.im_difficult := df |}.

(** The images of a batch, as far as every per-image list has an entry:
    the detections of an image start where those of the image before
    end. *)
Fixpoint images (gt_boxes : list (list box)) (scale_factor : list (float * float))
    (gt_labels : list (list Z)) (difficults : option (list (list Z)))
    (bbox_lengths : list nat) (bbox_idx : nat) : list DetectionMAP.Image :=
  match gt_boxes, scale_factor, gt_labels, bbox_lengths with
  | g :: gs, hw :: sfs, l :: ls, n :: ns =>
      match difficults with
      | None =>
          image g hw l None n bbox_idx
          :: images gs sfs ls None ns (bbox_idx + n)
      | Some (d :: ds) =>
          image g hw l (Some d) n bbox_idx
          :: images gs sfs ls (Some ds) ns (bbox_idx + n)
      | Some [] => []
      end
  | _, _, _, _ => []
  end.

End Batch.

(** The images of the batch that [update] is called on. *)
Definition images_of prune_zero_padding (evaluate_difficult : bool)
    (inputs : Inputs) (outputs : Outputs) : list DetectionMAP.Image :=
  match gt_bbox inputs, gt_class inputs with
  | Some gt_boxes, Some gt_labels =>
      images prune_zero_padding
        (columns_from 2 (bbox outputs))
        (map (fun r => nth 1 r 0%Q) (rows (bbox outputs)))
        (map (fun r => nth 0 r 0%Q) (rows (bbox outputs)))
        gt_boxes
        (match scale_factor inputs with
         | Some sf => sf
         | None => np_ones (List.length gt_boxes)
         end)
        gt_labels
        (if negb evaluate_difficult then difficult inputs else None)
        (bbox_num outputs) 0
  | _, _ => []
  end.

(** The difficulty flags that [update] reads. *)
Definition flags_read (evaluate_difficult : bool) (inputs : Inputs)
  : option (list (list Z)) :=
  if negb evaluate_difficult then difficult inputs else None.

(** The scale factors that [update] uses. *)
Definition factors_used (inputs : Inputs) (gt_boxes : list (list box))
  : list (float * float) :=
  match scale_factor inputs with
  | Some sf => sf
  | None => np_ones (List.length gt_boxes)
  end.

(** The flags of image [i], when flags are read. *)
Definition flags_at (difficults : option (list (list Z))) (i : nat) : option (list Z) :=
  match difficults with
  | None => None
  | Some ds => nth_error ds i
  end.

(** The number of leading images that have an entry in every per-image
    array. *)
Definition batch_size (gt_boxes : list (list box)) (scale_factor : list (float * float))
    (gt_labels : list (list Z)) (difficults : option (list (list Z)))
    (bbox_lengths : list nat) : nat :=
  Nat.min (List.length gt_boxes)
    (Nat.min (List.length scale_factor)
       (Nat.min (List.length gt_labels)
          (Nat.min (match difficults with
                    | None => List.length gt_boxes
                    | Some ds => List.length ds
                    end)
             (List.length bbox_lengths)))).

(** The fields of the metric other than its accumulator. *)
Definition annotations (self : t) : string * list (Z * Z) * list (Z * string) :=
  (anno_file self, clsid2catid self, catid2name self).

End VOCMetricBatch.

Module ReIDMetricRows.
Import ReIDMetric.

(** The label of a row: its last entry, truncated as [int] does. *)
Definition label_of (out : list float) : Z := int (last out 0%Q).

(** The rows that [update] stores: those whose label is not [-1]. *)
Definition kept (out : list float) : bool := negb (label_of out =? -1)%Z.

(** The line of [log] for one entry. *)
Definition line (entry : string * string) : string :=
  (fst entry ++ ": " ++ snd entry)%string.

(** The key of the result at a FAR level. *)
Definition key_of (fa : float) : string := ("TPR@FAR=" ++ format_f 7 fa)%string.

(** The FAR levels and the stored rows. *)
Definition rows_and_levels (s : t) : list float * list (list float) * list Z :=
  (far_levels s, embedding s, id_labels s).

(** There is a result under [key]. *)
Definition has_key (key : string) (s : t) : Prop :=
  In key (map fst (eval_results s)).

End ReIDMetricRows.

(* ------------------------------------------------------------------ *)
(** ** Further sample data *)

Module FurtherExamples.

Local Open Scope Q_scope.

(** A converter that finds one box and one segmentation in every batch
    (entries are numbers here), and an evaluation whose statistics are
    the number of entries of the file it reads. *)
Definition one_box_one_segm (outs : list (string * ndarray))
    (clsid2catid : list (Z * Z)) (bias : Z) : COCOMetric.InferResults nat :=
  {| COCOMetric.infer_bbox := Some [1%nat];
     COCOMetric.infer_mask := None;
     COCOMetric.infer_segm := Some [2%nat] |}.

Definition count_entries (files : list (string * list nat))
    (path style anno : string) : nat :=
  match py_get path files with
  | Some l => List.length l
  | None => O
  end.

(** A COCO metric as its constructor leaves it, in an empty directory. *)
Definition coco : COCOMetric.world nat nat :=
  {| COCOMetric.metric :=
       {| COCOMetric.anno_file := "instances.json";
          COCOMetric.clsid2catid := [];
          COCOMetric.catid2name := [];
          COCOMetric.bias := 0%Z;
          COCOMetric.results :=
            {| COCOMetric.res_bbox := [];
               COCOMetric.res_mask := [];
               COCOMetric.res_segm := [] |};
          COCOMetric.eval_results := [] |};
     COCOMetric.files := [] |}.

Definition im_id_7 : ndarray := {| ncols := 1; rows := [[7]] |}.

(** The metric after one batch. *)
Definition coco_after_batch : COCOMetric.world nat nat :=
  self_after (COCOMetric.update one_box_one_segm (Some im_id_7) [] coco).

(** The doubles that Python writes [8.88888888888889],
    [0.125 * 0.01] (a score whose percentage is the double 0.125),
    [23 / 160] and [0.665]. *)
Definition double_8_889 : float := 2501999792983609 # 281474976710656.

Definition double_0_00125 : float := 5764607523034235 # 4611686018427387904.

Definition double_23_160 : float := 2589569785738035 # 18014398509481984.

Definition double_0_665 : float := 748723438050345 # 1125899906842624.

(** A one-class VOC metric of threshold [threshold] that holds the score
    [m]. *)
Definition voc_with_score (threshold m : float) : VOCMetric.t :=
  {| VOCMetric.anno_file := "annotations.txt";
     VOCMetric.clsid2catid := [];
     VOCMetric.catid2name := [];
     VOCMetric.overlap_thresh := threshold;
     VOCMetric.map_type := "11point";
     VOCMetric.evaluate_difficult := false;
     VOCMetric.detection_map :=
       {| DetectionMAP.class_num := 1;
          DetectionMAP.overlap_thresh := threshold;
          DetectionMAP.map_type := "11point";
          DetectionMAP.is_bbox_normalized := false;
          DetectionMAP.evaluate_difficult := false;
          DetectionMAP.records := [DetectionMAP.empty_record];
          DetectionMAP.computed :=
            Some {| DetectionMAP.ap_per_class := [m];
                    DetectionMAP.mean_ap := m |} |} |}.

(** One image with the box (0, 0, 4, 2) of class 0, and no scale
    factor. *)
Definition inputs_unscaled : VOCMetric.Inputs :=
  {| VOCMetric.gt_bbox := Some [[(0, 0, 4, 2)]];
     VOCMetric.gt_class := Some [[0%Z]];
     VOCMetric.difficult := None;
     VOCMetric.scale_factor := None |}.

(** A head before [parse_anchor]. *)
Definition head : JDEHead.t :=
  {| JDEHead.anchors := []; JDEHead.mask_anchors := [] |}.

(** A ReID metric with one stored row and two FAR levels, and a ROC
    pipeline that finds the TAR 0.5 at every level. *)
Definition reid_one_row : ReIDMetric.t :=
  {| ReIDMetric.far_levels := [1 # 10; 1 # 100];
     ReIDMetric.embedding := [[1; 2]];
     ReIDMetric.id_labels := [7%Z];
     ReIDMetric.eval_results := [] |}.

Definition flat_roc (embedding : list (list float)) (labels : list Z)
    (levels : list float) : result (list float) :=
  Ok (map (fun _ => 1 # 2) levels).

End FurtherExamples.

(* ================================================================== *)
(** * Properties *)

Unset Implicit Arguments.

(** ** Method bodies *)

Section Frames.

Context {S : Type} {K : Type} (key : S -> K).

Lemma keeps_ret A (a : A) : keeps key (ret a).
Proof. intro self; reflexivity. Qed.

Lemma keeps_raise A e : keeps key (@raise S A e).
Proof. intro self; reflexivity. Qed.

Lemma keeps_lift A (r : result A) : keeps key (lift r).
Proof. destruct r; intro self; reflexivity. Qed.

Lemma keeps_get_self : keeps key get_self.
Proof. intro self; reflexivity. Qed.

Lemma keeps_logger_info msg : keeps key (logger_info msg).
Proof. intro self; reflexivity. Qed.

Lemma keeps_bind A B (m : M S A) (k : A -> M S B) :
  keeps key m -> (forall a, keeps key (k a)) -> keeps key (bind m k).
Proof.
  intros Hm Hk self. unfold bind.
  destruct (outcome (m self)) as [a|e]; simpl.
  - rewrite Hk. apply Hm.
  - apply Hm.
Qed.

End Frames.

Section Invariants.

Context {S : Type} (P : S -> Prop).

Lemma maintains_ret A (a : A) : maintains P (ret a).
Proof. intros self H; exact H. Qed.

Lemma maintains_raise A e : maintains P (@raise S A e).
Proof. intros self H; exact H. Qed.

Lemma maintains_lift A (r : result A) : maintains P (lift r).
Proof. destruct r; intros self H; exact H. Qed.

Lemma maintains_get_self : maintains P get_self.
Proof. intros self H; exact H. Qed.

Lemma maintains_logger_info msg : maintains P (logger_info msg).
Proof. intros self H; exact H. Qed.

Lemma maintains_bind A B (m : M S A) (k : A -> M S B) :
  maintains P m -> (forall a, maintains P (k a)) -> maintains P (bind m k).
Proof.
  intros Hm Hk self H. unfold bind.
  destruct (outcome (m self)) as [a|e]; simpl.
  - apply Hk, Hm, H.
  - apply Hm, H.
Qed.

End Invariants.

Lemma bind_ok {S A B} (m : M S A) (k : A -> M S B) self a :
  m self = {| outcome := Ok a; self_after := self; logged := [] |} ->
  bind m k self = k a self.
Proof.
  intro H. unfold bind. rewrite H. simpl. destruct (k a self); reflexivity.
Qed.

Lemma bind_lift_ok {S A B} (a : A) (k : A -> M S B) self :
  bind (lift (Ok a)) k self = k a self.
Proof. apply bind_ok. reflexivity. Qed.

Lemma bind_ret {S A B} (a : A) (k : A -> M S B) self :
  bind (ret a) k self = k a self.
Proof. apply bind_ok. reflexivity. Qed.

Lemma bind_get_self {S B} (k : S -> M S B) self :
  bind get_self k self = k self self.
Proof. apply bind_ok. reflexivity. Qed.

Lemma bind_lift_raise {S A B} e (k : A -> M S B) self :
  bind (lift (Raise e)) k self = raise e self.
Proof. reflexivity. Qed.

(* ------------------------------------------------------------------ *)
(** ** The accumulator's configuration and score *)

Module DetectionMAPConfig.
Import DetectionMAP DetectionMAPNotions.

Lemma config_reset s : config (reset s) = config s.
Proof. reflexivity. Qed.

Lemma config_set_records s r : config (set_records s r) = config s.
Proof. reflexivity. Qed.

Lemma accumulate_unfold s :
  exists m,
    accumulate s =
    {| class_num := class_num s;
       overlap_thresh := overlap_thresh s;
       map_type := map_type s;
       is_bbox_normalized := is_bbox_normalized s;
       evaluate_difficult := evaluate_difficult s;
       records := records s;
       computed := Some {| ap_per_class := map (average_precision (map_type s)) (records s);
                           mean_ap := m |} |}
    /\ m = mean_of (fold_left (mean_step (map_type s)) (records s) (0%Q, O)).
Proof.
  unfold accumulate. eexists; split; reflexivity.
Qed.

Lemma config_accumulate s : config (accumulate s) = config s.
Proof.
  destruct (accumulate_unfold s) as (m & -> & _). reflexivity.
Qed.

Lemma records_accumulate s : records (accumulate s) = records s.
Proof.
  destruct (accumulate_unfold s) as (m & -> & _). reflexivity.
Qed.

Lemma accumulate_idempotent s : accumulate (accumulate s) = accumulate s.
Proof.
  destruct (accumulate_unfold s) as (m & E & Hm).
  destruct (accumulate_unfold (accumulate s)) as (m' & E' & Hm').
  rewrite E'. rewrite E in Hm' |- *. cbn [records map_type class_num overlap_thresh
    is_bbox_normalized evaluate_difficult] in *.
  rewrite Hm', Hm. reflexivity.
Qed.

Lemma get_map_accumulate s : exists m, get_map (accumulate s) = Some m.
Proof.
  destruct (accumulate_unfold s) as (m & -> & _). exists m. reflexivity.
Qed.

Lemma update_set_records s bbox score label gt_box gt_label difficult s' :
  update s bbox score label gt_box gt_label difficult = Ok s' ->
  exists r, s' = set_records s r.
Proof.
  unfold update, rbind.
  destruct (detections_of (rows bbox) score label); [|discriminate].
  destruct (ground_truth_of gt_box gt_label difficult); [|discriminate].
  destruct (store_ground_truth _ _ _); [|discriminate].
  destruct (store_detections _ _); [|discriminate].
  intro H; injection H as <-. eauto.
Qed.

Lemma config_update s bbox score label gt_box gt_label difficult s' :
  update s bbox score label gt_box gt_label difficult = Ok s' ->
  config s' = config s.
Proof.
  intro H. apply update_set_records in H as (r & ->). apply config_set_records.
Qed.

End DetectionMAPConfig.

(* ------------------------------------------------------------------ *)
(** ** [VOCMetric] *)

Module VOCMetricFacts.
Import VOCMetric VOCMetricNotions.
Import DetectionMAPConfig.

Local Open Scope Q_scope.

Lemma voc_accumulate_unfold self :
  accumulate self =
  {| outcome := Ok tt;
     self_after := set_detection_map self (DetectionMAP.accumulate (detection_map self));
     logged := ["Accumulating evaluatation results..."%string] |}.
Proof. reflexivity. Qed.

(** C1 (the code departs from it): once [accumulate] has completed, the
    accumulator holds a score, and [get_results] nevertheless returns
    Python's [None]. *)
Theorem get_results_returns_None (self : t) :
  let s := self_after (accumulate self) in
  (exists m, DetectionMAP.get_map (detection_map s) = Some m)
  /\ get_results s = {| outcome := Ok None; self_after := s; logged := [] |}.
Proof.
  split.
  - rewrite voc_accumulate_unfold. simpl. apply get_map_accumulate.
  - reflexivity.
Qed.

(** C3: a second [accumulate] with no call in between completes as the
    first one did: same outcome, same object (records and score), same
    logger line. *)
Theorem accumulate_twice (self : t) :
  accumulate (self_after (accumulate self)) = accumulate self.
Proof.
  rewrite !voc_accumulate_unfold. simpl.
  unfold set_detection_map. simpl.
  rewrite accumulate_idempotent. reflexivity.
Qed.

(** *** Configuration *)

Lemma keeps_config_reset : keeps config reset.
Proof. intro self. reflexivity. Qed.

Lemma keeps_config_detection_map_update bbox score label gt_box gt_label difficult :
  keeps config (detection_map_update bbox score label gt_box gt_label difficult).
Proof.
  intro self. unfold detection_map_update.
  destruct (DetectionMAP.update _ _ _ _ _ _ _) as [dm|e] eqn:E; simpl; [|reflexivity].
  unfold config. simpl. now rewrite (config_update _ _ _ _ _ _ _ _ E).
Qed.

Lemma keeps_config_accumulate : keeps config accumulate.
Proof.
  intro self. rewrite voc_accumulate_unfold. unfold config. simpl.
  now rewrite config_accumulate.
Qed.

Lemma keeps_config_log : keeps config log.
Proof.
  unfold log.
  apply keeps_bind; [intro; reflexivity|intro m].
  apply keeps_bind; [apply keeps_lift|intro x].
  apply keeps_bind; [apply keeps_get_self|intro s].
  apply keeps_logger_info.
Qed.

Lemma keeps_config_get_results : keeps config get_results.
Proof. intro self. reflexivity. Qed.

Create HintDb frame.

#[local] Hint Resolve keeps_ret keeps_raise keeps_lift keeps_get_self
  keeps_logger_info keeps_config_reset keeps_config_detection_map_update
  keeps_config_accumulate keeps_config_log keeps_config_get_results : frame.

(** *** The summary line *)

Lemma log_with_score (s : t) m :
  DetectionMAP.get_map (detection_map s) = Some m ->
  log s = {| outcome := Ok tt;
             self_after := s;
             logged := [summary (overlap_thresh s) (map_type s) (percent m)] |}.
Proof.
  intro H. unfold log.
  rewrite (bind_ok _ _ s (Some m)) by (unfold detection_map_get_map; now rewrite H).
  cbn [times_100]. rewrite bind_lift_ok, bind_get_self. reflexivity.
Qed.

(** C7: once [accumulate] has completed, the accumulator holds a score,
    and [log] sends the logger exactly one line,
    [mAP(<overlap_thresh>, <map_type>) = <percentage>%]; so it does on
    every metric that holds a score.  The percentage is the float product
    [100. * mAP], the double nearest to 100 times the score; it and the
    threshold are written with two decimals ([{:.2f}]: the exact value of
    the double, rounded half to even), [inf] for an infinite product. *)
Theorem log_emits_mAP_summary (self : t) :
  (let s := self_after (accumulate self) in
   exists m,
     DetectionMAP.get_map (detection_map s) = Some m
     /\ log s
        = {| outcome := Ok tt;
             self_after := s;
             logged := [("mAP(" ++ Double.format 2 (Double.round (overlap_thresh s))
                         ++ ", " ++ map_type s ++ ") = "
                         ++ Double.format 2
                              (Double.times 100 (Double.round m)) ++ "%")%string] |})
  /\ (forall m,
        DetectionMAP.get_map (detection_map self) = Some m ->
        log self
        = {| outcome := Ok tt;
             self_after := self;
             logged := [("mAP(" ++ Double.format 2 (Double.round (overlap_thresh self))
                         ++ ", " ++ map_type self ++ ") = "
                         ++ Double.format 2
                              (Double.times 100 (Double.round m)) ++ "%")%string] |}).
Proof.
  split.
  - intro s.
    destruct (get_map_accumulate (detection_map self)) as (m & Hm).
    exists m. split; [exact Hm|].
    apply (log_with_score s m). exact Hm.
  - intros m Hm. apply (log_with_score self m). exact Hm.
Qed.

Section WithPruning.

Variable prune_zero_padding :
  list box -> list Z -> option (list Z) -> list box * list Z * option (list Z).

Lemma keeps_config_update_loop gt_boxes gt_labels difficults scale_factor
    bboxes scores labels bbox_lengths range :
  forall bbox_idx,
    keeps config (update_loop prune_zero_padding gt_boxes gt_labels difficults
                    scale_factor bboxes scores labels bbox_lengths range bbox_idx).
Proof.
  induction range as [|i range IH]; intro bbox_idx; simpl; auto with frame.
  apply keeps_bind; [auto with frame|intro gt_box].
  apply keeps_bind; [auto with frame|intros [h w]].
  apply keeps_bind; [auto with frame|intro gt_label].
  apply keeps_bind.
  { destruct difficults; auto with frame.
    apply keeps_bind; auto with frame. }
  intro difficult.
  apply keeps_bind; [auto with frame|intro bbox_num].
  destruct (prune_zero_padding _ _ _) as [[gb gl] df].
  apply keeps_bind; auto with frame.
Qed.

Lemma keeps_config_update inputs outputs :
  keeps config (update prune_zero_padding inputs outputs).
Proof.
  unfold update.
  apply keeps_bind; [auto with frame|intro scores].
  apply keeps_bind; [auto with frame|intro labels].
  destruct (shape_eqb _ _); auto with frame.
  apply keeps_bind; [auto with frame|intro gt_boxes].
  apply keeps_bind; [auto with frame|intro gt_labels].
  apply keeps_bind; [auto with frame|intro self].
  apply keeps_bind.
  { destruct (negb _); auto with frame.
    apply keeps_bind; auto with frame. }
  intro difficults. apply keeps_config_update_loop.
Qed.

Lemma keeps_config_exec c : keeps config (exec prune_zero_padding c).
Proof.
  destruct c; simpl; auto with frame.
  apply keeps_config_update.
Qed.

Lemma config_run calls :
  forall self, config (run prune_zero_padding calls self) = config self.
Proof.
  induction calls as [|c calls IH]; intro self; simpl; [reflexivity|].
  rewrite IH. apply keeps_config_exec.
Qed.

Lemma config_init isfile get_categories anno n th mt bn ed self :
  init isfile get_categories anno n th mt bn ed = Ok self ->
  config self = (th, mt, ed, (n, th, mt, bn, ed)).
Proof.
  unfold init. destruct (isfile anno); [|discriminate].
  destruct (get_categories _ _) as [c2c c2n].
  intro H; injection H as <-. reflexivity.
Qed.

(** C6: whatever calls ([reset], [update], [accumulate], [log],
    [get_results]) follow the construction, failed ones included, the
    metric and its accumulator keep the number of classes, the overlap
    threshold, the interpolation mode, [is_bbox_normalized] and
    [evaluate_difficult] given to the constructor; the constructor's
    defaults are 20 classes, threshold 0.5, mode [11point] and both flags
    off. *)
Theorem configuration_fixed_at_construction
    isfile get_categories anno n th mt bn ed self calls :
  init isfile get_categories anno n th mt bn ed = Ok self ->
  let s := run prune_zero_padding calls self in
  (overlap_thresh s = th /\ map_type s = mt /\ evaluate_difficult s = ed
   /\ DetectionMAP.class_num (detection_map s) = n
   /\ DetectionMAP.overlap_thresh (detection_map s) = th
   /\ DetectionMAP.map_type (detection_map s) = mt
   /\ DetectionMAP.is_bbox_normalized (detection_map s) = bn
   /\ DetectionMAP.evaluate_difficult (detection_map s) = ed)
  /\ init_default isfile get_categories anno
     = init isfile get_categories anno 20 (1 # 2) "11point" false false.
Proof.
  intros Hinit s. split; [|reflexivity].
  pose proof (config_run calls self) as H.
  rewrite (config_init _ _ _ _ _ _ _ _ _ Hinit) in H.
  fold s in H. unfold config, DetectionMAPNotions.config in H.
  injection H as -> -> -> -> -> -> -> ->. repeat split; reflexivity.
Qed.

(** *** The early return of [update] *)

Lemma columns_from_shape_1_1 a :
  shape (columns_from 2 a) = (1, 1)%nat -> ncols a = 3%nat.
Proof.
  unfold shape, columns_from. simpl. intro H. injection H as _ H. lia.
Qed.

Lemma column_in_range k a :
  (k < ncols a)%nat -> column k a = Ok (map (fun r => nth k r 0) (rows a)).
Proof.
  intro H. unfold column. apply Nat.ltb_lt in H. now rewrite H.
Qed.

(** C8: when [outputs['bbox'][:, 2:]] has shape (1, 1), [update] returns
    at once: it completes normally, whatever [inputs] holds (even with
    the ground truth missing), and the object, hence every per-class
    record and ground-truth count, is as before. *)
Theorem update_returns_early_on_shape_1_1 (self : t) inputs outputs :
  shape (columns_from 2 (bbox outputs)) = (1, 1)%nat ->
  update prune_zero_padding inputs outputs self
  = {| outcome := Ok tt; self_after := self; logged := [] |}.
Proof.
  intro Hshape. pose proof (columns_from_shape_1_1 _ Hshape) as Hcols.
  unfold update.
  rewrite !column_in_range by lia.
  rewrite !bind_lift_ok. rewrite Hshape. reflexivity.
Qed.

(** *** Difficulty flags *)

(** C10: a metric with [evaluate_difficult] set never reads
    [inputs['difficult']]: two [update] calls whose inputs agree on the
    ground-truth boxes, the classes and the scale factors complete alike
    and leave the same object, whatever their difficulty flags are. *)
Theorem update_ignores_difficult_when_evaluated (self : t) inputs1 inputs2 outputs :
  evaluate_difficult self = true ->
  gt_bbox inputs1 = gt_bbox inputs2 ->
  gt_class inputs1 = gt_class inputs2 ->
  scale_factor inputs1 = scale_factor inputs2 ->
  update prune_zero_padding inputs1 outputs self
  = update prune_zero_padding inputs2 outputs self.
Proof.
  intros Hed Hb Hc Hs. unfold update. rewrite Hb, Hc, Hs.
  destruct (column 1 (bbox outputs)) as [scores|e]; [|reflexivity].
  rewrite !bind_lift_ok.
  destruct (column 0 (bbox outputs)) as [labels|e]; [|reflexivity].
  rewrite !bind_lift_ok.
  destruct (shape_eqb _ _); [reflexivity|].
  destruct (gt_bbox inputs2) as [gt_boxes|]; [|reflexivity].
  cbn [getkey]. rewrite !bind_lift_ok.
  destruct (gt_class inputs2) as [gt_labels|]; [|reflexivity].
  cbn [getkey]. rewrite !bind_lift_ok.
  rewrite !bind_get_self. rewrite Hed. cbn [negb].
  rewrite !bind_ret. reflexivity.
Qed.

(** *** Scale factors *)

Lemma box_div_ones b : box_div b (1, 1, 1, 1) = b.
Proof.
  destruct b as [[[x1 y1] x2] y2]. unfold box_div.
  assert (H : forall x : Q, x / 1 = x).
  { intros [n d]. unfold Qdiv, Qmult, Qinv. simpl.
    now rewrite Z.mul_1_r, Pos.mul_1_r. }
  now rewrite !H.
Qed.

Lemma array_div_ones g : array_div g (1, 1, 1, 1) = g.
Proof.
  unfold array_div. induction g as [|b g IH]; simpl; [reflexivity|].
  now rewrite box_div_ones, IH.
Qed.

(** One iteration of the loop of [update], on an image whose entries
    exist: the matcher is fed the boxes of the image divided by the
    scale factor as [array_div] tells. *)
Lemma update_loop_step gt_boxes gt_labels difficults sf bboxes scores labels lens
    i range bbox_idx g h w l d n (self : t) :
  nth_error gt_boxes i = Some g ->
  nth_error sf i = Some (h, w) ->
  nth_error gt_labels i = Some l ->
  match difficults with
  | None => d = None
  | Some ds => exists di, nth_error ds i = Some di /\ d = Some di
  end ->
  nth_error lens i = Some n ->
  update_loop prune_zero_padding gt_boxes gt_labels difficults sf bboxes scores
    labels lens (i :: range) bbox_idx self
  = (let '(gb, gl, df) := prune_zero_padding (array_div g (w, h, w, h)) l d in
     detection_map_update (row_slice bboxes bbox_idx n) (slice scores bbox_idx n)
       (slice labels bbox_idx n) gb gl df ;;;
     update_loop prune_zero_padding gt_boxes gt_labels difficults sf bboxes scores
       labels lens range (bbox_idx + n))%method self.
Proof.
  intros Hg Hsf Hl Hd Hn. cbn [update_loop]. unfold getitem.
  rewrite Hg, Hsf, Hl, Hn. rewrite !bind_lift_ok.
  destruct difficults as [ds|].
  - destruct Hd as (di & Hdi & ->). rewrite Hdi.
    rewrite (bind_ok _ _ self (Some di)) by reflexivity.
    rewrite !bind_lift_ok. reflexivity.
  - subst d. rewrite !bind_ret. rewrite !bind_lift_ok. reflexivity.
Qed.

(** *** The accumulator a metric drives *)

Lemma maintains_reachable_reset : maintains engine_reachable reset.
Proof. intros self H. apply DetectionMAP.reach_reset, H. Qed.

Lemma maintains_reachable_accumulate : maintains engine_reachable accumulate.
Proof.
  intros self H. rewrite voc_accumulate_unfold.
  apply DetectionMAP.reach_accumulate, H.
Qed.

Lemma maintains_reachable_log : maintains engine_reachable log.
Proof.
  unfold log.
  apply maintains_bind; [intros s Hs; exact Hs|intro m].
  apply maintains_bind; [apply maintains_lift|intro x].
  apply maintains_bind; [apply maintains_get_self|intro s].
  apply maintains_logger_info.
Qed.

Lemma maintains_reachable_detection_map_update bbox score label gt_box gt_label difficult :
  maintains engine_reachable
    (detection_map_update bbox score label gt_box gt_label difficult).
Proof.
  intros self H. unfold detection_map_update.
  destruct (DetectionMAP.update _ _ _ _ _ _ _) as [dm|e] eqn:E; simpl; [|exact H].
  apply (DetectionMAP.reach_update
           (s := detection_map self)
           {| DetectionMAP.im_bbox := bbox;
              DetectionMAP.im_score := score;
              DetectionMAP.im_label := label;
              DetectionMAP.im_gt_box := gt_box;
              DetectionMAP.im_gt_label := gt_label;
              DetectionMAP.im_difficult := difficult |}); [exact H|exact E].
Qed.

Lemma maintains_reachable_update_loop gt_boxes gt_labels difficults scale_factor
    bboxes scores labels bbox_lengths range :
  forall bbox_idx,
    maintains engine_reachable
      (update_loop prune_zero_padding gt_boxes gt_labels difficults
         scale_factor bboxes scores labels bbox_lengths range bbox_idx).
Proof.
  induction range as [|i range IH]; intro bbox_idx; simpl; [apply maintains_ret|].
  apply maintains_bind; [apply maintains_lift|intro gt_box].
  apply maintains_bind; [apply maintains_lift|intros [h w]].
  apply maintains_bind; [apply maintains_lift|intro gt_label].
  apply maintains_bind.
  { destruct difficults; [|apply maintains_ret].
    apply maintains_bind; [apply maintains_lift|intro; apply maintains_ret]. }
  intro difficult.
  apply maintains_bind; [apply maintains_lift|intro bbox_num].
  destruct (prune_zero_padding _ _ _) as [[gb gl] df].
  apply maintains_bind; [apply maintains_reachable_detection_map_update|].
  intros _. apply IH.
Qed.

Lemma maintains_reachable_update inputs outputs :
  maintains engine_reachable (update prune_zero_padding inputs outputs).
Proof.
  unfold update.
  apply maintains_bind; [apply maintains_lift|intro scores].
  apply maintains_bind; [apply maintains_lift|intro labels].
  destruct (shape_eqb _ _); [apply maintains_ret|].
  apply maintains_bind; [apply maintains_lift|intro gt_boxes].
  apply maintains_bind; [apply maintains_lift|intro gt_labels].
  apply maintains_bind; [apply maintains_get_self|intro self].
  apply maintains_bind.
  { destruct (negb _); [|apply maintains_ret].
    apply maintains_bind; [apply maintains_lift|intro; apply maintains_ret]. }
  intro difficults. apply maintains_reachable_update_loop.
Qed.

(** Whatever calls a driver makes on a metric, its accumulator goes
    through states that [reset], [update] and [accumulate] of the engine
    lead to: what holds of those holds of every evaluation. *)
Lemma run_engine_reachable calls :
  forall self,
    engine_reachable self -> engine_reachable (run prune_zero_padding calls self).
Proof.
  induction calls as [|c calls IH]; intros self H; simpl; [exact H|].
  apply IH. destruct c; simpl.
  - now apply maintains_reachable_reset.
  - now apply maintains_reachable_update.
  - now apply maintains_reachable_accumulate.
  - now apply maintains_reachable_log.
  - exact H.
Qed.

Lemma init_engine_reachable isfile get_categories anno n th mt bn ed self :
  init isfile get_categories anno n th mt bn ed = Ok self ->
  engine_reachable self.
Proof.
  unfold init. destruct (isfile anno); [|discriminate].
  destruct (get_categories _ _) as [c2c c2n].
  intro H; injection H as <-. unfold engine_reachable. simpl.
  apply DetectionMAP.reach_reset, DetectionMAP.reach_init.
Qed.

End WithPruning.

End VOCMetricFacts.

(* ------------------------------------------------------------------ *)
(** ** [ReIDMetric] *)

Module ReIDMetricFacts.
Import ReIDMetric ReIDMetricNotions.

Create HintDb reid.

#[local] Hint Resolve maintains_ret maintains_raise maintains_lift
  maintains_get_self maintains_logger_info : reid.

Lemma paired_init levels : paired (init levels).
Proof. split; [reflexivity|constructor]. Qed.

Lemma maintains_paired_reset : maintains paired reset.
Proof. intros s _. split; [reflexivity|constructor]. Qed.

Lemma maintains_paired_append feat label :
  label <> (-1)%Z -> maintains paired (append_pair feat label).
Proof.
  intros Hl s [Hlen Hall]. split; simpl.
  - rewrite !length_app. simpl. lia.
  - apply Forall_app. split; [exact Hall|]. constructor; [exact Hl|constructor].
Qed.

Lemma maintains_paired_update outputs : maintains paired (update outputs).
Proof.
  induction outputs as [|out rest IH]; simpl; auto with reid.
  apply maintains_bind; [auto with reid|intro x].
  apply maintains_bind; [|intros _; exact IH].
  destruct (int x =? -1)%Z eqn:E; [auto with reid|].
  apply maintains_paired_append. now apply Z.eqb_neq.
Qed.

Section WithLibraries.

Variable tar_at_far : list (list float) -> list Z -> list float -> result (list float).

Lemma maintains_paired_set_eval_result key value :
  maintains paired (set_eval_result key value).
Proof. intros s H. exact H. Qed.

Lemma maintains_paired_store_results tars levels :
  maintains paired (store_results tars levels).
Proof.
  induction levels as [|[f fa] rest IH]; simpl; auto with reid.
  apply maintains_bind; [auto with reid|intro tar].
  apply maintains_bind; [apply maintains_paired_set_eval_result|intros _; exact IH].
Qed.

Lemma maintains_paired_accumulate : maintains paired (accumulate tar_at_far).
Proof.
  unfold accumulate.
  apply maintains_bind; [auto with reid|intros _].
  apply maintains_bind; [auto with reid|intro self].
  destruct (negb _); [auto with reid|].
  destruct (_ <? _)%nat; [auto with reid|].
  apply maintains_bind; [auto with reid|intro tars].
  apply maintains_paired_store_results.
Qed.

Lemma reachable_paired s : reachable tar_at_far s -> paired s.
Proof.
  induction 1 as [levels|s _ IH|s outputs _ IH|s _ IH].
  - apply paired_init.
  - now apply maintains_paired_reset.
  - now apply maintains_paired_update.
  - now apply maintains_paired_accumulate.
Qed.

(** C9: after the construction and after every [reset], [update] and
    [accumulate] call, failed ones included, the embedding list and the
    label list have the same length and no stored label is [-1]; hence the
    assertion at the start of [accumulate] holds. *)
Theorem embedding_and_labels_stay_paired s :
  reachable tar_at_far s ->
  List.length (embedding s) = List.length (id_labels s)
  /\ Forall (fun l => l <> (-1)%Z) (id_labels s)
  /\ accumulate_assertion s = true.
Proof.
  intro H. destruct (reachable_paired s H) as [Hlen Hall].
  repeat split; [exact Hlen|exact Hall|].
  unfold accumulate_assertion. now apply Nat.eqb_eq.
Qed.

End WithLibraries.

End ReIDMetricFacts.

(* ------------------------------------------------------------------ *)
(** ** The mAP engine: integrator *)

Module IntegratorFacts.
Import DetectionMAP DetectionMAPNotions.

Local Open Scope Q_scope.

Lemma of_nat_nonneg n : 0 <= of_nat n.
Proof.
  unfold of_nat. change 0 with (inject_Z 0). rewrite <- Zle_Qle. lia.
Qed.

Lemma of_nat_pos n : (0 < n)%nat -> 0 < of_nat n.
Proof.
  intro H. unfold of_nat. change 0 with (inject_Z 0). rewrite <- Zlt_Qlt. lia.
Qed.

Lemma of_nat_le n m : (n <= m)%nat -> of_nat n <= of_nat m.
Proof.
  intro H. unfold of_nat. rewrite <- Zle_Qle. lia.
Qed.

Lemma of_nat_S n : of_nat (S n) == of_nat n + 1.
Proof.
  unfold of_nat. rewrite Nat2Z.inj_succ. unfold Z.succ.
  rewrite inject_Z_plus. reflexivity.
Qed.

Lemma precision_bounds tp fp : (0 < tp + fp)%nat -> 0 <= precision tp fp <= 1.
Proof.
  intro H. unfold precision. split.
  - apply Qle_shift_div_l; [now apply of_nat_pos|].
    rewrite Qmult_0_l. apply of_nat_nonneg.
  - apply Qle_shift_div_r; [now apply of_nat_pos|].
    rewrite Qmult_1_l. apply of_nat_le. lia.
Qed.

Lemma recall_le gt tp tp' :
  (0 < gt)%nat -> (tp <= tp')%nat -> recall tp gt <= recall tp' gt.
Proof.
  intros Hgt H. unfold recall.
  apply Qle_shift_div_l; [now apply of_nat_pos|].
  setoid_replace (of_nat tp / of_nat gt * of_nat gt) with (of_nat tp).
  - now apply of_nat_le.
  - field. intro E. pose proof (of_nat_pos gt Hgt). lra.
Qed.

Lemma recall_le_1 gt tp : (0 < gt)%nat -> (tp <= gt)%nat -> recall tp gt <= 1.
Proof.
  intros Hgt H. unfold recall.
  apply Qle_shift_div_r; [now apply of_nat_pos|].
  rewrite Qmult_1_l. now apply of_nat_le.
Qed.

Lemma recall_nonneg gt tp : (0 < gt)%nat -> 0 <= recall tp gt.
Proof.
  intro Hgt. unfold recall.
  apply Qle_shift_div_l; [now apply of_nat_pos|].
  rewrite Qmult_0_l. apply of_nat_nonneg.
Qed.

Lemma fmax_bounds a b lo hi :
  lo <= a <= hi -> lo <= b <= hi -> lo <= fmax a b <= hi.
Proof. intros Ha Hb. unfold fmax. destruct (Qle_bool a b); assumption. Qed.

Lemma rising_weaken prev prev' curve :
  prev' <= prev -> rising prev curve -> rising prev' curve.
Proof.
  destruct curve as [|[r p] rest]; simpl; [trivial|].
  intros H (H1 & H2 & H3 & H4).
  split; [lra|]. split; [exact H2|]. split; assumption.
Qed.

Lemma pr_curve_precisions gt ranked :
  forall tp fp, precisions_bounded (pr_curve gt tp fp ranked).
Proof.
  induction ranked as [|[s pos] rest IH]; intros tp fp; simpl; constructor.
  - simpl. apply precision_bounds. destruct pos; lia.
  - apply IH.
Qed.

Lemma pr_curve_rising gt ranked :
  (0 < gt)%nat ->
  forall tp fp,
    (tp + count_tp ranked <= gt)%nat ->
    rising (recall tp gt) (pr_curve gt tp fp ranked).
Proof.
  intro Hgt. unfold count_tp.
  induction ranked as [|[s pos] rest IH]; intros tp fp H; simpl; [trivial|].
  simpl in H.
  assert (Hp : 0 <= precision (if pos then S tp else tp) (if pos then fp else S fp) <= 1)
    by (apply precision_bounds; destruct pos; lia).
  destruct pos; simpl in H.
  - split; [apply recall_le; [assumption|lia]|].
    split; [apply recall_le_1; [assumption|lia]|].
    split; [exact Hp|]. apply IH. lia.
  - split; [apply Qle_refl|].
    split; [apply recall_le_1; [assumption|lia]|].
    split; [exact Hp|]. apply IH. lia.
Qed.

Lemma envelope_rising curve : forall prev, rising prev curve -> rising prev (envelope curve).
Proof.
  induction curve as [|[r p] rest IH]; intros prev H; simpl; [trivial|].
  destruct H as (H1 & H2 & H3 & H4). specialize (IH r H4).
  destruct (envelope rest) as [|[r' q] e]; simpl.
  - tauto.
  - simpl in IH. destruct IH as (I1 & I2 & I3 & I4).
    split; [exact H1|]. split; [exact H2|].
    split; [now apply fmax_bounds|]. tauto.
Qed.

Lemma integrate_bounds curve :
  forall prev, prev <= 1 -> rising prev curve -> 0 <= integrate prev curve <= 1 - prev.
Proof.
  induction curve as [|[r p] rest IH]; intros prev Hprev H; simpl.
  - lra.
  - destruct H as (H1 & H2 & H3 & H4).
    destruct (Qeq_bool r prev) eqn:E.
    + apply Qeq_bool_eq in E. apply IH; [exact Hprev|].
      apply rising_weaken with r; [lra|exact H4].
    + specialize (IH r H2 H4). split; nra.
Qed.

Lemma max_precision_from_bounds r curve :
  precisions_bounded curve -> 0 <= max_precision_from r curve <= 1.
Proof.
  unfold max_precision_from.
  induction 1 as [|pt rest Hpt _ IH]; simpl; [lra|].
  destruct (Qle_bool _ _); [|exact IH].
  now apply fmax_bounds.
Qed.

Lemma sum_bounds (l : list float) :
  Forall (fun x => 0 <= x <= 1) l -> 0 <= sum l <= of_nat (List.length l).
Proof.
  induction 1 as [|x l Hx _ IH]; simpl.
  - split; [apply Qle_refl|apply of_nat_nonneg].
  - rewrite of_nat_S. lra.
Qed.

Lemma eleven_point_bounds curve :
  precisions_bounded curve -> 0 <= eleven_point curve <= 1.
Proof.
  intro H. unfold eleven_point.
  set (vals := map (fun r => max_precision_from r curve) recall_thresholds).
  assert (Hv : Forall (fun x => 0 <= x <= 1) vals).
  { unfold vals. apply Forall_map. apply Forall_forall. intros r _.
    now apply max_precision_from_bounds. }
  apply sum_bounds in Hv.
  assert (Hl : of_nat (List.length vals) == 11).
  { unfold vals. rewrite length_map. reflexivity. }
  rewrite Hl in Hv.
  split.
  - apply Qle_shift_div_l; lra.
  - apply Qle_shift_div_r; lra.
Qed.

Lemma continuous_bounds gt ranked :
  (0 < gt)%nat -> (count_tp ranked <= gt)%nat ->
  0 <= continuous (pr_curve gt 0 0 ranked) <= 1.
Proof.
  intros Hgt H. unfold continuous.
  assert (R : rising 0 (envelope (pr_curve gt 0 0 ranked))).
  { apply envelope_rising.
    apply rising_weaken with (recall 0 gt); [now apply recall_nonneg|].
    now apply pr_curve_rising. }
  apply integrate_bounds in R; lra.
Qed.

Lemma count_tp_insert_desc x l : count_tp (insert_desc x l) = count_tp (x :: l).
Proof.
  unfold count_tp. induction l as [|y r IH]; simpl; [reflexivity|].
  destruct (Qle_bool (fst y) (fst x)); simpl; [reflexivity|].
  simpl in IH. destruct (snd y), (snd x); simpl in *; lia.
Qed.

Lemma count_tp_sort_desc l : count_tp (sort_desc l) = count_tp l.
Proof.
  induction l as [|x l IH]; simpl; [reflexivity|].
  rewrite count_tp_insert_desc. unfold count_tp in *. simpl.
  destruct (snd x); simpl; lia.
Qed.

Lemma average_precision_bounds mode r :
  tp_within_gt r -> 0 <= average_precision mode r <= 1.
Proof.
  intro H. unfold average_precision.
  destruct (gt_count r =? 0)%nat eqn:E; [lra|].
  apply Nat.eqb_neq in E.
  destruct (String.eqb mode "11point").
  - apply eleven_point_bounds, pr_curve_precisions.
  - apply continuous_bounds; [lia|].
    rewrite count_tp_sort_desc. exact H.
Qed.

End IntegratorFacts.

(* ------------------------------------------------------------------ *)
(** ** The mAP engine: matcher and accumulator *)

Module AccumulatorFacts.
Import DetectionMAP DetectionMAPNotions IntegratorFacts.

Lemma length_alter_nth {A} (f : A -> A) i l :
  List.length (alter_nth f i l) = List.length l.
Proof.
  revert i. induction l as [|x r IH]; intros [|i]; simpl; auto.
Qed.

Lemma nth_error_alter_nth {A} (f : A -> A) i l j :
  nth_error (alter_nth f i l) j
  = if (i =? j)%nat then option_map f (nth_error l j) else nth_error l j.
Proof.
  revert i j. induction l as [|x r IH]; intros [|i] [|j]; simpl; auto.
  all: destruct (i =? j)%nat; reflexivity.
Qed.

Lemma class_index_spec n c i :
  class_index n c = Some i -> (i < n)%nat /\ c = Z.of_nat i.
Proof.
  unfold class_index.
  destruct ((0 <=? c)%Z && (c <? Z.of_nat n)%Z) eqn:E; [|discriminate].
  intro H; injection H as <-.
  apply andb_true_iff in E as [E1 E2].
  apply Z.leb_le in E1. apply Z.ltb_lt in E2. lia.
Qed.

Lemma extend_nothing r : extend r [] 0 = r.
Proof.
  destruct r as [sp gt]. unfold extend. simpl.
  now rewrite app_nil_r, Nat.add_0_r.
Qed.

Lemma extend_extend r e1 n1 e2 n2 :
  extend (extend r e1 n1) e2 n2 = extend r (e1 ++ e2) (n1 + n2).
Proof.
  unfold extend. simpl. now rewrite app_assoc, Nat.add_assoc.
Qed.

Lemma store_detections_spec labelled :
  forall recs recs',
    store_detections labelled recs = Ok recs' ->
    List.length recs' = List.length recs
    /\ forall i r, nth_error recs i = Some r ->
         nth_error recs' i = Some (extend r (entries_of (Z.of_nat i) labelled) 0).
Proof.
  induction labelled as [|[c x] rest IH]; intros recs recs' H; simpl in H.
  - injection H as <-. split; [reflexivity|].
    intros i r Hr. unfold entries_of. simpl. now rewrite extend_nothing.
  - destruct (class_index (List.length recs) c) as [k|] eqn:Ek; [|discriminate].
    apply class_index_spec in Ek as [Hk ->].
    apply IH in H as [Hlen Hnth]. rewrite length_alter_nth in Hlen.
    split; [exact Hlen|].
    intros i r Hr.
    specialize (Hnth i). rewrite nth_error_alter_nth, Hr in Hnth.
    unfold entries_of in *. simpl.
    destruct (k =? i)%nat eqn:Eki.
    + apply Nat.eqb_eq in Eki. subst i. rewrite Z.eqb_refl. simpl.
      rewrite (Hnth _ eq_refl).
      f_equal. unfold extend, add_score_pos. simpl. now rewrite <- app_assoc.
    + apply Nat.eqb_neq in Eki.
      assert (E : (Z.of_nat k =? Z.of_nat i)%Z = false) by (apply Z.eqb_neq; lia).
      rewrite E. now apply Hnth.
Qed.

Lemma store_ground_truth_spec ed gts :
  forall recs recs',
    store_ground_truth ed gts recs = Ok recs' ->
    List.length recs' = List.length recs
    /\ forall i r, nth_error recs i = Some r ->
         nth_error recs' i = Some (extend r [] (gt_of ed (Z.of_nat i) gts)).
Proof.
  induction gts as [|g rest IH]; intros recs recs' H; simpl in H.
  - injection H as <-. split; [reflexivity|].
    intros i r Hr. unfold gt_of. simpl. now rewrite extend_nothing.
  - destruct (class_index (List.length recs) (gt_class_id g)) as [k|] eqn:Ek;
      [|discriminate].
    apply class_index_spec in Ek as [Hk Hc].
    apply IH in H as [Hlen Hnth].
    assert (Hlen' : List.length recs' = List.length recs).
    { rewrite Hlen. destruct (counted ed g); [apply length_alter_nth|reflexivity]. }
    split; [exact Hlen'|].
    intros i r Hr. specialize (Hnth i).
    unfold gt_of in *. simpl. rewrite Hc.
    destruct (counted ed g) eqn:Ec.
    + rewrite nth_error_alter_nth, Hr in Hnth.
      destruct (k =? i)%nat eqn:Eki.
      * apply Nat.eqb_eq in Eki. subst i. rewrite Z.eqb_refl. simpl.
        rewrite (Hnth _ eq_refl). f_equal.
        unfold extend, add_gt. simpl. f_equal. lia.
      * apply Nat.eqb_neq in Eki.
        assert (E : (Z.of_nat k =? Z.of_nat i)%Z = false) by (apply Z.eqb_neq; lia).
        rewrite E. simpl. now apply Hnth.
    + rewrite andb_false_r. now apply Hnth.
Qed.

(** Whether the accumulator accepts the class ids depends on the number
    of classes alone. *)
Lemma store_detections_succeeds labelled :
  forall recs1 recs2 r1,
    List.length recs1 = List.length recs2 ->
    store_detections labelled recs1 = Ok r1 ->
    exists r2, store_detections labelled recs2 = Ok r2.
Proof.
  induction labelled as [|[c x] rest IH]; intros recs1 recs2 r1 Hlen H; simpl in *.
  - eauto.
  - rewrite <- Hlen.
    destruct (class_index (List.length recs1) c) as [k|]; [|discriminate].
    eapply IH; [|exact H]. now rewrite !length_alter_nth.
Qed.

Lemma store_ground_truth_succeeds ed gts :
  forall recs1 recs2 r1,
    List.length recs1 = List.length recs2 ->
    store_ground_truth ed gts recs1 = Ok r1 ->
    exists r2, store_ground_truth ed gts recs2 = Ok r2.
Proof.
  induction gts as [|g rest IH]; intros recs1 recs2 r1 Hlen H; simpl in *.
  - eauto.
  - rewrite <- Hlen.
    destruct (class_index (List.length recs1) (gt_class_id g)) as [k|]; [|discriminate].
    eapply IH; [|exact H].
    destruct (counted ed g); [now rewrite !length_alter_nth|exact Hlen].
Qed.

(** *** The matcher gives each ground-truth box at most one true positive *)

Lemma best_match_spec d gts :
  forall i j v,
    best_match d gts i = Some (j, v) ->
    (i <= j)%nat /\ exists g, nth_error gts (j - i) = Some g /\ eligible d g = true.
Proof.
  induction gts as [|g rest IH]; intros i j v H; simpl in H; [discriminate|].
  assert (Later : forall j' v', best_match d rest (S i) = Some (j', v') ->
            (i <= j')%nat /\ exists g', nth_error (g :: rest) (j' - i) = Some g'
                                  /\ eligible d g' = true).
  { intros j' v' H'. apply IH in H' as (Hle & g' & Hn & He).
    split; [lia|]. exists g'. split; [|exact He].
    replace (j' - i)%nat with (S (j' - S i)) by lia. exact Hn. }
  assert (Here : eligible d g = true ->
            (i <= i)%nat /\ exists g', nth_error (g :: rest) (i - i) = Some g'
                                 /\ eligible d g' = true).
  { intro He. split; [lia|]. exists g. rewrite Nat.sub_diag. now split. }
  destruct (eligible d g) eqn:Eg.
  - destruct (best_match d rest (S i)) as [[j' w]|] eqn:Eb.
    + destruct (Qle_bool w _).
      * injection H as <- <-. now apply Here.
      * injection H as <- <-. eapply Later. reflexivity.
    + injection H as <- <-. now apply Here.
  - eapply Later. exact H.
Qed.

Lemma avail_mark_matched ed c gts :
  forall j, (avail ed c (alter_nth mark_matched j gts) <= avail ed c gts)%nat.
Proof.
  unfold avail. induction gts as [|g rest IH]; intros [|j]; simpl; auto.
  - rewrite andb_false_r.
    destruct (_ && negb (matched g)); simpl; lia.
  - specialize (IH j).
    destruct (_ && negb (matched g)); simpl; lia.
Qed.

Lemma avail_mark_eligible ed d gts :
  forall j g,
    nth_error gts j = Some g ->
    eligible d g = true ->
    counted ed g = true ->
    (avail ed (class_id d) (alter_nth mark_matched j gts) + 1
     = avail ed (class_id d) gts)%nat.
Proof.
  unfold avail. induction gts as [|g0 rest IH]; intros [|j] g Hn He Hc; simpl in *;
    try discriminate.
  - injection Hn as ->. unfold eligible in He.
    apply andb_true_iff in He as [He1 He2].
    rewrite He1, Hc, He2. rewrite andb_false_r. simpl. lia.
  - specialize (IH j g Hn He Hc).
    destruct (_ && negb (matched g0)); simpl; lia.
Qed.

Lemma match_detection_avail th ed d gts v gts' :
  match_detection th ed d gts = (v, gts') ->
  (forall c, avail ed c gts' <= avail ed c gts)%nat
  /\ (v = TruePositive ->
      (avail ed (class_id d) gts' + 1 <= avail ed (class_id d) gts)%nat).
Proof.
  unfold match_detection.
  destruct (best_match d gts 0) as [[j w]|] eqn:Eb.
  2:{ intro H; injection H as <- <-. split; [auto|discriminate]. }
  apply best_match_spec in Eb as (_ & g & Hn & He). rewrite Nat.sub_0_r in Hn.
  destruct (Qle_bool th w).
  2:{ intro H; injection H as <- <-. split; [auto|discriminate]. }
  rewrite Hn.
  destruct (is_difficult g && negb ed) eqn:Ed.
  { intro H; injection H as <- <-. split; [auto|discriminate]. }
  intro H; injection H as <- <-. split.
  - intro c. apply avail_mark_matched.
  - intros _.
    assert (Hc : counted ed g = true).
    { unfold counted. destruct ed, (is_difficult g); simpl in *; congruence. }
    rewrite (avail_mark_eligible ed d gts j g Hn He Hc). lia.
Qed.

Lemma count_tp_app l1 l2 : count_tp (l1 ++ l2) = (count_tp l1 + count_tp l2)%nat.
Proof. unfold count_tp. now rewrite filter_app, length_app. Qed.

Lemma matcher_tp_within_avail th ed ds :
  forall gts c,
    (count_tp (entries_of c (matcher th ed ds gts)) <= avail ed c gts)%nat.
Proof.
  induction ds as [|d rest IH]; intros gts c; simpl.
  - unfold entries_of, count_tp. simpl. lia.
  - destruct (match_detection th ed d gts) as [v gts'] eqn:Em.
    apply match_detection_avail in Em as [Hall Htp].
    specialize (IH gts' c). specialize (Hall c).
    destruct v; unfold entries_of in *; simpl.
    + destruct (class_id d =? c)%Z eqn:Ec; simpl.
      * apply Z.eqb_eq in Ec. subst c. specialize (Htp eq_refl).
        unfold count_tp in *. simpl. lia.
      * lia.
    + destruct (class_id d =? c)%Z; simpl; unfold count_tp in *; simpl; lia.
    + lia.
Qed.

Lemma ground_truth_of_unmatched gt_box :
  forall gt_label difficult gts,
    ground_truth_of gt_box gt_label difficult = Ok gts ->
    Forall (fun g => matched g = false) gts.
Proof.
  induction gt_box as [|b rest IH]; intros [|l ls] difficult gts H; simpl in H;
    try discriminate.
  - destruct difficult as [[|]|]; try discriminate; injection H as <-; constructor.
  - destruct difficult as [[|d ds]|]; try discriminate.
    + destruct (ground_truth_of rest ls (Some ds)) as [gs|] eqn:E; [|discriminate].
      simpl in H. injection H as <-. constructor; [reflexivity|]. eapply IH, E.
    + destruct (ground_truth_of rest ls None) as [gs|] eqn:E; [|discriminate].
      simpl in H. injection H as <-. constructor; [reflexivity|]. eapply IH, E.
Qed.

Lemma avail_unmatched ed c gts :
  Forall (fun g => matched g = false) gts -> avail ed c gts = gt_of ed c gts.
Proof.
  unfold avail, gt_of. induction 1 as [|g rest Hg _ IH]; simpl; [reflexivity|].
  rewrite Hg. rewrite andb_true_r.
  destruct (_ && counted ed g); simpl; now rewrite IH.
Qed.

(** *** What one image adds to the records *)

Lemma update_image_spec s im s' :
  update_image s im = Ok s' ->
  s' = set_records s (records s')
  /\ List.length (records s') = List.length (records s)
  /\ forall i r, nth_error (records s) i = Some r ->
       nth_error (records s') i
       = Some (extend r
                 (im_entries (overlap_thresh s) (evaluate_difficult s) (Z.of_nat i) im)
                 (im_gt_count (evaluate_difficult s) (Z.of_nat i) im)).
Proof.
  unfold update_image, update, rbind, im_entries, im_gt_count, im_labelled, im_gts.
  destruct (detections_of _ _ _) as [ds|]; [|discriminate].
  destruct (ground_truth_of _ _ _) as [gts|]; [|discriminate].
  destruct (store_ground_truth _ _ _) as [recs|] eqn:E1; [|discriminate].
  destruct (store_detections _ _) as [recs'|] eqn:E2; [|discriminate].
  intro H; injection H as <-. simpl.
  apply store_ground_truth_spec in E1 as [L1 N1].
  apply store_detections_spec in E2 as [L2 N2].
  split; [reflexivity|]. split; [congruence|].
  intros i r Hr. rewrite (N2 _ _ (N1 _ _ Hr)).
  rewrite extend_extend. simpl. now rewrite Nat.add_0_r.
Qed.

Lemma im_tp_within_gt th ed c im :
  (count_tp (im_entries th ed c im) <= im_gt_count ed c im)%nat.
Proof.
  unfold im_entries, im_gt_count, im_labelled, im_gts.
  destruct (detections_of _ _ _) as [ds|]; [|unfold entries_of, count_tp; simpl; lia].
  destruct (ground_truth_of _ _ _) as [gts|] eqn:Eg.
  - rewrite <- (avail_unmatched ed c gts) by (eapply ground_truth_of_unmatched, Eg).
    apply matcher_tp_within_avail.
  - destruct ds; simpl.
    + unfold entries_of, count_tp. simpl. lia.
    + pose proof (matcher_tp_within_avail th ed (d :: ds) [] c) as H.
      simpl in H. exact H.
Qed.

(** Whether [update] accepts an image depends on the configuration and
    the number of classes, not on what was accumulated. *)
Lemma update_image_succeeds s1 s2 im s1' :
  overlap_thresh s1 = overlap_thresh s2 ->
  evaluate_difficult s1 = evaluate_difficult s2 ->
  List.length (records s1) = List.length (records s2) ->
  update_image s1 im = Ok s1' ->
  exists s2', update_image s2 im = Ok s2'.
Proof.
  intros Hth Hed Hlen. unfold update_image, update, rbind.
  rewrite <- Hth, <- Hed.
  destruct (detections_of _ _ _) as [ds|]; [|discriminate].
  destruct (ground_truth_of _ _ _) as [gts|]; [|discriminate].
  destruct (store_ground_truth _ _ (records s1)) as [recs1|] eqn:E1; [|discriminate].
  destruct (store_ground_truth_succeeds _ _ _ (records s2) _ Hlen E1) as [recs2 E2].
  rewrite E2.
  destruct (store_detections _ recs1) as [recs1'|] eqn:F1; [|discriminate].
  assert (Hlen' : List.length recs1 = List.length recs2).
  { apply store_ground_truth_spec in E1 as [-> _].
    apply store_ground_truth_spec in E2 as [-> _]. exact Hlen. }
  destruct (store_detections_succeeds _ _ recs2 _ Hlen' F1) as [recs2' F2].
  rewrite F2. eauto.
Qed.

(** *** The invariant of the accumulator *)

Lemma well_formed_reset s : well_formed (reset s).
Proof.
  split; simpl.
  - apply repeat_length.
  - intros i r H. apply nth_error_In, repeat_spec in H. subst r.
    unfold tp_within_gt, count_tp. simpl. lia.
Qed.

Lemma well_formed_update s im s' :
  well_formed s -> update_image s im = Ok s' -> well_formed s'.
Proof.
  intros [Hlen Hok] H. apply update_image_spec in H as (Hs & Hl & Hn).
  split.
  - rewrite Hl, Hlen, Hs. reflexivity.
  - intros i r' Hr'.
    destruct (nth_error (records s) i) as [r|] eqn:Er.
    + rewrite (Hn _ _ Er) in Hr'. injection Hr' as <-.
      specialize (Hok _ _ Er). unfold tp_within_gt, extend in *. simpl.
      rewrite count_tp_app.
      pose proof (im_tp_within_gt (overlap_thresh s) (evaluate_difficult s)
                    (Z.of_nat i) im). lia.
    + apply nth_error_None in Er.
      assert (i < List.length (records s'))%nat
        by (apply nth_error_Some; congruence). lia.
Qed.

Lemma well_formed_accumulate s : well_formed s -> well_formed (accumulate s).
Proof.
  intros [Hlen Hok].
  destruct (DetectionMAPConfig.accumulate_unfold s) as (m & -> & _).
  split; simpl; assumption.
Qed.

Lemma reachable_well_formed s : reachable s -> well_formed s.
Proof.
  induction 1 as [n th mt bn ed|s _ IH|s im s' _ IH Hu|s _ IH].
  - apply well_formed_reset.
  - apply well_formed_reset.
  - eapply well_formed_update; eassumption.
  - now apply well_formed_accumulate.
Qed.

(** *** The mean over the classes that have ground truth *)

Lemma mean_step_has_ground_truth mode acc r :
  mean_step mode acc r
  = if has_ground_truth r
    then ((fst acc + average_precision mode r)%Q, S (snd acc))
    else acc.
Proof.
  unfold mean_step, has_ground_truth. destruct (gt_count r); reflexivity.
Qed.

Lemma fold_mean_step mode recs :
  forall acc,
    (fst (fold_left (mean_step mode) recs acc)
     == fst acc + sum (map (average_precision mode) (filter has_ground_truth recs)))%Q
    /\ snd (fold_left (mean_step mode) recs acc)
       = (snd acc + List.length (map (average_precision mode)
                                   (filter has_ground_truth recs)))%nat.
Proof.
  induction recs as [|r rest IH]; intros acc.
  - simpl. split; [ring|lia].
  - cbn [fold_left filter]. rewrite mean_step_has_ground_truth.
    destruct (has_ground_truth r).
    + destruct (IH ((fst acc + average_precision mode r)%Q, S (snd acc))) as [H1 H2].
      cbn [fst snd map sum fold_right List.length] in *.
      split.
      * etransitivity; [exact H1|]. unfold sum. ring.
      * etransitivity; [exact H2|]. lia.
    + apply IH.
Qed.

Lemma filter_combine_map mode recs :
  map fst (filter (fun ar => has_ground_truth (snd ar))
             (combine (map (average_precision mode) recs) recs))
  = map (average_precision mode) (filter has_ground_truth recs).
Proof.
  induction recs as [|r rest IH]; simpl; [reflexivity|].
  destruct (has_ground_truth r); simpl; now rewrite IH.
Qed.

Lemma mean_of_fold mode recs acc :
  fst acc = 0%Q -> snd acc = O ->
  (mean_of (fold_left (mean_step mode) recs acc)
   == mean (map (average_precision mode) (filter has_ground_truth recs)))%Q.
Proof.
  intros Ht Hv. destruct (fold_mean_step mode recs acc) as [H1 H2].
  rewrite Ht in H1. rewrite Hv in H2. simpl in H2.
  unfold mean, mean_of. rewrite H2.
  destruct (List.length _ =? 0)%nat eqn:El; [reflexivity|].
  apply Nat.eqb_neq in El.
  rewrite H1. field.
  apply Nat.neq_0_lt_0, of_nat_pos in El. lra.
Qed.

(** C2: after any sequence of [reset], [update] and [accumulate] calls,
    [accumulate] yields one average precision per class id, each in
    [[0, 1]], and the mAP is the unweighted arithmetic mean of the average
    precisions of exactly the classes whose ground-truth count is at
    least one ([0] when there is no such class). *)
Theorem ap_in_unit_interval_and_mAP_is_mean (s : t) :
  reachable s ->
  exists sc,
    computed (accumulate s) = Some sc
    /\ get_map (accumulate s) = Some (mean_ap sc)
    /\ List.length (ap_per_class sc) = class_num s
    /\ (forall c r, nth_error (records s) c = Some r ->
          nth_error (ap_per_class sc) c = Some (average_precision (map_type s) r))
    /\ Forall (fun ap => 0 <= ap <= 1)%Q (ap_per_class sc)
    /\ (mean_ap sc
        == mean (map fst (filter (fun ar => (0 <? gt_count (snd ar))%nat)
                            (combine (ap_per_class sc) (records s)))))%Q.
Proof.
  intro Hr. apply reachable_well_formed in Hr as [Hlen Hok].
  destruct (DetectionMAPConfig.accumulate_unfold s) as (m & E & Hm).
  eexists. rewrite E. unfold get_map. simpl.
  split; [reflexivity|]. split; [reflexivity|].
  cbn [ap_per_class mean_ap].
  split; [now rewrite length_map|].
  split; [intros c r Hc; now apply map_nth_error|].
  split.
  - apply Forall_map. apply Forall_forall. intros r Hin.
    apply In_nth_error in Hin as [i Hi].
    apply average_precision_bounds. eapply Hok, Hi.
  - change (fun ar : float * PerClassRecord => (0 <? gt_count (snd ar))%nat)
      with (fun ar : float * PerClassRecord => has_ground_truth (snd ar)).
    rewrite filter_combine_map.
    subst m. apply mean_of_fold; reflexivity.
Qed.

(** *** A pass over a dataset *)

Lemma update_all_spec imgs :
  forall s s',
    update_all s imgs = Ok s' ->
    s' = set_records s (records s')
    /\ List.length (records s') = List.length (records s)
    /\ forall i r, nth_error (records s) i = Some r ->
         nth_error (records s') i
         = Some (extend r
                   (flat_map (im_entries (overlap_thresh s) (evaluate_difficult s)
                                (Z.of_nat i)) imgs)
                   (list_sum (map (im_gt_count (evaluate_difficult s) (Z.of_nat i)) imgs))).
Proof.
  induction imgs as [|im rest IH]; intros s s' H; simpl in H.
  - injection H as <-. split; [now destruct s|]. split; [reflexivity|].
    intros i r Hr. simpl. now rewrite extend_nothing.
  - unfold rbind in H.
    destruct (update_image s im) as [s1|] eqn:E1; [|discriminate].
    apply update_image_spec in E1 as (Hs1 & L1 & N1).
    apply IH in H as (Hs' & L' & N').
    assert (Hth : overlap_thresh s1 = overlap_thresh s) by now rewrite Hs1.
    assert (Hed : evaluate_difficult s1 = evaluate_difficult s) by now rewrite Hs1.
    split; [rewrite Hs', Hs1; reflexivity|]. split; [congruence|].
    intros i r Hr. rewrite (N' _ _ (N1 _ _ Hr)).
    rewrite extend_extend, Hth, Hed. reflexivity.
Qed.

Lemma update_all_succeeds imgs :
  forall s1 s2 s1',
    overlap_thresh s1 = overlap_thresh s2 ->
    evaluate_difficult s1 = evaluate_difficult s2 ->
    List.length (records s1) = List.length (records s2) ->
    update_all s1 imgs = Ok s1' ->
    exists s2', update_all s2 imgs = Ok s2'.
Proof.
  induction imgs as [|im rest IH]; intros s1 s2 s1' Hth Hed Hlen H; simpl in *.
  - eauto.
  - unfold rbind in *.
    destruct (update_image s1 im) as [t1|] eqn:E1; [|discriminate].
    destruct (update_image_succeeds s1 s2 im t1 Hth Hed Hlen E1) as [t2 E2].
    rewrite E2.
    apply update_image_spec in E1 as (Ht1 & L1 & _).
    apply update_image_spec in E2 as (Ht2 & L2 & _).
    eapply IH; [| | |exact H].
    + rewrite Ht1, Ht2. exact Hth.
    + rewrite Ht1, Ht2. exact Hed.
    + congruence.
Qed.

Lemma update_all_app d1 d2 s :
  update_all s (d1 ++ d2) = rbind (update_all s d1) (fun s' => update_all s' d2).
Proof.
  revert s. induction d1 as [|im rest IH]; intro s; simpl; [reflexivity|].
  unfold rbind at 1 3. destruct (update_image s im); [apply IH|reflexivity].
Qed.

(** A pass accepts a dataset when it accepts each of its images. *)
Lemma update_all_accepts imgs :
  forall s,
    (exists s', update_all s imgs = Ok s')
    <-> Forall (fun im => exists s1, update_image s im = Ok s1) imgs.
Proof.
  induction imgs as [|im rest IH]; intro s; simpl.
  - split; [constructor|eauto].
  - unfold rbind. split.
    + intros [s' H].
      destruct (update_image s im) as [s1|] eqn:E1; [|discriminate].
      constructor; [eauto|].
      pose proof (update_image_spec _ _ _ E1) as (Hs1 & L1 & _).
      assert (Hrest : exists t, update_all s rest = Ok t).
      { eapply update_all_succeeds; [| | |exact H]; try congruence;
          rewrite Hs1; reflexivity. }
      now apply IH.
    + intro H. inversion H as [|? ? [s1 E1] Hrest]; subst.
      rewrite E1. apply IH in Hrest as [t Ht].
      pose proof (update_image_spec _ _ _ E1) as (Hs1 & L1 & _).
      eapply update_all_succeeds; [| | |exact Ht]; try congruence;
        rewrite Hs1; reflexivity.
Qed.

Lemma nth_error_merge_records l1 :
  forall l2 i,
    nth_error (merge_records l1 l2) i
    = match nth_error l1 i, nth_error l2 i with
      | Some a, Some b => Some (merge_record a b)
      | _, _ => None
      end.
Proof.
  induction l1 as [|a r1 IH]; intros [|b r2] [|i]; simpl; auto.
  - destruct (nth_error r1 i); reflexivity.
Qed.

Lemma records_reset_lookup s i r :
  nth_error (records (reset s)) i = Some r ->
  r = empty_record /\ (i < class_num s)%nat.
Proof.
  simpl. intro H. split.
  - apply nth_error_In, repeat_spec in H. exact H.
  - assert (Hi : (i < List.length (repeat empty_record (class_num s)))%nat)
      by (apply nth_error_Some; congruence).
    now rewrite repeat_length in Hi.
Qed.

(** The records of a pass that starts from [reset]. *)
Lemma pass_records s0 imgs s :
  update_all (reset s0) imgs = Ok s ->
  s = set_records (reset s0) (records s)
  /\ List.length (records s) = class_num s0
  /\ forall i, (i < class_num s0)%nat ->
       nth_error (records s) i
       = Some (extend empty_record
                 (flat_map (im_entries (overlap_thresh s0) (evaluate_difficult s0)
                              (Z.of_nat i)) imgs)
                 (list_sum (map (im_gt_count (evaluate_difficult s0) (Z.of_nat i)) imgs))).
Proof.
  intro H. apply update_all_spec in H as (Hs & L & N).
  split; [exact Hs|]. split; [rewrite L; simpl; apply repeat_length|].
  intros i Hi. apply N. simpl. now apply nth_error_repeat.
Qed.

(** *** Sorting by score *)

Ltac order_facts :=
  repeat match goal with
         | H : Qle_bool _ _ = true |- _ => apply Qle_bool_iff in H
         | H : Qle_bool ?a ?b = false |- _ =>
             assert (b < a)%Q
               by (let Hle := fresh in
                   apply Qnot_le_lt; intro Hle; apply Qle_bool_iff in Hle; congruence);
             clear H
         end.

Lemma same_ranking_refl l : same_ranking l l.
Proof.
  induction l as [|x l IH]; constructor; [split; reflexivity|exact IH].
Qed.

Lemma same_ranking_trans l1 l2 l3 :
  same_ranking l1 l2 -> same_ranking l2 l3 -> same_ranking l1 l3.
Proof.
  intro H. revert l3. induction H as [|a b l1 l2 [Hs Hv] _ IH]; intros l3 H3.
  - inversion H3. constructor.
  - inversion H3 as [|? c ? l3' [Hs' Hv'] H3']; subst. constructor.
    + split; [now rewrite Hs|congruence].
    + now apply IH.
Qed.

(** Inserting an entry into rankings that agree. *)
Lemma insert_desc_same x l l' :
  same_ranking l l' -> same_ranking (insert_desc x l) (insert_desc x l').
Proof.
  induction 1 as [|a b l l' [Hs Hv] H IH]; simpl.
  - apply same_ranking_refl.
  - assert (E : Qle_bool (fst a) (fst x) = Qle_bool (fst b) (fst x)).
    { destruct (Qle_bool (fst a) (fst x)) eqn:E1, (Qle_bool (fst b) (fst x)) eqn:E2;
        try reflexivity; order_facts; exfalso; lra. }
    rewrite <- E. destruct (Qle_bool (fst a) (fst x)).
    + constructor; [split; reflexivity|]. constructor; [split; assumption|exact H].
    + constructor; [split; assumption|exact IH].
Qed.

(** Two insertions in either order: the rankings agree unless the two
    entries tie with different verdicts. *)
Lemma insert_desc_swap x y l :
  ((fst x == fst y)%Q -> snd x = snd y) ->
  same_ranking (insert_desc x (insert_desc y l)) (insert_desc y (insert_desc x l)).
Proof.
  intro Hxy.
  assert (Tie : forall rest,
             (fst x <= fst y)%Q -> (fst y <= fst x)%Q ->
             same_ranking (x :: y :: rest) (y :: x :: rest)).
  { intros rest H1 H2.
    assert (E : (fst x == fst y)%Q) by lra.
    constructor; [split; [exact E|exact (Hxy E)]|].
    constructor; [split; [now symmetry|symmetry; exact (Hxy E)]|].
    apply same_ranking_refl. }
  induction l as [|z r IH]; simpl.
  - destruct (Qle_bool (fst y) (fst x)) eqn:E1, (Qle_bool (fst x) (fst y)) eqn:E2;
      order_facts; try apply same_ranking_refl;
      [now apply Tie|exfalso; lra].
  - destruct (Qle_bool (fst z) (fst y)) eqn:E1, (Qle_bool (fst z) (fst x)) eqn:E2;
      simpl; rewrite ?E1, ?E2;
      destruct (Qle_bool (fst y) (fst x)) eqn:E3, (Qle_bool (fst x) (fst y)) eqn:E4;
      order_facts;
      try apply same_ranking_refl;
      try (now apply Tie);
      try (constructor; [split; reflexivity|exact IH]);
      exfalso; lra.
Qed.

Lemma ties_agree_perm l l' :
  Permutation l l' -> ties_agree l -> ties_agree l'.
Proof.
  induction 1 as [|x l l' Hp IH|x y l|l l' l'' _ IH1 _ IH2]; simpl.
  - trivial.
  - intros [Hx Hl]. split; [|auto]. eapply Permutation_Forall; eassumption.
  - intros [Hy [Hx Hl]]. inversion Hy as [|? ? Hyx Hyl]; subst.
    repeat split; auto.
    constructor; [|assumption]. intro E. symmetry. apply Hyx. now symmetry.
  - auto.
Qed.

Lemma sort_desc_perm l l' :
  Permutation l l' -> ties_agree l -> same_ranking (sort_desc l) (sort_desc l').
Proof.
  induction 1 as [|x l l' Hp IH|x y l|l l' l'' Hp1 IH1 _ IH2]; simpl.
  - intros _. constructor.
  - intros [_ Hl]. apply insert_desc_same. now apply IH.
  - intros [Hy _]. inversion Hy as [|? ? Hyx _]; subst.
    apply insert_desc_swap. exact Hyx.
  - intro Hl. eapply same_ranking_trans; [now apply IH1|].
    apply IH2. eapply ties_agree_perm; eassumption.
Qed.

(** The curve reads the verdicts of a ranking, not its scores. *)
Lemma pr_curve_same gt l l' :
  same_ranking l l' -> forall tp fp, pr_curve gt tp fp l = pr_curve gt tp fp l'.
Proof.
  induction 1 as [|[sa va] [sb vb] l l' [_ Hv] _ IH]; intros tp fp; simpl.
  - reflexivity.
  - simpl in Hv. subst vb. now rewrite IH.
Qed.

Lemma average_precision_perm mode r r' :
  Permutation (score_pos r) (score_pos r') ->
  gt_count r = gt_count r' ->
  (gt_count r <> 0%nat -> ties_agree (score_pos r)) ->
  average_precision mode r = average_precision mode r'.
Proof.
  intros Hp Hg Hd. unfold average_precision. rewrite <- Hg.
  destruct (Nat.eqb_spec (gt_count r) 0) as [|Hn]; [reflexivity|].
  now rewrite (pr_curve_same _ _ _ (sort_desc_perm _ _ Hp (Hd Hn))).
Qed.

(** Records that agree, class by class, on the ground-truth count and on
    the average precision get the same score. *)
Lemma accumulate_agree mode l1 l2 :
  Forall2 (fun a b => gt_count a = gt_count b
                      /\ average_precision mode a = average_precision mode b) l1 l2 ->
  map (average_precision mode) l1 = map (average_precision mode) l2
  /\ forall acc, fold_left (mean_step mode) l1 acc = fold_left (mean_step mode) l2 acc.
Proof.
  induction 1 as [|a b l1 l2 [Hg Ha] _ [IHm IHf]]; simpl.
  - split; reflexivity.
  - split; [now rewrite Ha, IHm|].
    intro acc. unfold mean_step at 2 4. rewrite Hg, Ha. apply IHf.
Qed.

Lemma Forall2_pointwise {A B} (P : A -> B -> Prop) l1 :
  forall l2,
    List.length l1 = List.length l2 ->
    (forall i a b, nth_error l1 i = Some a -> nth_error l2 i = Some b -> P a b) ->
    Forall2 P l1 l2.
Proof.
  induction l1 as [|a r1 IH]; intros [|b r2] Hlen H; simpl in Hlen; try discriminate.
  - constructor.
  - constructor.
    + apply (H 0%nat); reflexivity.
    + apply IH; [lia|]. intros i a' b' Ha Hb. apply (H (S i)); assumption.
Qed.

(** *** Merging two passes *)

Lemma computed_accumulate s :
  computed (accumulate s)
  = Some {| ap_per_class := map (average_precision (map_type s)) (records s);
            mean_ap := mean_of (fold_left (mean_step (map_type s)) (records s) (0%Q, O)) |}.
Proof. reflexivity. Qed.

Lemma merge_is_pass s0 d1 d2 s1 s2 :
  update_all (reset s0) d1 = Ok s1 ->
  update_all (reset s0) d2 = Ok s2 ->
  update_all (reset s0) (d1 ++ d2) = Ok (merge s1 s2).
Proof.
  intros H1 H2. rewrite update_all_app, H1. simpl.
  pose proof (pass_records _ _ _ H1) as (Hs1 & L1 & N1).
  pose proof (pass_records _ _ _ H2) as (Hs2 & L2 & N2).
  assert (Hth : overlap_thresh (reset s0) = overlap_thresh s1) by now rewrite Hs1.
  assert (Hed : evaluate_difficult (reset s0) = evaluate_difficult s1) by now rewrite Hs1.
  assert (Hlen : List.length (records (reset s0)) = List.length (records s1))
    by (rewrite L1; simpl; apply repeat_length).
  destruct (update_all_succeeds d2 (reset s0) s1 s2 Hth Hed Hlen H2) as [s12 H12].
  rewrite H12. f_equal.
  apply update_all_spec in H12 as (Hs12 & L12 & N12).
  assert (Hrec : records s12 = merge_records (records s1) (records s2)).
  { apply nth_error_ext. intro i. rewrite nth_error_merge_records.
    destruct (Nat.lt_ge_cases i (class_num s0)) as [Hi|Hi].
    - rewrite (N12 _ _ (N1 i Hi)), (N1 i Hi), (N2 i Hi).
      rewrite <- Hth, <- Hed. reflexivity.
    - assert (E1 : nth_error (records s1) i = None) by (apply nth_error_None; lia).
      rewrite E1. apply nth_error_None. lia. }
  rewrite Hs12, Hrec. unfold merge, set_records. rewrite Hs1. reflexivity.
Qed.

(** C4 (amended): the records of the two halves of a dataset, merged
    (per-class lists concatenated, ground-truth counts summed), are
    exactly the accumulator of one pass over the first half followed by
    the second, so the average precisions and the mAP are the same; a
    pass over the images in any other order succeeds too, and yields the
    same scores whenever, in every class that has ground truth, no true
    positive has the score of a false positive. *)
Theorem merge_of_halves_is_single_pass s0 d1 d2 s1 s2 :
  update_all (reset s0) d1 = Ok s1 ->
  update_all (reset s0) d2 = Ok s2 ->
  update_all (reset s0) (d1 ++ d2) = Ok (merge s1 s2)
  /\ forall d',
       Permutation (d1 ++ d2) d' ->
       exists s',
         update_all (reset s0) d' = Ok s'
         /\ ((forall r, In r (records s') ->
                        gt_count r <> 0%nat -> ties_agree (score_pos r)) ->
             computed (accumulate s') = computed (accumulate (merge s1 s2))).
Proof.
  intros H1 H2. pose proof (merge_is_pass _ _ _ _ _ H1 H2) as H12.
  split; [exact H12|].
  intros d' Hperm.
  assert (Hex : exists s', update_all (reset s0) d' = Ok s').
  { apply update_all_accepts. eapply Permutation_Forall; [exact Hperm|].
    apply update_all_accepts. eauto. }
  destruct Hex as [s' H']. exists s'. split; [exact H'|].
  intro Hdistinct.
  pose proof (pass_records _ _ _ H12) as (Hs12 & L12 & N12).
  pose proof (pass_records _ _ _ H') as (Hs' & L' & N').
  rewrite !computed_accumulate.
  assert (Hmode : map_type s' = map_type (merge s1 s2))
    by (rewrite Hs', Hs12; reflexivity).
  rewrite Hmode.
  destruct (accumulate_agree (map_type (merge s1 s2)) (records s') (records (merge s1 s2)))
    as [Hm Hf].
  { apply Forall2_pointwise; [congruence|].
    intros i a b Ha Hb.
    assert (Hi : (i < class_num s0)%nat)
      by (rewrite <- L'; apply nth_error_Some; congruence).
    assert (Hd : gt_count a <> 0%nat -> ties_agree (score_pos a))
      by (eapply Hdistinct, nth_error_In, Ha).
    rewrite (N' i Hi) in Ha. rewrite (N12 i Hi) in Hb.
    injection Ha as <-. injection Hb as <-.
    assert (Hg : list_sum (map (im_gt_count (evaluate_difficult s0) (Z.of_nat i)) d')
                 = list_sum (map (im_gt_count (evaluate_difficult s0) (Z.of_nat i))
                               (d1 ++ d2))).
    { apply Permutation_list_sum, Permutation_map. now symmetry. }
    split.
    - simpl. exact Hg.
    - apply average_precision_perm; [|simpl; exact Hg|exact Hd].
      simpl. apply Permutation_flat_map. now symmetry. }
  now rewrite Hm, Hf.
Qed.

End AccumulatorFacts.

(* ------------------------------------------------------------------ *)
(** ** The properties on the sample data *)

Module Scenarios.
Import Examples DetectionMAPNotions.

Local Open Scope Q_scope.

(** The metric after one image and [accumulate]: the score is 1, and
    [get_results] returns [None]. *)
Example get_results_after_one_image :
  let s := self_after (VOCMetric.accumulate
             (self_after (VOCMetric.update keep_all (inputs_one (Some [[0%Z]]))
                            outputs_one (voc false)))) in
  DetectionMAP.get_map (VOCMetric.detection_map s) = Some (11 # 11)
  /\ outcome (VOCMetric.get_results s) = Ok None.
Proof. vm_compute. split; reflexivity. Qed.

(** The line [log] writes after that image. *)
Example log_after_one_image :
  logged (VOCMetric.log
            (self_after (VOCMetric.accumulate
               (self_after (VOCMetric.update keep_all (inputs_one (Some [[0%Z]]))
                              outputs_one (voc false))))))
  = ["mAP(0.50, 11point) = 100.00%"%string].
Proof. vm_compute. reflexivity. Qed.

(** The scenarios of the specification's section 8 on the model. *)
Example perfect_detector :
  scores "11point" [im_hit] = Some {| DetectionMAP.ap_per_class := [11 # 11];
                                      DetectionMAP.mean_ap := 11 # 11 |}
  /\ scores "integral" [im_hit] = Some {| DetectionMAP.ap_per_class := [1];
                                          DetectionMAP.mean_ap := 1 |}.
Proof. split; vm_compute; reflexivity. Qed.

Example all_false_positives :
  scores "11point" [im_three_misses]
  = Some {| DetectionMAP.ap_per_class := [0]; DetectionMAP.mean_ap := 0 |}
  /\ DetectionMAP.records (after [im_three_misses])
     = [{| DetectionMAP.score_pos := [(9 # 10, false); (1 # 2, false); (1 # 10, false)];
           DetectionMAP.gt_count := 0 |}].
Proof. split; vm_compute; reflexivity. Qed.

Example threshold_boundary_counts_as_match :
  DetectionMAP.records (after [im_half_overlap])
  = [{| DetectionMAP.score_pos := [(1, true)]; DetectionMAP.gt_count := 1 |}].
Proof. vm_compute. reflexivity. Qed.

Example difficult_instance_excluded :
  DetectionMAP.records (after [im_difficult_hit])
  = [{| DetectionMAP.score_pos := []; DetectionMAP.gt_count := 0 |}].
Proof. vm_compute. reflexivity. Qed.

Lemma reachable_after_hit_and_miss :
  DetectionMAP.reachable (after [im_hit; im_miss]).
Proof.
  apply (DetectionMAP.reach_update (s := after [im_hit]) im_miss).
  - apply (DetectionMAP.reach_update (s := DetectionMAP.reset engine) im_hit).
    + apply DetectionMAP.reach_reset. apply DetectionMAP.reach_init.
    + vm_compute. reflexivity.
  - vm_compute. reflexivity.
Defined.

(** The scores of the accumulator that has seen [im_hit] and [im_miss]. *)
Lemma scores_after_hit_and_miss :
  exists sc,
    DetectionMAP.computed (DetectionMAP.accumulate (after [im_hit; im_miss])) = Some sc
    /\ DetectionMAP.get_map (DetectionMAP.accumulate (after [im_hit; im_miss]))
       = Some (DetectionMAP.mean_ap sc)
    /\ List.length (DetectionMAP.ap_per_class sc)
       = DetectionMAP.class_num (after [im_hit; im_miss])
    /\ (forall c r,
          nth_error (DetectionMAP.records (after [im_hit; im_miss])) c = Some r ->
          nth_error (DetectionMAP.ap_per_class sc) c
          = Some (DetectionMAP.average_precision
                    (DetectionMAP.map_type (after [im_hit; im_miss])) r))
    /\ Forall (fun ap => 0 <= ap <= 1) (DetectionMAP.ap_per_class sc)
    /\ DetectionMAP.mean_ap sc
       == DetectionMAPNotions.mean
            (map fst (filter (fun ar => (0 <? DetectionMAP.gt_count (snd ar))%nat)
                        (combine (DetectionMAP.ap_per_class sc)
                           (DetectionMAP.records (after [im_hit; im_miss]))))).
Proof.
  exact (AccumulatorFacts.ap_in_unit_interval_and_mAP_is_mean
           (after [im_hit; im_miss]) reachable_after_hit_and_miss).
Defined.

(** The halves [[im_hit]] and [[im_low_miss; im_low_miss]], merged, and
    a single pass that meets the images in another order: the true
    positive has the score 0.5, the two false positives tie at 0.25, and
    the scores are the same. *)
Lemma merge_of_hit_and_low_misses :
  DetectionMAP.update_all (DetectionMAP.reset engine)
    ([im_hit] ++ [im_low_miss; im_low_miss])
  = Ok (DetectionMAP.merge (after [im_hit]) (after [im_low_miss; im_low_miss]))
  /\ DetectionMAP.computed
       (DetectionMAP.accumulate (after [im_low_miss; im_hit; im_low_miss]))
     = DetectionMAP.computed
         (DetectionMAP.accumulate
            (DetectionMAP.merge (after [im_hit]) (after [im_low_miss; im_low_miss]))).
Proof.
  destruct (AccumulatorFacts.merge_of_halves_is_single_pass engine
              [im_hit] [im_low_miss; im_low_miss]
              (after [im_hit]) (after [im_low_miss; im_low_miss]))
    as [Hmerge Hany]; [vm_compute; reflexivity|vm_compute; reflexivity|].
  split; [exact Hmerge|].
  destruct (Hany [im_low_miss; im_hit; im_low_miss]) as (s' & Hs' & Hsame).
  { apply (perm_swap im_low_miss im_hit [im_low_miss]). }
  assert (E : after [im_low_miss; im_hit; im_low_miss] = s').
  { unfold after. rewrite Hs'. reflexivity. }
  rewrite E. apply Hsame. rewrite <- E.
  intros r Hin _. vm_compute in Hin.
  destruct Hin as [<-|[]]. simpl.
  repeat split; repeat constructor; simpl; try reflexivity;
    intro C; vm_compute in C; discriminate C.
Defined.

(** C4 as stated fails: [im_hit] and [im_miss] carry predictions of equal
    score, one a true positive and one a false positive.  The merged
    halves rank the true positive first and get the mAP 1; a single pass
    that meets [im_miss] first ranks the false positive first and gets
    the mAP 1/2. *)
Lemma insertion_order_changes_ap_on_equal_scores :
  exists s1 s2 s' m m',
    DetectionMAP.update_all (DetectionMAP.reset engine) [im_hit] = Ok s1
    /\ DetectionMAP.update_all (DetectionMAP.reset engine) [im_miss] = Ok s2
    /\ Permutation ([im_hit] ++ [im_miss]) [im_miss; im_hit]
    /\ DetectionMAP.update_all (DetectionMAP.reset engine) [im_miss; im_hit] = Ok s'
    /\ DetectionMAP.get_map (DetectionMAP.accumulate (DetectionMAP.merge s1 s2)) = Some m
    /\ DetectionMAP.get_map (DetectionMAP.accumulate s') = Some m'
    /\ m == 1 /\ m' == 1 # 2 /\ ~ m == m'.
Proof.
  exists (after [im_hit]), (after [im_miss]), (after [im_miss; im_hit]).
  eexists. eexists.
  split; [vm_compute; reflexivity|].
  split; [vm_compute; reflexivity|].
  split; [apply perm_swap|].
  split; [vm_compute; reflexivity|].
  split; [vm_compute; reflexivity|].
  split; [vm_compute; reflexivity|].
  split; [reflexivity|]. split; [reflexivity|].
  intro H. vm_compute in H. discriminate.
Qed.

(** C4 as stated fails, on the sample data above. *)
Lemma score_depends_on_insertion_order : ~ score_independent_of_insertion_order.
Proof.
  intro claim.
  destruct insertion_order_changes_ap_on_equal_scores
    as (s1 & s2 & s' & m & m' & H1 & H2 & Hp & H' & Hm & Hm' & _ & _ & Hne).
  apply Hne. exact (claim engine _ _ _ _ _ _ _ _ H1 H2 Hp H' Hm Hm').
Qed.

(** An early return: outputs of shape (1, 3) and inputs without any
    entry. *)
Lemma early_return_on_outputs_none :
  shape (columns_from 2 (VOCMetric.bbox outputs_none)) = (1, 1)%nat
  /\ VOCMetric.update keep_all no_inputs outputs_none (voc false)
     = {| outcome := Ok tt; self_after := voc false; logged := [] |}.
Proof.
  split; [reflexivity|].
  apply (VOCMetricFacts.update_returns_early_on_shape_1_1 keep_all (voc false)
           no_inputs outputs_none).
  reflexivity.
Defined.

(** Two inputs that differ in their difficulty flags only, one of them
    without flags. *)
Lemma difficult_flags_ignored_on_inputs_one :
  VOCMetric.evaluate_difficult (voc true) = true
  /\ VOCMetric.update keep_all (inputs_one (Some [[1%Z]])) outputs_one (voc true)
     = VOCMetric.update keep_all (inputs_one None) outputs_one (voc true).
Proof.
  split; [reflexivity|].
  apply (VOCMetricFacts.update_ignores_difficult_when_evaluated keep_all (voc true)
           (inputs_one (Some [[1%Z]])) (inputs_one None) outputs_one);
    reflexivity.
Defined.

(** A metric built with the defaults, then driven through every kind of
    call. *)
Lemma configuration_fixed_on_sample_calls :
  VOCMetric.init any_file no_categories "annotations.txt" 20 (1 # 2) "11point"
    false false
  = Ok (self_after (VOCMetric.reset
          {| VOCMetric.anno_file := "annotations.txt";
             VOCMetric.clsid2catid := [];
             VOCMetric.catid2name := [];
             VOCMetric.overlap_thresh := 1 # 2;
             VOCMetric.map_type := "11point";
             VOCMetric.evaluate_difficult := false;
             VOCMetric.detection_map :=
               DetectionMAP.init 20 (1 # 2) "11point" false false |}))
  /\ VOCMetric.map_type
       (VOCMetric.run keep_all
          [VOCMetric.Update (inputs_one (Some [[0%Z]])) outputs_one;
           VOCMetric.Accumulate; VOCMetric.Log; VOCMetric.GetResults;
           VOCMetric.Update no_inputs outputs_one; VOCMetric.Reset]
          (self_after (VOCMetric.reset
             {| VOCMetric.anno_file := "annotations.txt";
                VOCMetric.clsid2catid := [];
                VOCMetric.catid2name := [];
                VOCMetric.overlap_thresh := 1 # 2;
                VOCMetric.map_type := "11point";
                VOCMetric.evaluate_difficult := false;
                VOCMetric.detection_map :=
                  DetectionMAP.init 20 (1 # 2) "11point" false false |})))
     = "11point"%string.
Proof.
  split; [reflexivity|].
  refine (proj1 (proj2 (proj1
    (VOCMetricFacts.configuration_fixed_at_construction keep_all any_file
       no_categories "annotations.txt" 20 (1 # 2) "11point" false false _ _ _)))).
  reflexivity.
Defined.

(** A ReID metric after an update that stores one pair, skips a label
    [-1] and fails on an empty row. *)
Lemma reid_paired_after_update :
  let s := self_after (ReIDMetric.update [[1; 2; 7]; [3; 4; -1]; []; [5; 6; 8]]
                         (ReIDMetric.init ReIDMetric.default_far_levels)) in
  List.length (ReIDMetric.embedding s) = List.length (ReIDMetric.id_labels s)
  /\ Forall (fun l => l <> (-1)%Z) (ReIDMetric.id_labels s)
  /\ ReIDMetric.accumulate_assertion s = true.
Proof.
  apply (ReIDMetricFacts.embedding_and_labels_stay_paired no_roc).
  apply ReIDMetric.reach_update. apply ReIDMetric.reach_init.
Defined.

End Scenarios.

(* ================================================================== *)
(** * Further properties of the code *)

(** A step that returns, changes the object and logs nothing. *)
Lemma bind_step {S A B} (m : M S A) (k : A -> M S B) self a self' :
  m self = {| outcome := Ok a; self_after := self'; logged := [] |} ->
  bind m k self = k a self'.
Proof.
  intro H. unfold bind. rewrite H. simpl. destruct (k a self'); reflexivity.
Qed.

(** The outcome and the object after a step that returns. *)
Lemma bind_outcome {S A B} (m : M S A) (k : A -> M S B) self a :
  outcome (m self) = Ok a ->
  outcome (bind m k self) = outcome (k a (self_after (m self))).
Proof.
  intro H. unfold bind. rewrite H. reflexivity.
Qed.

Lemma bind_self_after {S A B} (m : M S A) (k : A -> M S B) self a :
  outcome (m self) = Ok a ->
  self_after (bind m k self) = self_after (k a (self_after (m self))).
Proof.
  intro H. unfold bind. rewrite H. reflexivity.
Qed.

Lemma bind_logged {S A B} (m : M S A) (k : A -> M S B) self a :
  outcome (m self) = Ok a ->
  logged (bind m k self) = logged (m self) ++ logged (k a (self_after (m self))).
Proof.
  intro H. unfold bind. rewrite H. reflexivity.
Qed.

(** A step that raises. *)
Lemma bind_raised {S A B} (m : M S A) (k : A -> M S B) self e self' l :
  m self = {| outcome := Raise e; self_after := self'; logged := l |} ->
  bind m k self = {| outcome := Raise e; self_after := self'; logged := l |}.
Proof.
  intro H. unfold bind. rewrite H. reflexivity.
Qed.

(* ------------------------------------------------------------------ *)
(** ** Doubles *)

Module DoubleFacts.
Import Double.
Local Open Scope Q_scope.

(** The doubles of 0.1 and 0.9; a tie, to the even significand; the
    smallest double and the tie below it; the first value that is
    infinite. *)
Example round_samples :
  round (1 # 10) = Finite (3602879701896397 # 36028797018963968)
  /\ round (9 # 10) = Finite (8106479329266893 # 9007199254740992)
  /\ round (inject_Z (2 ^ 53 + 1)) = Finite (inject_Z (2 ^ 53))
  /\ round (inject_Z (2 ^ 53 + 3)) = Finite (inject_Z (2 ^ 53 + 4))
  /\ round (2 ^ (-1074)) = Finite (Qred (2 ^ (-1074)))
  /\ round (2 ^ (-1075)) = Finite 0
  /\ round (inject_Z (2 ^ 1024 - 2 ^ 970)) = Infinite false
  /\ round (inject_Z (2 ^ 1024 - 2 ^ 970 - 1))
     = Finite (inject_Z (2 ^ 1024 - 2 ^ 971)).
Proof. vm_compute. repeat split. Qed.

(** Rounding to an integer moves a number by at most a half. *)
Lemma round_half_even_error q :
  Qabs (inject_Z (round_half_even q) - q) <= 1 # 2.
Proof.
  unfold round_half_even.
  pose proof (Qfloor_le q) as L. pose proof (Qlt_floor q) as U.
  rewrite inject_Z_plus in U. change (inject_Z 1) with 1 in U.
  apply Qabs_Qle_condition.
  destruct (Qcompare_spec (q - inject_Z (Qfloor q)) (1 # 2)) as [E|E|E].
  - destruct (Z.even (Qfloor q));
      [|rewrite inject_Z_plus; change (inject_Z 1) with 1]; split; lra.
  - split; lra.
  - rewrite inject_Z_plus. change (inject_Z 1) with 1. split; lra.
Qed.

Lemma round_half_even_exact q z :
  q == inject_Z z -> round_half_even q = z.
Proof.
  intro E. unfold round_half_even.
  assert (F : Qfloor q = z) by (rewrite E; apply Qfloor_Z).
  rewrite F.
  destruct (Qcompare_spec (q - inject_Z z) (1 # 2)) as [H|H|H]; [lra|reflexivity|lra].
Qed.

Lemma round_half_even_nonneg q : 0 <= q -> (0 <= round_half_even q)%Z.
Proof.
  intro H. unfold round_half_even.
  assert (F : (0 <= Qfloor q)%Z).
  { change 0%Z with (Qfloor 0). apply Qfloor_resp_le. exact H. }
  destruct (Qcompare _ _); [destruct (Z.even _)| |]; lia.
Qed.

Lemma pow2_pos e : 0 < 2 ^ e.
Proof. apply Qpower_0_lt. reflexivity. Qed.

(** The binade of a positive number starts below it. *)
Lemma binade_le q : 0 < q -> 2 ^ binade q <= q.
Proof.
  intro Hq. unfold binade.
  destruct (Qle_bool (2 ^ (Z.log2 (Qnum q) - Z.log2 (Z.pos (Qden q)))) q) eqn:E;
    [now apply Qle_bool_iff|].
  clear E. destruct q as [n d]. cbn [Qnum Qden].
  assert (Hn : (0 < n)%Z).
  { unfold Qlt in Hq. simpl in Hq. lia. }
  pose proof (Z.log2_spec n Hn) as [Ln _].
  pose proof (Z.log2_spec (Z.pos d) (Pos2Z.is_pos d)) as [_ Ud].
  pose proof (Z.log2_nonneg n) as Nn.
  pose proof (Z.log2_nonneg (Z.pos d)) as Nd.
  set (ln := Z.log2 n) in *. set (ld := Z.log2 (Z.pos d)) in *.
  assert (A : 2 ^ (ln - ld - 1) * inject_Z (Z.pos d) <= inject_Z n).
  { replace (ln - ld - 1)%Z with (ln - Z.succ ld)%Z by lia.
    rewrite Qpower_minus by (intro C; discriminate C).
    change 2 with (inject_Z 2).
    rewrite <- !Zpower_Qpower by lia.
    rewrite Zle_Qle in Ln. rewrite Zlt_Qlt in Ud.
    assert (P : 0 < inject_Z (2 ^ Z.succ ld)).
    { rewrite Zpower_Qpower by lia. apply pow2_pos. }
    assert (P0 : 0 <= inject_Z (2 ^ ln)).
    { rewrite Zpower_Qpower by lia. apply Qlt_le_weak, pow2_pos. }
    apply Qle_trans with (inject_Z (2 ^ ln)); [|exact Ln].
    set (a := inject_Z (2 ^ ln)) in *. set (b := inject_Z (2 ^ Z.succ ld)) in *.
    set (c := inject_Z (Z.pos d)) in *.
    assert (I : 0 < / b) by now apply Qinv_lt_0_compat.
    assert (J : c * / b <= 1).
    { apply Qle_shift_div_r; [exact P|]. lra. }
    unfold Qdiv. nra. }
  assert (D : 0 < inject_Z (Z.pos d)) by reflexivity.
  setoid_replace (n # d) with (inject_Z n / inject_Z (Z.pos d)) by apply Qmake_Qdiv.
  apply Qle_shift_div_l; assumption.
Qed.

(** ... and ends above it: the quotient of a number by the last place of
    its binade has at most 53 bits. *)
Lemma binade_lt q : 0 < q -> q < 2 ^ (binade q + 1).
Proof.
  intro Hq. unfold binade.
  destruct (Qle_bool (2 ^ (Z.log2 (Qnum q) - Z.log2 (Z.pos (Qden q)))) q) eqn:E.
  - clear E. destruct q as [n d]. cbn [Qnum Qden].
    assert (Hn : (0 < n)%Z).
    { unfold Qlt in Hq. simpl in Hq. lia. }
    pose proof (Z.log2_spec n Hn) as [_ Un].
    pose proof (Z.log2_spec (Z.pos d) (Pos2Z.is_pos d)) as [Ld _].
    pose proof (Z.log2_nonneg n) as Nn.
    pose proof (Z.log2_nonneg (Z.pos d)) as Nd.
    set (ln := Z.log2 n) in *. set (ld := Z.log2 (Z.pos d)) in *.
    assert (A : inject_Z n < 2 ^ (ln - ld + 1) * inject_Z (Z.pos d)).
    { replace (ln - ld + 1)%Z with (Z.succ ln - ld)%Z by lia.
      rewrite Qpower_minus by (intro C; discriminate C).
      change 2 with (inject_Z 2).
      rewrite <- !Zpower_Qpower by lia.
      rewrite Zlt_Qlt in Un. rewrite Zle_Qle in Ld.
      assert (P : 0 < inject_Z (2 ^ ld)).
      { rewrite Zpower_Qpower by lia. apply pow2_pos. }
      apply Qlt_le_trans with (inject_Z (2 ^ Z.succ ln)); [exact Un|].
      set (a := inject_Z (2 ^ Z.succ ln)) in *. set (b := inject_Z (2 ^ ld)) in *.
      set (c := inject_Z (Z.pos d)) in *.
      assert (A0 : 0 <= a).
      { unfold a. rewrite Zpower_Qpower by lia. apply Qlt_le_weak, pow2_pos. }
      assert (J : 1 <= c / b).
      { apply Qle_shift_div_l; [exact P|]. lra. }
      unfold Qdiv in *. 
      setoid_replace (a * / b * c) with (a * (c * / b)) by ring.
      nra. }
    assert (D : 0 < inject_Z (Z.pos d)) by reflexivity.
    setoid_replace (n # d) with (inject_Z n / inject_Z (Z.pos d)) by apply Qmake_Qdiv.
    apply Qlt_shift_div_r; assumption.
  - replace (Z.log2 (Qnum q) - Z.log2 (Z.pos (Qden q)) - 1 + 1)%Z
      with (Z.log2 (Qnum q) - Z.log2 (Z.pos (Qden q)))%Z by lia.
    apply Qnot_le_lt. intro C. apply Qle_bool_iff in C. congruence.
Qed.
Lemma ulp_exponent_bound q :
  ~ q == 0 -> 2 ^ ulp_exponent q <= Qabs q * 2 ^ (-52) + 2 ^ (-1074).
Proof.
  intro Hq. unfold ulp_exponent.
  assert (Hpos : 0 < Qabs q).
  { destruct (Qlt_le_dec 0 (Qabs q)) as [H|H]; [exact H|].
    exfalso. apply Hq. pose proof (Qabs_nonneg q).
    apply Qabs_Qle_condition in H. lra. }
  pose proof (binade_le _ Hpos) as B.
  pose proof (pow2_pos (-1074)) as P1. pose proof (pow2_pos (-52)) as P2.
  destruct (Z.max_spec (binade (Qabs q) - 52) (-1074)) as [[_ ->]|[_ ->]].
  - assert (0 <= Qabs q * 2 ^ (-52)) by (apply Qmult_le_0_compat; lra). lra.
  - unfold Z.sub. rewrite Qpower_plus by (intro C; discriminate C).
    change (- (52))%Z with (-52)%Z.
    assert (2 ^ binade (Qabs q) * 2 ^ (-52) <= Qabs q * 2 ^ (-52))
      by (apply Qmult_le_compat_r; lra).
    lra.
Qed.

Lemma rounded_error_ulp q :
  Qabs (rounded q - q) <= 2 ^ ulp_exponent q * (1 # 2).
Proof.
  unfold rounded. rewrite Qred_correct.
  set (e := ulp_exponent q).
  pose proof (pow2_pos e) as P.
  pose proof (round_half_even_error (q / 2 ^ e)) as H.
  set (n := inject_Z (round_half_even (q / 2 ^ e))) in *.
  assert (E : n * 2 ^ e - q == (n - q / 2 ^ e) * 2 ^ e).
  { field. lra. }
  rewrite E, Qabs_Qmult, (Qabs_pos (2 ^ e)) by lra.
  rewrite (Qmult_comm (2 ^ e)). apply Qmult_le_compat_r; lra.
Qed.

Lemma rounded_zero q : q == 0 -> rounded q == 0.
Proof.
  intro H. unfold rounded. rewrite Qred_correct.
  rewrite (round_half_even_exact _ 0); [ring|].
  generalize (2 ^ ulp_exponent q). intro c. rewrite H.
  change (inject_Z 0) with 0. unfold Qdiv. ring.
Qed.

(** The error of a rounding: half a unit in the last place, that is at
    most the fraction [2 ^ -53] of the value, or [2 ^ -1075] near zero. *)
Lemma rounded_error q :
  Qabs (rounded q - q) <= Qabs q * 2 ^ (-53) + 2 ^ (-1075).
Proof.
  destruct (Qeq_dec q 0) as [Z|NZ].
  - rewrite (rounded_zero _ Z), Z. vm_compute. discriminate.
  - pose proof (rounded_error_ulp q) as H.
    pose proof (ulp_exponent_bound q NZ) as B.
    pose proof (Qabs_nonneg q) as A.
    change (2 ^ (-52)) with (1 # 4503599627370496) in B.
    change (2 ^ (-53)) with (1 # 9007199254740992).
    assert (C : 2 ^ (-1075) == 2 ^ (-1074) * (1 # 2)) by reflexivity.
    rewrite C. generalize dependent (2 ^ (-1074)). intros c B. lra.
Qed.

Lemma rounded_nonneg q : 0 <= q -> 0 <= rounded q.
Proof.
  intro H. unfold rounded. rewrite Qred_correct.
  pose proof (pow2_pos (ulp_exponent q)) as P.
  apply Qmult_le_0_compat; [|lra].
  change 0 with (inject_Z 0). rewrite <- Zle_Qle.
  apply round_half_even_nonneg. apply Qle_shift_div_l; lra.
Qed.

(** No rounding where the value is a multiple of [2 ^ j] and [j] is at
    least the exponent of the last place. *)
Lemma rounded_exact q z j :
  q == inject_Z z * 2 ^ j -> (ulp_exponent q <= j)%Z -> rounded q == q.
Proof.
  intros E H. unfold rounded. rewrite Qred_correct.
  set (e := ulp_exponent q) in *.
  pose proof (pow2_pos e) as P.
  rewrite (round_half_even_exact _ (z * 2 ^ (j - e))).
  - rewrite inject_Z_mult, Zpower_Qpower by lia.
    change (inject_Z 2) with 2.
    rewrite Qpower_minus by (intro C; discriminate C).
    rewrite E. field. lra.
  - rewrite inject_Z_mult, Zpower_Qpower by lia.
    change (inject_Z 2) with 2.
    rewrite Qpower_minus by (intro C; discriminate C).
    rewrite E. field. lra.
Qed.

Lemma ulp_exponent_le q j :
  0 < Qabs q -> Qabs q < 2 ^ (j + 53) -> (-1074 <= j)%Z -> (ulp_exponent q <= j)%Z.
Proof.
  intros Hpos H Hj. unfold ulp_exponent.
  pose proof (binade_le _ Hpos) as B.
  assert (L : 2 ^ binade (Qabs q) < 2 ^ (j + 53)) by lra.
  apply Qpower_lt_compat_l_inv in L; [lia|reflexivity].
Qed.

End DoubleFacts.

(* ------------------------------------------------------------------ *)
(** ** [make_divisible] *)

Module MakeDivisibleFacts.
Import Double DoubleFacts MobileNetV3.
Local Open Scope Q_scope.

(** [x / 2] as a product, for [lra]. *)
Ltac halves := unfold Qdiv in *; change (/ 2) with (1 # 2) in *.

Lemma int_within_one (x : Q) : x - 1 < inject_Z (int x) /\ inject_Z (int x) < x + 1.
Proof.
  destruct x as [n d]. unfold int. simpl.
  pose proof (Z.quot_rem' n (Zpos d)) as E.
  assert (Hd : (Zpos d <> 0)%Z) by lia.
  pose proof (Z.rem_bound_abs n (Zpos d) Hd) as B.
  unfold Qlt, Qminus, Qplus, Qopp, inject_Z. simpl.
  split; nia.
Qed.

Lemma int_le_nonneg (x : Q) : 0 <= x -> inject_Z (int x) <= x.
Proof.
  destruct x as [n d]. unfold int, Qle, inject_Z. simpl. intro H.
  rewrite Z.mul_1_r in *.
  assert (Hn : (0 <= n)%Z) by lia.
  rewrite Z.quot_div_nonneg by lia.
  pose proof (Z.mul_div_le n (Zpos d)). lia.
Qed.

Lemma round_down_bounds (y d : Z) :
  (0 < d)%Z -> (y - d < y / d * d <= y)%Z.
Proof.
  intro H. pose proof (Z.div_mod y d) as E. pose proof (Z.mod_pos_bound y d H). lia.
Qed.

Lemma py_max_cases (a b : Z) : (a <= py_max a b /\ b <= py_max a b)%Z
                              /\ (py_max a b = a \/ py_max a b = b).
Proof.
  unfold py_max. destruct (a <? b)%Z eqn:E.
  - apply Z.ltb_lt in E. lia.
  - apply Z.ltb_ge in E. lia.
Qed.

(** The steps of [make_divisible] that return. *)
Lemma make_divisible_steps (v : Q) (d : Z) (mv : option Z) (r : Z) :
  make_divisible v d mv = Some r ->
  exists vf half s,
    round v = Finite vf
    /\ round (inject_Z d / 2) = Finite half
    /\ add vf half = Finite s
    /\ d <> 0%Z
    /\ let new_v := py_max (match mv with Some m => m | None => d end)
                      (int s / d * d)%Z in
       r = if lt_int new_v (mul nine_tenths vf) then (new_v + d)%Z else new_v.
Proof.
  unfold make_divisible.
  destruct (round v) as [vf|]; [|discriminate].
  destruct (round (inject_Z d / 2)) as [half|]; [|discriminate].
  destruct (add vf half) as [s|] eqn:E; [|discriminate].
  destruct (Z.eqb_spec d 0) as [|Hd]; [discriminate|].
  intro H. injection H as <-. exists vf, half, s.
  split; [reflexivity|]. split; [reflexivity|]. split; [exact E|].
  split; [exact Hd|reflexivity].
Qed.

(** X1: with a positive divisor, the result is never below [min_value]
    (the divisor itself when [min_value] is [None]), and it is a multiple
    of the divisor whenever [min_value] is one. *)
Theorem make_divisible_multiple_above_min (v : Q) (d : Z) (mv : option Z) (r : Z) :
  (0 < d)%Z ->
  make_divisible v d mv = Some r ->
  let m := match mv with Some m => m | None => d end in
  (m <= r)%Z /\ ((d | m)%Z -> (d | r)%Z).
Proof.
  intros Hd H m.
  apply make_divisible_steps in H as (vf & half & s & _ & _ & _ & _ & H).
  cbv zeta in H. fold m in H. subst r.
  set (q := (int s / d * d)%Z).
  destruct (py_max_cases m q) as [[M1 M2] M3].
  assert (Dq : (d | q)%Z) by (exists (int s / d)%Z; reflexivity).
  destruct (lt_int _ _).
  - split; [lia|]. intro Dm. apply Z.divide_add_r; [|apply Z.divide_refl].
    destruct M3 as [-> | ->]; assumption.
  - split; [lia|]. intro Dm. destruct M3 as [-> | ->]; assumption.
Qed.

(** A finite result of [round] is the rounded value, below [2 ^ 1024]. *)
Lemma round_finite q x :
  round q = Finite x -> x = rounded q /\ Qabs x < 2 ^ 1024.
Proof.
  unfold round.
  destruct (Qle_bool (2 ^ 1024) (Qabs (rounded q))) eqn:E; [discriminate|].
  intro H. injection H as <-. split; [reflexivity|].
  apply Qnot_le_lt. intro C. apply Qle_bool_iff in C. congruence.
Qed.

Lemma round_small q :
  Qabs (rounded q) < 2 ^ 1024 -> round q = Finite (rounded q).
Proof.
  intro H. unfold round.
  destruct (Qle_bool (2 ^ 1024) (Qabs (rounded q))) eqn:E; [|reflexivity].
  apply Qle_bool_iff in E. lra.
Qed.

(** The error of a rounding, as two inequalities. *)
Lemma rounded_between q :
  0 <= q ->
  0 <= rounded q
  /\ q - (q * (1 # 9007199254740992) + 2 ^ (-1075)) <= rounded q
  /\ rounded q <= q + (q * (1 # 9007199254740992) + 2 ^ (-1075)).
Proof.
  intro H. split; [now apply rounded_nonneg|].
  pose proof (rounded_error q) as E.
  rewrite (Qabs_pos q) in E by exact H.
  change (2 ^ (-53)) with (1 # 9007199254740992) in E.
  apply Qabs_Qle_condition in E. split; lra.
Qed.

Lemma tiny_lt_1 : 0 < 2 ^ (-1075) /\ 2 ^ (-1075) < (1 # 100).
Proof. split; reflexivity. Qed.

Lemma huge_gt_1 : 1 < 2 ^ 1024.
Proof. reflexivity. Qed.

(** The product [0.9 * v] of a finite non-negative double is finite. *)
Lemma mul_nine_tenths vf :
  0 <= vf -> vf < 2 ^ 1024 ->
  mul nine_tenths vf = Finite (rounded (nine_tenths * vf)).
Proof.
  intros H0 H1. unfold mul. apply round_small.
  assert (P : 0 <= nine_tenths * vf).
  { apply Qmult_le_0_compat; [discriminate|exact H0]. }
  destruct (rounded_between _ P) as (N & _ & U).
  rewrite Qabs_pos by exact N.
  destruct tiny_lt_1 as [T0 T1]. pose proof huge_gt_1 as G.
  unfold nine_tenths in *.
  generalize dependent (2 ^ (-1075)). generalize dependent (2 ^ 1024).
  intros P1 H1 G c U T0 T1. lra.
Qed.

(** X2: with a positive divisor and a non-negative [v], every float
    operation of [make_divisible] is finite, and the result [r] is not
    below the float [0.9 * v] that the code compares with; it is above
    [s - divisor], where [s] is the float sum [v + divisor / 2], and with
    the default [min_value] at most [s + divisor].  In exact terms [r] is
    at least 90% of [v] up to the rounding of two float operations:
    [0.9 * v * (1 - 2 ^ -52) - 2 ^ -1074 <= r]. *)
Theorem make_divisible_near_v (v : Q) (d : Z) (mv : option Z) (r : Z) :
  (0 < d)%Z ->
  0 <= v ->
  make_divisible v d mv = Some r ->
  exists vf half s t,
    round v = Finite vf
    /\ round (inject_Z d / 2) = Finite half
    /\ add vf half = Finite s
    /\ mul nine_tenths vf = Finite t
    /\ t <= inject_Z r
    /\ s - inject_Z d < inject_Z r
    /\ (mv = None -> inject_Z r <= s + inject_Z d)
    /\ (9 # 10) * v * (1 - 2 ^ (-52)) - 2 ^ (-1074) <= inject_Z r.
Proof.
  intros Hd Hv H.
  apply make_divisible_steps in H as (vf & half & s & Ev & Eh & Es & _ & Hr).
  cbv zeta in Hr.
  set (m := match mv with Some m => m | None => d end) in *.
  assert (Dpos : 1 <= inject_Z d).
  { change 1 with (inject_Z 1). rewrite <- Zle_Qle. lia. }
  (* the three roundings *)
  destruct (round_finite _ _ Ev) as [Vr Vb].
  destruct (rounded_between v Hv) as (V0 & V1 & V2). rewrite <- Vr in V0, V1, V2.
  assert (Hh : 0 <= inject_Z d / 2) by (halves; lra).
  destruct (round_finite _ _ Eh) as [Hr' _].
  destruct (rounded_between _ Hh) as (H0 & H1 & H2). rewrite <- Hr' in H0, H1, H2.
  assert (Hs : 0 <= vf + half) by lra.
  unfold add in Es. destruct (round_finite _ _ Es) as [Sr _].
  destruct (rounded_between _ Hs) as (S0 & S1 & S2). rewrite <- Sr in S0, S1, S2.
  rewrite Qabs_pos in Vb by exact V0.
  pose proof (mul_nine_tenths vf V0 Vb) as Et.
  assert (Ht : 0 <= nine_tenths * vf).
  { apply Qmult_le_0_compat; [discriminate|exact V0]. }
  destruct (rounded_between _ Ht) as (T0 & T1 & T2).
  set (t := rounded (nine_tenths * vf)) in *.
  exists vf, half, s, t.
  split; [exact Ev|]. split; [exact Eh|]. split; [unfold add; exact Es|].
  split; [exact Et|].
  (* the integer part *)
  destruct (int_within_one s) as [I1 _].
  pose proof (int_le_nonneg s S0) as I2.
  destruct (round_down_bounds (int s) d Hd) as [R1 R2].
  set (q := (int s / d * d)%Z) in *.
  assert (Q1 : inject_Z (int s) - inject_Z d + 1 <= inject_Z q).
  { assert (R : (int s + - d + 1 <= q)%Z) by lia.
    rewrite Zle_Qle in R. rewrite !inject_Z_plus, inject_Z_opp in R. exact R. }
  assert (Q2 : inject_Z q <= inject_Z (int s)) by (rewrite <- Zle_Qle; exact R2).
  destruct (py_max_cases m q) as [[M1 M2] M3].
  assert (Qm : inject_Z q <= inject_Z (py_max m q)) by (rewrite <- Zle_Qle; exact M2).
  assert (Up : mv = None -> inject_Z (py_max m q) <= s
                            \/ inject_Z (py_max m q) = inject_Z d).
  { intros ->. destruct M3 as [-> | ->]; [right; reflexivity|left; lra]. }
  (* the comparison of the two doubles *)
  destruct tiny_lt_1 as [C0 C1].
  assert (C2 : 2 ^ (-1074) == 2 * 2 ^ (-1075)) by reflexivity.
  change (2 ^ (-52)) with (1 # 4503599627370496).
  rewrite C2. clear C2.
  unfold nine_tenths in *. halves.
  generalize dependent (2 ^ (-1075)). intros c V1 V2 H1 H2 S1 S2 T1 T2 C0 C1.
  assert (ST : t <= s) by lra.
  rewrite Et in Hr. cbn [lt_int] in Hr.
  destruct (Qlt_bool (inject_Z (py_max m q)) t) eqn:T; subst r.
  - unfold Qlt_bool in T. apply negb_true_iff in T.
    assert (Lt : inject_Z (py_max m q) < t).
    { apply Qnot_le_lt. intro C. apply Qle_bool_iff in C. congruence. }
    rewrite inject_Z_plus.
    split; [lra|]. split; [lra|]. split; [intros _; lra|]. lra.
  - unfold Qlt_bool in T. apply negb_false_iff in T. apply Qle_bool_iff in T.
    split; [exact T|]. split; [lra|].
    split; [|lra].
    intros Hn. destruct (Up Hn) as [U | U]; [lra|]. rewrite U. lra.
Qed.

(** X3: a positive multiple [k * divisor] of the divisor that is not
    below [min_value] is returned as it is, as long as the float sum
    [v + divisor / 2] is exact ([2 * k * divisor + divisor < 2 ^ 53]); in
    that range the function is idempotent on its own results. *)
Theorem make_divisible_fixes_multiples (k d : Z) (mv : option Z) :
  (0 < d)%Z ->
  (0 < k)%Z ->
  (match mv with Some m => m | None => d end <= k * d)%Z ->
  (2 * (k * d) + d < 2 ^ 53)%Z ->
  make_divisible (inject_Z (k * d)) d mv = Some (k * d)%Z.
Proof.
  intros Hd Hk Hm Hsmall.
  set (m := match mv with Some m => m | None => d end) in *.
  assert (Dpos : 1 <= inject_Z d).
  { change 1 with (inject_Z 1). rewrite <- Zle_Qle. lia. }
  assert (Kpos : inject_Z d <= inject_Z (k * d)).
  { rewrite <- Zle_Qle. nia. }
  assert (Small : 2 * inject_Z (k * d) + inject_Z d < 2 ^ 53).
  { rewrite Zlt_Qlt in Hsmall.
    rewrite inject_Z_plus, (inject_Z_mult 2 (k * d)) in Hsmall.
    change (inject_Z (2 ^ 53)) with (2 ^ 53) in Hsmall. exact Hsmall. }
  change (2 ^ 53) with 9007199254740992 in Small.
  pose proof huge_gt_1 as G.
  (* v as a float *)
  assert (Ev : rounded (inject_Z (k * d)) == inject_Z (k * d)).
  { apply (rounded_exact _ (k * d) 0); [change (2 ^ 0) with 1; ring|].
    apply ulp_exponent_le; [| |lia].
    - rewrite Qabs_pos by lra. lra.
    - rewrite Qabs_pos by lra. change (2 ^ (0 + 53)) with 9007199254740992. lra. }
  (* divisor / 2 *)
  assert (Eh : rounded (inject_Z d / 2) == inject_Z d / 2).
  { apply (rounded_exact _ d (-1)); [change (2 ^ (-1)) with (1 # 2); halves; reflexivity|].
    apply ulp_exponent_le; [| |lia].
    - rewrite Qabs_pos by (halves; lra). halves. lra.
    - rewrite Qabs_pos by (halves; lra).
      change (2 ^ (-1 + 53)) with 4503599627370496. halves. lra. }
  set (vf := rounded (inject_Z (k * d))) in *.
  set (half := rounded (inject_Z d / 2)) in *.
  (* the sum *)
  assert (Es : rounded (vf + half) == inject_Z (k * d) + inject_Z d / 2).
  { rewrite <- Ev, <- Eh at 1.
    apply (rounded_exact _ (2 * (k * d) + d) (-1)).
    - rewrite Ev, Eh, inject_Z_plus, (inject_Z_mult 2 (k * d)).
      change (2 ^ (-1)) with (1 # 2). change (inject_Z 2) with 2. halves. ring.
    - apply ulp_exponent_le; [| |lia].
      + rewrite Ev, Eh. rewrite Qabs_pos by (halves; lra). halves. lra.
      + rewrite Ev, Eh. rewrite Qabs_pos by (halves; lra).
        change (2 ^ (-1 + 53)) with 4503599627370496. halves. lra. }
  set (s := rounded (vf + half)) in *.
  unfold make_divisible. fold m.
  rewrite (round_small (inject_Z (k * d)))
    by (fold vf; rewrite Ev, Qabs_pos by lra; lra).
  rewrite (round_small (inject_Z d / 2))
    by (fold half; rewrite Eh, Qabs_pos by (halves; lra); halves; lra).
  fold vf half. unfold add.
  rewrite (round_small (vf + half))
    by (fold s; rewrite Es, Qabs_pos by (halves; lra); halves; lra).
  fold s.
  assert (E : (d =? 0)%Z = false) by (apply Z.eqb_neq; lia).
  rewrite E.
  (* the integer part *)
  destruct (int_within_one s) as [I1 _].
  assert (S0 : 0 <= s) by (rewrite Es; halves; lra).
  pose proof (int_le_nonneg s S0) as I2.
  assert (Z1 : (k * d <= int s)%Z).
  { apply Z.lt_pred_le. unfold Z.pred.
    rewrite Zlt_Qlt. rewrite inject_Z_plus.
    change (inject_Z (-1)) with (- (1))%Q. halves. lra. }
  assert (Z2 : (int s < k * d + d)%Z).
  { rewrite Zlt_Qlt. rewrite inject_Z_plus. halves. lra. }
  assert (Hq : (int s / d = k)%Z).
  { symmetry. apply (Z.div_unique_pos (int s) d k (int s - k * d)); lia. }
  rewrite Hq.
  assert (Hmax : py_max m (k * d) = (k * d)%Z).
  { unfold py_max. destruct (m <? k * d)%Z eqn:L; [reflexivity|].
    apply Z.ltb_ge in L. lia. }
  rewrite Hmax.
  (* the 10% test *)
  assert (V0 : 0 <= vf) by (rewrite Ev; lra).
  rewrite (mul_nine_tenths vf V0) by (rewrite Ev; lra).
  assert (Ht : 0 <= nine_tenths * vf).
  { apply Qmult_le_0_compat; [discriminate|exact V0]. }
  destruct (rounded_between _ Ht) as (_ & _ & T2).
  assert (T : Qlt_bool (inject_Z (k * d)) (rounded (nine_tenths * vf)) = false).
  { unfold Qlt_bool. apply negb_false_iff. apply Qle_bool_iff.
    destruct tiny_lt_1 as [C0 C1]. unfold nine_tenths in T2 |- *.
    generalize dependent (2 ^ (-1075)). intros c T2 C0 C1. lra. }
  cbn [lt_int]. rewrite T. reflexivity.
Qed.

End MakeDivisibleFacts.

(* ------------------------------------------------------------------ *)
(** ** [JDEHead.parse_anchor] *)

Module ParseAnchorFacts.
Import JDEHead.

Lemma py_getitem_cases {A} (l : list A) (i : Z) :
  let n := Z.of_nat (List.length l) in
  ((- n <= i < n)%Z /\ exists a, py_getitem l i = Ok a)
  \/ (~ (- n <= i < n)%Z /\ py_getitem l i = Raise IndexError).
Proof.
  intro n. unfold py_getitem, getitem. fold n.
  destruct ((0 <=? i)%Z && (i <? n)%Z) eqn:E1.
  - apply andb_true_iff in E1 as [H1 H2].
    apply Z.leb_le in H1. apply Z.ltb_lt in H2.
    left. split; [lia|].
    destruct (nth_error l (Z.to_nat i)) as [a|] eqn:E; [eauto|].
    apply nth_error_None in E. lia.
  - apply andb_false_iff in E1.
    destruct ((- n <=? i)%Z && (i <? 0)%Z) eqn:E2.
    + apply andb_true_iff in E2 as [H1 H2].
      apply Z.leb_le in H1. apply Z.ltb_lt in H2.
      left. split; [lia|].
      destruct (nth_error l (Z.to_nat (n + i))) as [a|] eqn:E; [eauto|].
      apply nth_error_None in E. lia.
    + right. split; [|reflexivity].
      apply andb_false_iff in E2.
      intros [H1 H2].
      destruct E1 as [E1|E1], E2 as [E2|E2];
        try apply Z.leb_gt in E1; try apply Z.ltb_ge in E1;
        try apply Z.leb_gt in E2; try apply Z.ltb_ge in E2; lia.
Qed.

Lemma select_cases anchor_list mask :
  let n := Z.of_nat (List.length anchor_list) in
  (Forall (fun i => (- n <= i < n)%Z) mask
   /\ exists sel, select anchor_list mask = Ok sel
                  /\ List.length sel = List.length mask)
  \/ (~ Forall (fun i => (- n <= i < n)%Z) mask
      /\ select anchor_list mask = Raise IndexError).
Proof.
  intro n. induction mask as [|i rest IH]; simpl.
  - left. split; [constructor|]. exists []. split; reflexivity.
  - destruct (py_getitem_cases anchor_list i) as [[Hi [a Ea]]|[Hi Ea]];
      fold n in Hi; rewrite Ea; simpl.
    + destruct IH as [[Hr [sel [Es Hl]]]|[Hr Es]]; rewrite Es; simpl.
      * left. split; [now constructor|]. exists (a :: sel). split; simpl; congruence.
      * right. split; [|reflexivity]. intro H. inversion H; subst. tauto.
    + right. split; [|reflexivity]. intro H. inversion H; subst. tauto.
Qed.

Lemma select_all_cases anchor_list anchor_masks :
  let n := Z.of_nat (List.length anchor_list) in
  (Forall (Forall (fun i => (- n <= i < n)%Z)) anchor_masks
   /\ exists selected, select_all anchor_list anchor_masks = Ok selected
                       /\ Forall2 (fun mask sel => select anchor_list mask = Ok sel)
                            anchor_masks selected)
  \/ (~ Forall (Forall (fun i => (- n <= i < n)%Z)) anchor_masks
      /\ select_all anchor_list anchor_masks = Raise IndexError).
Proof.
  intro n. induction anchor_masks as [|mask rest IH]; simpl.
  - left. split; [constructor|]. exists []. split; [reflexivity|constructor].
  - destruct (select_cases anchor_list mask) as [[Hm [sel [Es _]]]|[Hm Es]];
      fold n in Hm; rewrite Es; simpl.
    + destruct IH as [[Hr [selected [Ea F]]]|[Hr Ea]]; rewrite Ea; simpl.
      * left. split; [now constructor|]. exists (sel :: selected).
        split; [reflexivity|now constructor].
      * right. split; [|reflexivity]. intro H. inversion H; subst. tauto.
    + right. split; [|reflexivity]. intro H. inversion H; subst. tauto.
Qed.

Lemma extend_last_on_last a before x a0 :
  extend_last a {| anchors := a0; mask_anchors := before ++ [x] |}
  = {| outcome := Ok tt;
       self_after := {| anchors := a0; mask_anchors := before ++ [x ++ a] |};
       logged := [] |}.
Proof.
  unfold extend_last. cbn [mask_anchors anchors].
  rewrite rev_app_distr. cbn [rev app]. now rewrite rev_involutive.
Qed.

(** The inner loop, on masks that [select] accepts: no assertion fails,
    and the last list of [mask_anchors] grows by the selected anchors. *)
Lemma extend_masks_selected anchor_list masks :
  forall sel before x a0,
    select anchor_list masks = Ok sel ->
    extend_masks anchor_list (Z.of_nat (List.length anchor_list)) masks
      {| anchors := a0; mask_anchors := before ++ [x] |}
    = {| outcome := Ok tt;
         self_after := {| anchors := a0; mask_anchors := before ++ [x ++ List.concat sel] |};
         logged := [] |}.
Proof.
  induction masks as [|mask rest IH]; intros sel before x a0 H; simpl in H.
  - injection H as <-. simpl. now rewrite app_nil_r.
  - destruct (py_getitem_cases anchor_list mask) as [[Hi [a Ea]]|[Hi Ea]];
      rewrite Ea in H; simpl in H; [|discriminate].
    destruct (select anchor_list rest) as [others|] eqn:Es; simpl in H; [|discriminate].
    injection H as <-.
    cbn [extend_masks].
    assert (Hlt : (mask <? Z.of_nat (List.length anchor_list))%Z = true)
      by (apply Z.ltb_lt; lia).
    rewrite Hlt, bind_ret, Ea, bind_lift_ok.
    rewrite (bind_step _ _ _ tt _ (extend_last_on_last a before x a0)).
    rewrite (IH others before (x ++ a) a0 eq_refl).
    simpl. now rewrite <- app_assoc.
Qed.

Lemma fill_mask_anchors_selected anchor_list anchor_masks :
  forall selected acc a0,
    Forall2 (fun mask sel => select anchor_list mask = Ok sel) anchor_masks selected ->
    fill_mask_anchors anchor_list (Z.of_nat (List.length anchor_list)) anchor_masks
      {| anchors := a0; mask_anchors := acc |}
    = {| outcome := Ok tt;
         self_after := {| anchors := a0;
                          mask_anchors := acc ++ map (@List.concat Z) selected |};
         logged := [] |}.
Proof.
  induction anchor_masks as [|masks rest IH]; intros selected acc a0 F;
    inversion F as [|? sel ? selected' Hs F']; subst; simpl.
  - now rewrite app_nil_r.
  - rewrite (bind_step _ _ _ tt {| anchors := a0; mask_anchors := acc ++ [[]] |})
      by reflexivity.
    rewrite (bind_step _ _ _ tt _ (extend_masks_selected anchor_list masks sel acc [] a0 Hs)).
    change ([] ++ List.concat sel) with (List.concat sel).
    rewrite (IH selected' (acc ++ [List.concat sel]) a0 F').
    cbn [map]. now rewrite <- app_assoc.
Qed.

(** What [parse_anchor] does, by whether every mask is an index of
    [anchors] (negative ones counting from the end). *)
Lemma parse_anchor_cases anchor_list anchor_masks (self : t) :
  let n := Z.of_nat (List.length anchor_list) in
  (Forall (Forall (fun i => (- n <= i < n)%Z)) anchor_masks
   /\ exists selected,
        Forall2 (fun mask sel => select anchor_list mask = Ok sel)
          anchor_masks selected
        /\ parse_anchor anchor_list anchor_masks self
           = {| outcome := Ok tt;
                self_after := {| anchors := selected;
                                 mask_anchors := map (@List.concat Z) selected |};
                logged := [] |})
  \/ (~ Forall (Forall (fun i => (- n <= i < n)%Z)) anchor_masks
      /\ parse_anchor anchor_list anchor_masks self
         = {| outcome := Raise IndexError; self_after := self; logged := [] |}).
Proof.
  intro n.
  destruct (select_all_cases anchor_list anchor_masks)
    as [[Hm [selected [Ea F]]]|[Hm Ea]]; fold n in Hm.
  - left. split; [exact Hm|]. exists selected. split; [exact F|].
    unfold parse_anchor. rewrite Ea, bind_lift_ok.
    rewrite (bind_step _ _ _ tt
               {| anchors := selected; mask_anchors := mask_anchors self |})
      by reflexivity.
    rewrite (bind_step _ _ _ tt {| anchors := selected; mask_anchors := [] |})
      by reflexivity.
    rewrite (fill_mask_anchors_selected anchor_list anchor_masks selected [] selected F).
    reflexivity.
  - right. split; [exact Hm|]. unfold parse_anchor. rewrite Ea. reflexivity.
Qed.

(** X4: [parse_anchor] never raises [AssertionError]: a mask that would
    fail [assert mask < anchor_num] has already raised [IndexError] in the
    list comprehension.  [IndexError] is its only exception, raised
    exactly when some mask is not an index of [anchors] (from [-len] to
    [len - 1]); the attributes of the object are then untouched. *)
Theorem parse_anchor_raises_IndexError_only anchor_list anchor_masks (self : t) e :
  outcome (parse_anchor anchor_list anchor_masks self) = Raise e ->
  e = IndexError
  /\ self_after (parse_anchor anchor_list anchor_masks self) = self
  /\ ~ Forall (Forall (fun i => (- Z.of_nat (List.length anchor_list) <= i
                               < Z.of_nat (List.length anchor_list))%Z)) anchor_masks.
Proof.
  intro H.
  destruct (parse_anchor_cases anchor_list anchor_masks self)
    as [[_ [selected [_ E]]]|[Hm E]]; rewrite E in *; simpl in *.
  - discriminate.
  - injection H as <-. repeat split; assumption.
Qed.

(** X5: when every mask is an index of [anchors], [parse_anchor] returns
    with one group per mask list, [self.anchors[k][j]] being
    [anchors[anchor_masks[k][j]]], and [self.mask_anchors[k]] being the
    concatenation of the anchors of group [k]. *)
Theorem parse_anchor_groups anchor_list anchor_masks (self : t) :
  Forall (Forall (fun i => (- Z.of_nat (List.length anchor_list) <= i
                           < Z.of_nat (List.length anchor_list))%Z)) anchor_masks ->
  let c := parse_anchor anchor_list anchor_masks self in
  outcome c = Ok tt
  /\ List.length (anchors (self_after c)) = List.length anchor_masks
  /\ mask_anchors (self_after c) = map (@List.concat Z) (anchors (self_after c))
  /\ forall k mask group j i,
       nth_error anchor_masks k = Some mask ->
       nth_error (anchors (self_after c)) k = Some group ->
       nth_error mask j = Some i ->
       py_getitem anchor_list i = getitem group j.
Proof.
  intros Hm c. subst c.
  destruct (parse_anchor_cases anchor_list anchor_masks self)
    as [[_ [selected [F E]]]|[Hn _]]; [|contradiction].
  rewrite E. cbn [outcome self_after anchors mask_anchors].
  split; [reflexivity|]. split; [symmetry; eapply Forall2_length, F|].
  split; [reflexivity|].
  intros k mask group j i Hk Hg Hj.
  assert (Hs : select anchor_list mask = Ok group).
  { clear E Hm. revert k Hk Hg. induction F as [|m s ms ss Hms _ IH]; intros [|k] Hk Hg;
      simpl in *; try discriminate.
    - congruence.
    - eapply IH; eassumption. }
  clear - Hs Hj. revert group j Hs Hj.
  induction mask as [|i0 rest IH]; intros group j Hs Hj; [destruct j; discriminate|].
  simpl in Hs.
  destruct (py_getitem anchor_list i0) as [a|] eqn:Ea; simpl in Hs; [|discriminate].
  destruct (select anchor_list rest) as [others|] eqn:Eo; simpl in Hs; [|discriminate].
  injection Hs as <-.
  destruct j as [|j]; simpl in Hj.
  - injection Hj as <-. rewrite Ea. reflexivity.
  - unfold getitem. simpl. apply (IH others j eq_refl Hj).
Qed.

End ParseAnchorFacts.

(* ------------------------------------------------------------------ *)
(** ** [COCOMetric] *)

Module COCOMetricFacts.
Import COCOMetric COCOMetricNotions.

Lemma py_get_setitem_same {V} key (value : V) d :
  py_get key (py_setitem key value d) = Some value.
Proof.
  induction d as [|[k v] rest IH]; simpl.
  - now rewrite String.eqb_refl.
  - destruct (String.eqb k key) eqn:E; simpl; rewrite E; [reflexivity|exact IH].
Qed.

Lemma py_get_setitem_other {V} key key' (value : V) d :
  key' <> key -> py_get key' (py_setitem key value d) = py_get key' d.
Proof.
  intro H. induction d as [|[k v] rest IH]; simpl.
  - destruct (String.eqb key key') eqn:E; [|reflexivity].
    apply String.eqb_eq in E. congruence.
  - destruct (String.eqb k key) eqn:E; simpl.
    + apply String.eqb_eq in E. subst k.
      destruct (String.eqb key key') eqn:E'; [|reflexivity].
      apply String.eqb_eq in E'. congruence.
    + destruct (String.eqb k key'); [reflexivity|exact IH].
Qed.

Lemma keys_setitem {V} key (value : V) d (P : string -> Prop) :
  P key -> Forall P (map fst d) -> Forall P (map fst (py_setitem key value d)).
Proof.
  intros Hk. induction d as [|[k v] rest IH]; simpl; intro H.
  - constructor; [exact Hk|constructor].
  - inversion H; subst. destruct (String.eqb k key); simpl; constructor; auto.
Qed.

Section WithLibraries.

Variables item stats : Type.
Variable get_infer_results :
  list (string * ndarray) -> list (Z * Z) -> Z -> InferResults item.
Variable cocoapi_eval :
  list (string * list item) -> string -> string -> string -> stats.

Local Abbreviation world := (COCOMetric.world item stats).

(** One block of [accumulate], in closed form. *)
Lemma evaluate_unfold (data : list item) name style key (w : world) :
  evaluate cocoapi_eval data name style key w
  = match data with
    | [] => {| outcome := Ok tt; self_after := w; logged := [] |}
    | _ :: _ =>
        let fs := py_setitem (name ++ ".json") data (files w) in
        {| outcome := Ok tt;
           self_after :=
             {| metric :=
                  set_eval_results (metric w)
                    (py_setitem key
                       (cocoapi_eval fs (name ++ ".json") style (anno_file (metric w)))
                       (eval_results (metric w)));
                files := fs |};
           logged := [("The " ++ name ++ " result is saved to " ++ name ++ ".json.")%string] |}
    end.
Proof.
  destruct data as [|x rest]; reflexivity.
Qed.

Lemma evaluate_outcome data name style key (w : world) :
  outcome (evaluate cocoapi_eval data name style key w) = Ok tt.
Proof. rewrite evaluate_unfold. destruct data; reflexivity. Qed.

Lemma evaluate_results data name style key (w : world) :
  results (metric (self_after (evaluate cocoapi_eval data name style key w)))
  = results (metric w).
Proof. rewrite evaluate_unfold. destruct data; reflexivity. Qed.

Lemma evaluate_config data name style key (w : world) :
  config (self_after (evaluate cocoapi_eval data name style key w)) = config w.
Proof. rewrite evaluate_unfold. destruct data; reflexivity. Qed.

(** [accumulate] as its three blocks in a row. *)
Lemma accumulate_blocks (w : world) :
  let w1 := self_after (evaluate cocoapi_eval (res_bbox (results (metric w)))
                          "bbox" "bbox" "bbox" w) in
  let w2 := self_after (evaluate cocoapi_eval (res_mask (results (metric w)))
                          "mask" "segm" "mask" w1) in
  let w3 := self_after (evaluate cocoapi_eval (res_segm (results (metric w)))
                          "segm" "segm" "mask" w2) in
  outcome (accumulate cocoapi_eval w) = Ok tt
  /\ self_after (accumulate cocoapi_eval w) = w3.
Proof.
  intros w1 w2 w3. unfold accumulate.
  rewrite bind_get_self.
  assert (R1 : results (metric w1) = results (metric w)) by apply evaluate_results.
  assert (R2 : results (metric w2) = results (metric w)).
  { unfold w2. rewrite evaluate_results. exact R1. }
  split.
  - rewrite (bind_outcome _ _ _ tt) by apply evaluate_outcome. fold w1.
    rewrite bind_get_self, R1.
    rewrite (bind_outcome _ _ _ tt) by apply evaluate_outcome. fold w2.
    rewrite bind_get_self, R2. apply evaluate_outcome.
  - rewrite (bind_self_after _ _ _ tt) by apply evaluate_outcome. fold w1.
    rewrite bind_get_self, R1.
    rewrite (bind_self_after _ _ _ tt) by apply evaluate_outcome. fold w2.
    rewrite bind_get_self, R2. reflexivity.
Qed.

(** *** The result lists only grow *)

Lemma prefix_refl (l : list item) : prefix l l.
Proof. exists []. now rewrite app_nil_r. Qed.

Lemma prefix_app (l more : list item) : prefix l (l ++ more).
Proof. exists more. reflexivity. Qed.

Lemma prefix_trans (a b c : list item) : prefix a b -> prefix b c -> prefix a c.
Proof.
  intros [x ->] [y ->]. exists (x ++ y). now rewrite app_assoc.
Qed.

Lemma grown_refl (w : world) : grown w w.
Proof. repeat split; apply prefix_refl. Qed.

Lemma grown_trans (a b c : world) : grown a b -> grown b c -> grown a c.
Proof.
  intros (A1 & A2 & A3) (B1 & B2 & B3).
  repeat split; eapply prefix_trans; eassumption.
Qed.

Lemma update_unfold im_id outputs (w : world) :
  update get_infer_results im_id outputs w
  = match im_id with
    | None => {| outcome := Raise (KeyError "im_id"); self_after := w; logged := [] |}
    | Some i =>
        let r := get_infer_results (py_setitem "im_id" i outputs)
                   (clsid2catid (metric w)) (bias (metric w)) in
        {| outcome := Ok tt;
           self_after :=
             {| metric :=
                  set_results (metric w)
                    {| res_bbox := res_bbox (results (metric w)) ++ or_empty (infer_bbox r);
                       res_mask := res_mask (results (metric w)) ++ or_empty (infer_mask r);
                       res_segm := res_segm (results (metric w)) ++ or_empty (infer_segm r) |};
                files := files w |};
           logged := [] |}
    end.
Proof.
  destruct im_id as [i|]; reflexivity.
Qed.

Lemma accumulate_results (w : world) :
  results (metric (self_after (accumulate cocoapi_eval w))) = results (metric w).
Proof.
  destruct (accumulate_blocks w) as [_ ->]. now rewrite !evaluate_results.
Qed.

Lemma exec_grown c (w : world) :
  c <> Reset -> grown w (self_after (exec get_infer_results cocoapi_eval c w)).
Proof.
  intro H. destruct c as [|im_id outputs| | |]; cbn [exec].
  - congruence.
  - rewrite update_unfold. destruct im_id as [i|]; [|apply grown_refl].
    repeat split; apply prefix_app.
  - unfold grown. rewrite accumulate_results. repeat split; apply prefix_refl.
  - apply grown_refl.
  - apply grown_refl.
Qed.

(** X6: over any sequence of [update], [accumulate], [log] and
    [get_results] calls (no [reset]), failed updates included, the three
    result lists only grow: each list before the calls is the beginning
    of the list after them. *)
Theorem results_only_grow calls (w : world) :
  no_reset calls ->
  grown w (run get_infer_results cocoapi_eval calls w).
Proof.
  revert w. induction calls as [|c rest IH]; intros w H; cbn [run].
  - apply grown_refl.
  - unfold no_reset in H. inversion H as [|? ? Hc Hrest]; subst.
    eapply grown_trans; [apply exec_grown; exact Hc|apply IH; exact Hrest].
Qed.

(** *** What [accumulate] writes *)

(** X7: [accumulate] on a metric whose three result lists are empty (as
    after [reset]) does nothing: no file is written, no statistics are
    computed or stored, nothing is logged. *)
Theorem accumulate_nothing_on_empty_results (w : world) :
  results (metric w) = {| res_bbox := []; res_mask := []; res_segm := [] |} ->
  accumulate cocoapi_eval w = {| outcome := Ok tt; self_after := w; logged := [] |}.
Proof.
  intro H. unfold accumulate.
  rewrite bind_get_self, H. cbn [res_bbox].
  rewrite (bind_step _ _ w tt w) by reflexivity.
  rewrite bind_get_self, H. cbn [res_mask].
  rewrite (bind_step _ _ w tt w) by reflexivity.
  rewrite bind_get_self, H. reflexivity.
Qed.

(** X8: when there are [segm] results, the statistics that [accumulate]
    leaves under the key [mask] are those of [segm.json], whether or not
    there are [mask] results: the statistics of [mask.json] are
    overwritten.  The entry [segm] of the statistics is never written. *)
Theorem segm_statistics_stored_under_mask (w : world) :
  res_segm (results (metric w)) <> [] ->
  let w' := self_after (accumulate cocoapi_eval w) in
  py_get "mask" (eval_results (metric w'))
  = Some (cocoapi_eval (files w') "segm.json" "segm" (anno_file (metric w)))
  /\ py_get "segm" (eval_results (metric w')) = py_get "segm" (eval_results (metric w)).
Proof.
  intros Hs w'. destruct (accumulate_blocks w) as [_ E]. cbn zeta in E.
  unfold w'. rewrite E. clear E.
  set (w1 := self_after (evaluate cocoapi_eval (res_bbox (results (metric w)))
                           "bbox" "bbox" "bbox" w)).
  set (w2 := self_after (evaluate cocoapi_eval (res_mask (results (metric w)))
                           "mask" "segm" "mask" w1)).
  assert (A2 : anno_file (metric w2) = anno_file (metric w)).
  { pose proof (evaluate_config (res_mask (results (metric w))) "mask" "segm" "mask" w1) as C2.
    pose proof (evaluate_config (res_bbox (results (metric w))) "bbox" "bbox" "bbox" w) as C1.
    fold w1 in C1. fold w2 in C2. unfold config in *. congruence. }
  assert (S2 : py_get "segm" (eval_results (metric w2))
               = py_get "segm" (eval_results (metric w))).
  { unfold w2, w1. rewrite !evaluate_unfold.
    destruct (res_mask (results (metric w))), (res_bbox (results (metric w)));
      cbn [self_after metric eval_results set_eval_results];
      rewrite ?py_get_setitem_other by discriminate; reflexivity. }
  rewrite evaluate_unfold.
  destruct (res_segm (results (metric w))) as [|x rest]; [contradiction|].
  cbn [self_after metric eval_results set_eval_results files].
  rewrite py_get_setitem_same, A2.
  rewrite py_get_setitem_other by discriminate. split; [reflexivity|exact S2].
Qed.

Lemma exec_keys_known c (w : world) :
  keys_known w -> keys_known (self_after (exec get_infer_results cocoapi_eval c w)).
Proof.
  intro H. destruct c as [|im_id outputs| | |]; cbn [exec].
  - constructor.
  - rewrite update_unfold. destruct im_id; exact H.
  - destruct (accumulate_blocks w) as [_ ->].
    assert (Step : forall data name style key (v : world),
               key = "bbox"%string \/ key = "mask"%string ->
               keys_known v ->
               keys_known (self_after (evaluate cocoapi_eval data name style key v))).
    { intros data name style key v Hk Hv. rewrite evaluate_unfold.
      destruct data; [exact Hv|].
      unfold keys_known. cbn [self_after metric eval_results set_eval_results].
      apply keys_setitem; assumption. }
    apply Step; [now right|]. apply Step; [now right|]. apply Step; [now left|exact H].
  - exact H.
  - exact H.
Qed.

Lemma run_keys_known calls (w : world) :
  keys_known w -> keys_known (run get_infer_results cocoapi_eval calls w).
Proof.
  revert w. induction calls as [|c rest IH]; intros w K; cbn [run]; [exact K|].
  apply IH. now apply exec_keys_known.
Qed.

(** X9: from the construction on, whatever calls are made, the
    statistics have no other keys than [bbox] and [mask]; in particular
    [get_results] never has an entry [segm]. *)
Theorem eval_results_keys_are_bbox_and_mask
    isfile get_categories anno kwargs_bias fs w0 calls :
  init stats isfile get_categories anno kwargs_bias fs = Ok w0 ->
  let w := run get_infer_results cocoapi_eval calls w0 in
  keys_known w
  /\ py_get "segm" (eval_results (metric w)) = None
  /\ outcome (get_results w) = Ok (eval_results (metric w)).
Proof.
  intros Hinit w.
  assert (K0 : keys_known w0).
  { unfold init in Hinit. destruct (isfile anno); [|discriminate].
    destruct (get_categories _ _) as [c2c c2n].
    injection Hinit as <-. constructor. }
  assert (K : keys_known w).
  { unfold w. now apply run_keys_known. }
  split; [exact K|]. split; [|reflexivity].
  unfold keys_known in K.
  induction (eval_results (metric w)) as [|[k v] rest IH]; simpl in *; [reflexivity|].
  inversion K as [|? ? Hk Hr]; subst.
  destruct (String.eqb k "segm") eqn:E.
  - apply String.eqb_eq in E. destruct Hk; congruence.
  - now apply IH.
Qed.

(** X10: [accumulate] leaves the result lists as they are, and afterwards
    each file [bbox.json], [mask.json], [segm.json] whose list is not
    empty holds exactly that list; the file of an empty list is left as
    it was. *)
Theorem accumulate_saves_results (w : world) :
  let w' := self_after (accumulate cocoapi_eval w) in
  results (metric w') = results (metric w)
  /\ (forall name data,
        (name = "bbox"%string /\ data = res_bbox (results (metric w)))
        \/ (name = "mask"%string /\ data = res_mask (results (metric w)))
        \/ (name = "segm"%string /\ data = res_segm (results (metric w))) ->
        py_get (name ++ ".json") (files w')
        = match data with
          | [] => py_get (name ++ ".json") (files w)
          | _ :: _ => Some data
          end).
Proof.
  intro w'. split; [apply accumulate_results|].
  destruct (accumulate_blocks w) as [_ E]. cbn zeta in E.
  unfold w'. rewrite E. clear E w'.
  rewrite !evaluate_unfold.
  intros name data [[-> ->]|[[-> ->]|[-> ->]]];
    destruct (res_bbox (results (metric w))) as [|b bs],
             (res_mask (results (metric w))) as [|m ms],
             (res_segm (results (metric w))) as [|s ss];
    cbn [self_after metric files set_eval_results eval_results];
    cbn [String.append];
    rewrite ?py_get_setitem_same;
    repeat (rewrite py_get_setitem_other by discriminate);
    rewrite ?py_get_setitem_same; reflexivity.
Qed.

(** *** Configuration *)

Lemma exec_config c (w : world) :
  config (self_after (exec get_infer_results cocoapi_eval c w)) = config w.
Proof.
  destruct c as [|im_id outputs| | |]; cbn [exec]; try reflexivity.
  - rewrite update_unfold. destruct im_id; reflexivity.
  - destruct (accumulate_blocks w) as [_ ->]. now rewrite !evaluate_config.
Qed.

(** X11: the annotation file, the category tables and the bias are those
    of the construction whatever calls follow; the bias is the keyword
    argument [bias], and 0 without it. *)
Theorem coco_configuration_fixed
    isfile get_categories anno kwargs_bias fs w0 calls :
  init stats isfile get_categories anno kwargs_bias fs = Ok w0 ->
  config (run get_infer_results cocoapi_eval calls w0)
  = (anno, fst (get_categories "COCO"%string anno),
     snd (get_categories "COCO"%string anno),
     match kwargs_bias with Some b => b | None => 0%Z end).
Proof.
  intro Hinit.
  assert (C0 : config w0 = (anno, fst (get_categories "COCO"%string anno),
                            snd (get_categories "COCO"%string anno),
                            match kwargs_bias with Some b => b | None => 0%Z end)).
  { unfold init in Hinit. destruct (isfile anno); [|discriminate].
    destruct (get_categories _ _) as [c2c c2n].
    injection Hinit as <-. reflexivity. }
  rewrite <- C0. clear Hinit C0. revert w0.
  induction calls as [|c rest IH]; intro w0; cbn [run]; [reflexivity|].
  rewrite IH. apply exec_config.
Qed.

End WithLibraries.

End COCOMetricFacts.

(* ------------------------------------------------------------------ *)
(** ** [VOCMetric]: failures and batches *)

Module VOCMetricBatchFacts.
Import VOCMetric VOCMetricNotions VOCMetricBatch.

Local Open Scope Q_scope.

Lemma skipn_cons_nth {A} k (l : list A) x r :
  skipn k l = x :: r -> nth_error l k = Some x /\ skipn (S k) l = r.
Proof.
  revert l. induction k as [|k IH]; intros [|y l] H; simpl in *; try discriminate.
  - injection H as -> ->. split; reflexivity.
  - destruct (IH l H) as [H1 H2]. split; [exact H1|exact H2].
Qed.

Lemma skipn_nil_nth {A} k (l : list A) :
  skipn k l = [] -> nth_error l k = None.
Proof.
  revert l. induction k as [|k IH]; intros [|y l] H; simpl in *;
    try reflexivity; try discriminate.
  apply IH, H.
Qed.

Lemma shape_eqb_false s :
  s <> (1, 1)%nat -> shape_eqb s (1, 1)%nat = false.
Proof.
  destruct s as [a b]. intro H. unfold shape_eqb. simpl.
  destruct (Nat.eqb_spec a 1), (Nat.eqb_spec b 1); try reflexivity.
  subst. now contradiction H.
Qed.

Lemma set_detection_map_same (self : t) :
  set_detection_map self (detection_map self) = self.
Proof. destruct self. reflexivity. Qed.

Section WithPruning.

Variable prune_zero_padding :
  list box -> list Z -> option (list Z) -> list box * list Z * option (list Z).

(** *** Failures before the loop *)

(** X12: past the early return, [update] raises the [KeyError] of the
    first entry that [inputs] lacks, in the order [gt_bbox], [gt_class],
    [difficult] (the last one only when difficult instances are not
    evaluated); a missing [scale_factor] raises nothing.  The object is
    as before. *)
Theorem update_raises_KeyError_of_first_missing_entry (self : t) inputs outputs key :
  (2 <= ncols (bbox outputs))%nat ->
  shape (columns_from 2 (bbox outputs)) <> (1, 1)%nat ->
  first_missing (evaluate_difficult self) inputs = Some key ->
  update prune_zero_padding inputs outputs self
  = {| outcome := Raise (KeyError key); self_after := self; logged := [] |}.
Proof.
  intros Hcols Hshape Hkey. unfold update.
  rewrite !VOCMetricFacts.column_in_range by lia.
  rewrite !bind_lift_ok, (shape_eqb_false _ Hshape).
  unfold first_missing in Hkey.
  destruct (gt_bbox inputs) as [gt_boxes|].
  2:{ injection Hkey as <-. reflexivity. }
  cbn [getkey]. rewrite bind_lift_ok.
  destruct (gt_class inputs) as [gt_labels|].
  2:{ injection Hkey as <-. reflexivity. }
  cbn [getkey]. rewrite bind_lift_ok, bind_get_self.
  destruct (negb (evaluate_difficult self)); [|discriminate].
  destruct (difficult inputs); [discriminate|].
  injection Hkey as <-. reflexivity.
Qed.

(** *** The loop *)

Section Loop.

Variables (gt_boxes : list (list box)) (gt_labels : list (list Z))
          (difficults : option (list (list Z)))
          (sf : list (float * float))
          (bboxes : ndarray) (scores labels : list float)
          (lens : list nat).

Local Abbreviation loop :=
  (update_loop prune_zero_padding gt_boxes gt_labels difficults sf
     bboxes scores labels lens).

(** The loop from image [k] on, against the images that the remaining
    entries of the per-image lists make up. *)
Lemma update_loop_images :
  forall gs k sfs ls ds ns bbox_idx (self : t),
    skipn k gt_boxes = gs ->
    skipn k sf = sfs ->
    skipn k gt_labels = ls ->
    option_map (skipn k) difficults = ds ->
    skipn k lens = ns ->
    let ims := images prune_zero_padding bboxes scores labels gs sfs ls ds ns bbox_idx in
    let c := loop (seq k (List.length gs)) bbox_idx self in
    logged c = []
    /\ match DetectionMAP.update_all (detection_map self) ims with
       | Ok dm =>
           self_after c = set_detection_map self dm
           /\ outcome c = if (List.length ims =? List.length gs)%nat
                          then Ok tt else Raise IndexError
       | Raise e => outcome c = Raise e
       end.
Proof.
  induction gs as [|g gs IH]; intros k sfs ls ds ns bbox_idx self Hg Hsf Hl Hd Hn.
  - cbn. rewrite set_detection_map_same. repeat split.
  - apply skipn_cons_nth in Hg as [Hg Hgs].
    assert (Fail1 : forall self', nth_error sf k = None ->
              loop (seq k (List.length (g :: gs))) bbox_idx self'
              = {| outcome := Raise IndexError; self_after := self'; logged := [] |}).
    { intros self' E. cbn [seq List.length update_loop].
      unfold getitem. rewrite Hg, E. reflexivity. }
    assert (Fail2 : forall self' hw, nth_error sf k = Some hw -> nth_error gt_labels k = None ->
              loop (seq k (List.length (g :: gs))) bbox_idx self'
              = {| outcome := Raise IndexError; self_after := self'; logged := [] |}).
    { intros self' [h w] E1 E2. cbn [seq List.length update_loop].
      unfold getitem. rewrite Hg, E1, E2. reflexivity. }
    assert (Fail3 : forall self' hw l dl, nth_error sf k = Some hw ->
              nth_error gt_labels k = Some l ->
              difficults = Some dl -> nth_error dl k = None ->
              loop (seq k (List.length (g :: gs))) bbox_idx self'
              = {| outcome := Raise IndexError; self_after := self'; logged := [] |}).
    { intros self' [h w] l dl E1 E2 E3 E4. cbn [seq List.length update_loop]. unfold getitem. rewrite Hg, E1, E2, E3, E4. reflexivity. }
    assert (Fail4 : forall self' hw l, nth_error sf k = Some hw ->
              nth_error gt_labels k = Some l ->
              match difficults with
              | None => True
              | Some dl => exists d, nth_error dl k = Some d
              end ->
              nth_error lens k = None ->
              loop (seq k (List.length (g :: gs))) bbox_idx self'
              = {| outcome := Raise IndexError; self_after := self'; logged := [] |}).
    { intros self' [h w] l E1 E2 E3 E4. cbn [seq List.length update_loop]. unfold getitem. rewrite Hg, E1, E2, E4.
      destruct difficults as [dl|]; [destruct E3 as [d ->]|]; reflexivity. }
    assert (Stop : forall c : completion t unit,
              c = {| outcome := Raise IndexError; self_after := self; logged := [] |} ->
              logged c = []
              /\ self_after c = set_detection_map self (detection_map self)
              /\ outcome c = Raise IndexError).
    { intros c ->. rewrite set_detection_map_same. repeat split. }
    destruct sfs as [|hw sfs].
    { apply skipn_nil_nth in Hsf. cbn. destruct (Stop _ (Fail1 self Hsf)) as (? & ? & ?).
      repeat split; assumption. }
    apply skipn_cons_nth in Hsf as [Hsf Hsfs].
    destruct ls as [|l ls].
    { apply skipn_nil_nth in Hl. cbn.
      destruct (Stop _ (Fail2 self hw Hsf Hl)) as (? & ? & ?).
      repeat split; assumption. }
    apply skipn_cons_nth in Hl as [Hl Hls].
    destruct ns as [|n ns].
    { apply skipn_nil_nth in Hn. cbn.
      assert (Hdl : match difficults with
                    | None => True
                    | Some dl => (exists d, nth_error dl k = Some d) \/ nth_error dl k = None
                    end).
      { destruct difficults as [dl|]; [|exact I].
        destruct (nth_error dl k); [left; eauto|now right]. }
      destruct difficults as [dl|].
      - destruct Hdl as [Hdl|Hdl].
        + destruct (Stop _ (Fail4 self hw l Hsf Hl Hdl Hn)) as (? & ? & ?).
          repeat split; assumption.
        + destruct (Stop _ (Fail3 self hw l dl Hsf Hl eq_refl Hdl)) as (? & ? & ?).
          repeat split; assumption.
      - destruct (Stop _ (Fail4 self hw l Hsf Hl I Hn)) as (? & ? & ?).
        repeat split; assumption. }
    apply skipn_cons_nth in Hn as [Hn Hns].
    (* the difficulty flags of the image *)
    assert (Hflags :
              (exists dl, difficults = Some dl /\ nth_error dl k = None /\ ds = Some [])
              \/ (exists d ds',
                    match difficults with
                    | None => d = None
                    | Some dl => exists di, nth_error dl k = Some di /\ d = Some di
                    end
                    /\ option_map (skipn (S k)) difficults = ds'
                    /\ images prune_zero_padding bboxes scores labels
                         (g :: gs) (hw :: sfs) (l :: ls) ds (n :: ns) bbox_idx
                       = image prune_zero_padding bboxes scores labels g hw l d n bbox_idx
                         :: images prune_zero_padding bboxes scores labels
                              gs sfs ls ds' ns (bbox_idx + n))).
    { destruct difficults as [dl|]; simpl in Hd; subst ds.
      - destruct (skipn k dl) as [|d dr] eqn:E.
        + left. exists dl. repeat split. now apply skipn_nil_nth.
        + apply skipn_cons_nth in E as [E1 E2]. right.
          exists (Some d), (Some dr). repeat split.
          * eauto.
          * cbn [option_map]. now rewrite E2.
      - right. exists None, None. repeat split. }
    destruct Hflags as [(dl & Hdl & Hnone & ->)|(d & ds' & Hdi & Hds' & Hims)].
    { cbn. destruct (Stop _ (Fail3 self hw l dl Hsf Hl Hdl Hnone)) as (? & ? & ?).
      repeat split; assumption. }
    cbv zeta. rewrite Hims. clear Hims.
    destruct hw as [h w].
    cbn [seq List.length].
    rewrite (VOCMetricFacts.update_loop_step prune_zero_padding _ _ _ _ _ _ _ _
               k (seq (S k) (List.length gs)) bbox_idx g h w l d n self Hg Hsf Hl Hdi Hn).
    unfold image.
    destruct (prune_zero_padding (array_div g (w, h, w, h)) l d) as [[gb gl] df].
    cbn [DetectionMAP.update_all]. unfold DetectionMAP.update_image.
    cbn [DetectionMAP.im_bbox DetectionMAP.im_score DetectionMAP.im_label
         DetectionMAP.im_gt_box DetectionMAP.im_gt_label DetectionMAP.im_difficult].
    destruct (DetectionMAP.update (detection_map self) (row_slice bboxes bbox_idx n)
                (slice scores bbox_idx n) (slice labels bbox_idx n) gb gl df)
      as [dm1|e] eqn:Eu; cbn [rbind].
    2:{ rewrite (bind_raised _ _ self e self [])
          by (unfold detection_map_update; now rewrite Eu).
        split; reflexivity. }
    rewrite (bind_step _ _ self tt (set_detection_map self dm1))
      by (unfold detection_map_update; now rewrite Eu).
    specialize (IH (S k) sfs ls ds' ns (bbox_idx + n)%nat (set_detection_map self dm1)
                  Hgs Hsfs Hls Hds' Hns).
    cbv zeta in IH. destruct IH as [IHlog IH].
    cbn [detection_map set_detection_map] in IH.
    split; [exact IHlog|].
    destruct (DetectionMAP.update_all dm1 _) as [dm|e]; [|exact IH].
    destruct IH as [IH1 IH2]. split; [exact IH1|].
    rewrite IH2. reflexivity.
Qed.

End Loop.

(** [update] in terms of the images of the batch. *)
Lemma update_runs_images (self : t) inputs outputs gt_boxes gt_labels :
  (2 <= ncols (bbox outputs))%nat ->
  shape (columns_from 2 (bbox outputs)) <> (1, 1)%nat ->
  gt_bbox inputs = Some gt_boxes ->
  gt_class inputs = Some gt_labels ->
  (evaluate_difficult self = false -> difficult inputs <> None) ->
  let ims := images_of prune_zero_padding (evaluate_difficult self) inputs outputs in
  let c := update prune_zero_padding inputs outputs self in
  logged c = []
  /\ match DetectionMAP.update_all (detection_map self) ims with
     | Ok dm =>
         self_after c = set_detection_map self dm
         /\ outcome c = if (List.length ims =? List.length gt_boxes)%nat
                        then Ok tt else Raise IndexError
     | Raise e => outcome c = Raise e
     end.
Proof.
  intros Hcols Hshape Hgb Hgc Hdiff ims c.
  unfold c, ims, update, images_of. clear c ims.
  rewrite !VOCMetricFacts.column_in_range by lia.
  rewrite !bind_lift_ok, (shape_eqb_false _ Hshape).
  rewrite Hgb, Hgc. cbn [getkey]. rewrite !bind_lift_ok, bind_get_self.
  destruct (evaluate_difficult self) eqn:Hed; cbn [negb].
  - rewrite bind_ret.
    apply (update_loop_images gt_boxes gt_labels None _ _ _ _ _ gt_boxes 0%nat);
      reflexivity.
  - destruct (difficult inputs) as [dl|] eqn:Hdl; [|now contradiction Hdiff].
    cbn [getkey]. rewrite (bind_ok _ _ self (Some dl)) by reflexivity.
    apply (update_loop_images gt_boxes gt_labels (Some dl) _ _ _ _ _ gt_boxes 0%nat);
      reflexivity.
Qed.

(** X13: on inputs that have the entries it reads, [update] gives the
    engine the images of the batch one by one, in order, the detections
    of an image starting where those of the image before end.  When the
    engine accepts them all, the accumulator of the metric is the
    engine's state after them, and [update] returns if every ground-truth
    image had its entries in the other per-image arrays; otherwise it
    raises [IndexError], and the images before the missing entry stay
    recorded.  When the engine refuses an image, [update] raises what the
    engine raised. *)
Theorem update_feeds_engine_image_by_image (self : t) inputs outputs gt_boxes gt_labels :
  (2 <= ncols (bbox outputs))%nat ->
  shape (columns_from 2 (bbox outputs)) <> (1, 1)%nat ->
  gt_bbox inputs = Some gt_boxes ->
  gt_class inputs = Some gt_labels ->
  (evaluate_difficult self = false -> difficult inputs <> None) ->
  let ims := images_of prune_zero_padding (evaluate_difficult self) inputs outputs in
  let c := update prune_zero_padding inputs outputs self in
  logged c = []
  /\ match DetectionMAP.update_all (detection_map self) ims with
     | Ok dm =>
         self_after c = set_detection_map self dm
         /\ outcome c = if (List.length ims =? List.length gt_boxes)%nat
                        then Ok tt else Raise IndexError
     | Raise e => outcome c = Raise e
     end.
Proof.
  intros Hcols Hshape Hgb Hgc Hdiff.
  exact (update_runs_images self inputs outputs gt_boxes gt_labels
           Hcols Hshape Hgb Hgc Hdiff).
Qed.

(** *** The scale factors *)

(** The images of a batch, one by one. *)
Lemma images_spec bboxes scores labels :
  forall gt_boxes sf gt_labels difficults lens bbox_idx,
    let ims := images prune_zero_padding bboxes scores labels
                 gt_boxes sf gt_labels difficults lens bbox_idx in
    List.length ims = batch_size gt_boxes sf gt_labels difficults lens
    /\ forall i im,
         nth_error ims i = Some im ->
         exists g hw l n idx,
           nth_error gt_boxes i = Some g
           /\ nth_error sf i = Some hw
           /\ nth_error gt_labels i = Some l
           /\ nth_error lens i = Some n
           /\ im = image prune_zero_padding bboxes scores labels
                     g hw l (flags_at difficults i) n idx.
Proof.
  induction gt_boxes as [|g gs IH]; intros sf gt_labels difficults lens bbox_idx.
  - split; [reflexivity|]. intros [|i] im H; discriminate H.
  - destruct sf as [|hw sfs].
    { split; [reflexivity|]. intros [|i] im H; discriminate H. }
    destruct gt_labels as [|l ls].
    { split; [reflexivity|]. intros [|i] im H; discriminate H. }
    destruct lens as [|n ns].
    { split.
      - unfold batch_size. cbn [List.length images]. now rewrite !Nat.min_0_r.
      - intros [|i] im H; discriminate H. }
    destruct difficults as [[|d ds]|].
    + split; [reflexivity|]. intros [|i] im H; discriminate H.
    + specialize (IH sfs ls (Some ds) ns (bbox_idx + n)%nat).
      cbv zeta in IH. destruct IH as [IHlen IHnth].
      split.
      * cbn [images List.length]. rewrite IHlen. unfold batch_size.
        cbn [List.length]. rewrite <- !Nat.succ_min_distr. reflexivity.
      * intros [|i] im H; cbn [images nth_error] in H.
        -- injection H as <-. exists g, hw, l, n, bbox_idx. repeat split.
        -- destruct (IHnth i im H) as (g' & hw' & l' & n' & idx & ? & ? & ? & ? & ?).
           exists g', hw', l', n', idx. repeat split; assumption.
    + specialize (IH sfs ls None ns (bbox_idx + n)%nat).
      cbv zeta in IH. destruct IH as [IHlen IHnth].
      split.
      * cbn [images List.length]. rewrite IHlen. unfold batch_size.
        cbn [List.length]. rewrite <- !Nat.succ_min_distr. reflexivity.
      * intros [|i] im H; cbn [images nth_error] in H.
        -- injection H as <-. exists g, hw, l, n, bbox_idx. repeat split.
        -- destruct (IHnth i im H) as (g' & hw' & l' & n' & idx & ? & ? & ? & ? & ?).
           exists g', hw', l', n', idx. repeat split; assumption.
Qed.

(** The ground truth of an image of the batch. *)
Lemma image_ground_truth bboxes scores labels g h w l d n idx :
  let im := image prune_zero_padding bboxes scores labels g (h, w) l d n idx in
  (DetectionMAP.im_gt_box im, DetectionMAP.im_gt_label im, DetectionMAP.im_difficult im)
  = prune_zero_padding (array_div g (w, h, w, h)) l d.
Proof.
  unfold image. destruct (prune_zero_padding _ _ _) as [[gb gl] df]. reflexivity.
Qed.

(** C5: on inputs that have the entries it reads, [update] runs the
    matcher ([self.detection_map.update]) on the images of the batch, in
    order, one image per ground-truth image that has its entries; the
    ground-truth boxes of image [i], whose scale factor is (height [h],
    width [w]), reach it (through [prune_zero_padding]) divided
    componentwise by (w, h, w, h).  Inputs without [scale_factor] get the
    factor (1, 1) for every image, and then the boxes reach the matcher
    as they are. *)
Theorem update_divides_gt_box_by_scale_factor
    (self : t) inputs outputs gt_boxes gt_labels :
  (2 <= ncols (bbox outputs))%nat ->
  shape (columns_from 2 (bbox outputs)) <> (1, 1)%nat ->
  gt_bbox inputs = Some gt_boxes ->
  gt_class inputs = Some gt_labels ->
  (evaluate_difficult self = false -> difficult inputs <> None) ->
  let sf := factors_used inputs gt_boxes in
  let flags := flags_read (evaluate_difficult self) inputs in
  let ims := images_of prune_zero_padding (evaluate_difficult self) inputs outputs in
  let c := update prune_zero_padding inputs outputs self in
  match DetectionMAP.update_all (detection_map self) ims with
  | Ok dm => self_after c = set_detection_map self dm
  | Raise e => outcome c = Raise e
  end
  /\ List.length ims = batch_size gt_boxes sf gt_labels flags (bbox_num outputs)
  /\ (forall i im,
        nth_error ims i = Some im ->
        exists g h w l,
          nth_error gt_boxes i = Some g
          /\ nth_error sf i = Some (h, w)
          /\ nth_error gt_labels i = Some l
          /\ (DetectionMAP.im_gt_box im, DetectionMAP.im_gt_label im,
              DetectionMAP.im_difficult im)
             = prune_zero_padding
                 (map (fun b : box => let '(x1, y1, x2, y2) := b in
                                      (x1 / w, y1 / h, x2 / w, y2 / h)) g)
                 l (flags_at flags i))
  /\ (scale_factor inputs = None ->
      forall i im,
        nth_error ims i = Some im ->
        exists g l,
          nth_error gt_boxes i = Some g
          /\ nth_error sf i = Some (1, 1)
          /\ nth_error gt_labels i = Some l
          /\ (DetectionMAP.im_gt_box im, DetectionMAP.im_gt_label im,
              DetectionMAP.im_difficult im)
             = prune_zero_padding g l (flags_at flags i)).
Proof.
  intros Hcols Hshape Hgb Hgc Hdiff sf flags ims c.
  pose proof (update_runs_images self inputs outputs gt_boxes gt_labels
                Hcols Hshape Hgb Hgc Hdiff) as [_ Hrun].
  cbv zeta in Hrun. fold ims c in Hrun.
  assert (Hims : ims = images prune_zero_padding (columns_from 2 (bbox outputs))
                         (map (fun r => nth 1 r 0) (rows (bbox outputs)))
                         (map (fun r => nth 0 r 0) (rows (bbox outputs)))
                         gt_boxes sf gt_labels flags (bbox_num outputs) 0).
  { unfold ims, images_of. rewrite Hgb, Hgc. reflexivity. }
  destruct (images_spec (columns_from 2 (bbox outputs))
              (map (fun r => nth 1 r 0) (rows (bbox outputs)))
              (map (fun r => nth 0 r 0) (rows (bbox outputs)))
              gt_boxes sf gt_labels flags (bbox_num outputs) 0%nat) as [Hlen Hnth].
  rewrite <- Hims in Hlen, Hnth.
  assert (Scaled : forall i im,
             nth_error ims i = Some im ->
             exists g h w l,
               nth_error gt_boxes i = Some g
               /\ nth_error sf i = Some (h, w)
               /\ nth_error gt_labels i = Some l
               /\ (DetectionMAP.im_gt_box im, DetectionMAP.im_gt_label im,
                   DetectionMAP.im_difficult im)
                  = prune_zero_padding (array_div g (w, h, w, h)) l (flags_at flags i)).
  { intros i im H.
    destruct (Hnth i im H) as (g & [h w] & l & n & idx & Hg & Hsf & Hl & _ & ->).
    exists g, h, w, l. repeat split; try assumption. apply image_ground_truth. }
  split; [|split; [exact Hlen|split; [exact Scaled|]]].
  - destruct (DetectionMAP.update_all (detection_map self) ims) as [dm|e];
      [exact (proj1 Hrun)|exact Hrun].
  - intros Hnone i im H.
    destruct (Scaled i im H) as (g & h & w & l & Hg & Hsf & Hl & Hgt).
    assert (Hone : (h, w) = (1, 1)).
    { unfold sf, factors_used in Hsf. rewrite Hnone in Hsf.
      apply nth_error_In in Hsf. unfold np_ones in Hsf.
      now apply repeat_spec in Hsf. }
    injection Hone as -> ->.
    exists g, l. repeat split; try assumption.
    rewrite Hgt, VOCMetricFacts.array_div_ones. reflexivity.
Qed.

(** *** The summary line without a score *)

(** X14: while the accumulator holds no score ([get_map] gives [None],
    as between a [reset] and the next [accumulate]), [log] raises
    [TypeError] at [100. * None] and sends the logger nothing. *)
Theorem log_raises_TypeError_without_score (self : t) :
  DetectionMAP.get_map (detection_map self) = None ->
  log self = {| outcome := Raise TypeError; self_after := self; logged := [] |}.
Proof.
  intro H. unfold log.
  rewrite (bind_ok _ _ self None) by (unfold detection_map_get_map; now rewrite H).
  reflexivity.
Qed.

(** *** The annotation tables *)

Lemma keeps_annotations_update_loop gt_boxes gt_labels difficults scale_factor
    bboxes scores labels bbox_lengths range :
  forall bbox_idx,
    keeps annotations (update_loop prune_zero_padding gt_boxes gt_labels difficults
                         scale_factor bboxes scores labels bbox_lengths range bbox_idx).
Proof.
  induction range as [|i range IH]; intro bbox_idx; cbn [update_loop];
    [apply keeps_ret|].
  apply keeps_bind; [apply keeps_lift|intro gt_box].
  apply keeps_bind; [apply keeps_lift|intros [h w]].
  apply keeps_bind; [apply keeps_lift|intro gt_label].
  apply keeps_bind.
  { destruct difficults; [|apply keeps_ret].
    apply keeps_bind; [apply keeps_lift|intro; apply keeps_ret]. }
  intro difficult.
  apply keeps_bind; [apply keeps_lift|intro bbox_num].
  destruct (prune_zero_padding _ _ _) as [[gb gl] df].
  apply keeps_bind; [|intros _; apply IH].
  intro self. unfold detection_map_update.
  destruct (DetectionMAP.update _ _ _ _ _ _ _); reflexivity.
Qed.

Lemma keeps_annotations_exec c : keeps annotations (exec prune_zero_padding c).
Proof.
  destruct c as [|inputs outputs| | |]; cbn [exec].
  - intro self. reflexivity.
  - unfold update.
    apply keeps_bind; [apply keeps_lift|intro scores].
    apply keeps_bind; [apply keeps_lift|intro labels].
    destruct (shape_eqb _ _); [apply keeps_ret|].
    apply keeps_bind; [apply keeps_lift|intro gt_boxes].
    apply keeps_bind; [apply keeps_lift|intro gt_labels].
    apply keeps_bind; [apply keeps_get_self|intro self].
    apply keeps_bind.
    { destruct (negb _); [|apply keeps_ret].
      apply keeps_bind; [apply keeps_lift|intro; apply keeps_ret]. }
    intro difficults. apply keeps_annotations_update_loop.
  - intro self. reflexivity.
  - unfold log.
    apply keeps_bind; [intro; reflexivity|intro m].
    apply keeps_bind; [apply keeps_lift|intro x].
    apply keeps_bind; [apply keeps_get_self|intro s].
    apply keeps_logger_info.
  - intro self. reflexivity.
Qed.

(** X15: the constructor asserts that the annotation path is a file, and
    reads the category tables with [get_categories('VOC', anno_file)];
    whatever calls follow, failed ones included, the path and the tables
    of the metric stay those. *)
Theorem annotation_tables_fixed_at_construction
    isfile get_categories anno n th mt bn ed self calls :
  init isfile get_categories anno n th mt bn ed = Ok self ->
  let s := run prune_zero_padding calls self in
  isfile anno = true
  /\ anno_file s = anno
  /\ (clsid2catid s, catid2name s) = get_categories "VOC"%string anno.
Proof.
  intros Hinit s.
  assert (A : annotations s = annotations self).
  { unfold s. clear Hinit s. revert self.
    induction calls as [|c calls IH]; intro self; cbn [run]; [reflexivity|].
    rewrite IH. apply keeps_annotations_exec. }
  unfold init in Hinit. destruct (isfile anno); [|discriminate].
  destruct (get_categories "VOC"%string anno) as [c2c c2n].
  injection Hinit as <-. unfold annotations in A. cbn in A.
  injection A as -> -> ->. repeat split.
Qed.

End WithPruning.

End VOCMetricBatchFacts.

(* ------------------------------------------------------------------ *)
(** ** [ReIDMetric]: rows, results and the log *)

Lemma bind_assoc {S A B C} (m : M S A) (k : A -> M S B) (h : B -> M S C) self :
  bind (bind m k) h self = bind m (fun a => bind (k a) h) self.
Proof.
  unfold bind. destruct (outcome (m self)) as [a|e]; cbn [outcome self_after logged];
    [|reflexivity].
  destruct (outcome (k a (self_after (m self)))) as [b|e];
    cbn [outcome self_after logged]; [|reflexivity].
  now rewrite app_assoc.
Qed.

Lemma bind_ext {S A B} (m : M S A) (k k' : A -> M S B) self :
  (forall a s, k a s = k' a s) -> bind m k self = bind m k' self.
Proof.
  intro H. unfold bind. destruct (outcome (m self)); [|reflexivity].
  now rewrite H.
Qed.

Module ReIDMetricRowsFacts.
Import ReIDMetric ReIDMetricNotions ReIDMetricRows.

Local Open Scope Q_scope.

(** *** [update] *)

Lemma update_app a b (self : t) :
  update (a ++ b) self = (update a ;;; update b)%method self.
Proof.
  revert self. induction a as [|out a IH]; intro self.
  - cbn [app update]. now rewrite bind_ret.
  - cbn [app update]. rewrite bind_assoc. apply bind_ext. intros x s.
    rewrite bind_assoc. apply bind_ext. intros _ s'. apply IH.
Qed.

(** X16: an [update] on a batch is the [update] on its first rows
    followed by the [update] on the rest: outcome, object and logger
    output are the same. *)
Theorem update_of_concatenation a b (self : t) :
  update (a ++ b) self
  = match outcome (update a self) with
    | Ok _ => update b (self_after (update a self))
    | Raise e => {| outcome := Raise e;
                    self_after := self_after (update a self);
                    logged := [] |}
    end.
Proof.
  assert (L : forall l s, logged (update l s) = []).
  { induction l as [|out l IH]; intro s; [reflexivity|]. cbn [update].
    destruct (last_item out) as [x|e]; [|reflexivity].
    rewrite bind_lift_ok.
    destruct (int x =? -1)%Z.
    - rewrite bind_ret. apply IH.
    - rewrite (bind_step _ _ s tt _) by reflexivity. apply IH. }
  rewrite update_app. unfold bind.
  destruct (outcome (update a self)) as [[]|e]; rewrite L; [|reflexivity].
  cbn [app]. destruct (update b _); reflexivity.
Qed.

Lemma last_item_nonempty out :
  out <> [] -> last_item out = Ok (last out 0).
Proof.
  intro H. unfold last_item.
  rewrite (app_removelast_last 0 H) at 1.
  rewrite rev_app_distr. reflexivity.
Qed.

Lemma update_row out rest (self : t) :
  out <> [] ->
  update (out :: rest) self
  = update rest
      (if kept out
       then {| far_levels := far_levels self;
               embedding := embedding self ++ [removelast out];
               id_labels := id_labels self ++ [label_of out];
               eval_results := eval_results self |}
       else self).
Proof.
  intro H. cbn [update]. rewrite (last_item_nonempty _ H), bind_lift_ok.
  unfold kept, label_of. destruct (int (last out 0%Q) =? -1)%Z; cbn [negb].
  - now rewrite bind_ret.
  - now rewrite (bind_step _ _ self tt _) by reflexivity.
Qed.

Lemma update_rows outputs (self : t) :
  Forall (fun out => out <> []) outputs ->
  update outputs self
  = {| outcome := Ok tt;
       self_after :=
         {| far_levels := far_levels self;
            embedding := embedding self ++ map (@removelast float) (filter kept outputs);
            id_labels := id_labels self ++ map label_of (filter kept outputs);
            eval_results := eval_results self |};
       logged := [] |}.
Proof.
  intro H. revert self. induction H as [|out rest Hout _ IH]; intro self.
  - cbn. rewrite !app_nil_r. destruct self. reflexivity.
  - rewrite (update_row _ _ _ Hout), IH. cbn [filter].
    destruct (kept out); cbn [map far_levels embedding id_labels eval_results];
      [|reflexivity].
    now rewrite <- !app_assoc.
Qed.

(** X17: on rows that all have an entry, [update] returns, and appends to
    the embeddings the rows whose label (the last entry, truncated) is
    not [-1], each without its last entry, and to the labels the labels of
    those rows, in the order of the batch; nothing else changes. *)
Theorem update_appends_kept_rows outputs (self : t) :
  Forall (fun out => out <> []) outputs ->
  let s := self_after (update outputs self) in
  outcome (update outputs self) = Ok tt
  /\ logged (update outputs self) = []
  /\ embedding s = embedding self ++ map (@removelast float) (filter kept outputs)
  /\ id_labels s = id_labels self ++ map label_of (filter kept outputs)
  /\ far_levels s = far_levels self
  /\ eval_results s = eval_results self.
Proof.
  intros H s. unfold s. rewrite (update_rows _ _ H). repeat split.
Qed.

(** X18: a row without entries makes [update] raise at [out[-1]]; the
    rows before it have been stored, the rows after it are not looked
    at. *)
Theorem update_stops_at_empty_row before after_ (self : t) :
  Forall (fun out => out <> []) before ->
  exists e,
    update (before ++ [] :: after_) self
    = {| outcome := Raise e;
         self_after := self_after (update before self);
         logged := [] |}.
Proof.
  intro H. exists IndexError. rewrite update_app. unfold bind.
  rewrite (update_rows _ _ H). reflexivity.
Qed.

(** *** The label [-1] *)

Lemma int_minus_one (x : Q) : int x = (-1)%Z <-> -2 < x /\ x <= -1.
Proof.
  destruct x as [n d]. unfold int, Qlt, Qle. simpl.
  assert (Hd : (0 < Zpos d)%Z) by lia.
  split.
  - intro H.
    destruct (Z.le_gt_cases 0 n) as [Hn|Hn].
    + pose proof (Z.quot_pos n (Zpos d) Hn Hd). lia.
    + replace n with (- (- n))%Z in H by lia.
      rewrite Z.quot_opp_l in H by lia.
      rewrite Z.quot_div_nonneg in H by lia.
      assert (E : ((- n) / Zpos d = 1)%Z) by lia.
      pose proof (Z.mul_div_le (- n) (Zpos d) Hd).
      pose proof (Z.mul_succ_div_gt (- n) (Zpos d) Hd).
      rewrite E in *. lia.
  - intros [H1 H2].
    replace n with (- (- n))%Z by lia.
    rewrite Z.quot_opp_l by lia.
    rewrite Z.quot_div_nonneg by lia.
    assert (E : ((- n) / Zpos d = 1)%Z).
    { symmetry. apply (Z.div_unique_pos (- n) (Zpos d) 1 (- n - Zpos d)); lia. }
    lia.
Qed.

(** X19: a row is skipped exactly when its last entry lies in (-2, -1]:
    [int] truncates towards zero, so that not only the label -1 but
    every last entry that truncates to it leaves the object as it was. *)
Theorem row_skipped_iff_label_truncates_to_minus_one out (self : t) :
  out <> [] ->
  update [out] self = {| outcome := Ok tt; self_after := self; logged := [] |}
  <-> -2 < last out 0 /\ last out 0 <= -1.
Proof.
  intro H. rewrite (update_row _ _ _ H). cbn [update]. unfold ret.
  rewrite <- int_minus_one. fold (label_of out). unfold kept.
  destruct (Z.eqb_spec (label_of out) (-1)) as [E|E]; cbn [negb].
  - split; [intros _; exact E|reflexivity].
  - split; [|intro E'; contradiction].
    intro C. exfalso.
    assert (L : List.length (embedding self ++ [removelast out])
                = List.length (embedding self)).
    { injection C as C. rewrite <- C at 2. reflexivity. }
    rewrite length_app in L. simpl in L. lia.
Qed.

(** *** [accumulate] *)

Lemma keys_dict_set key value d k :
  In k (map fst (dict_set key value d)) <-> k = key \/ In k (map fst d).
Proof.
  induction d as [|[k0 v0] rest IH]; simpl.
  - intuition.
  - destruct (String.eqb_spec k0 key) as [E|E]; simpl.
    + subst. intuition.
    + rewrite IH. intuition.
Qed.

Section WithLibraries.

Variable tar_at_far : list (list float) -> list Z -> list float -> result (list float).

Lemma keeps_rows_store_results tars levels :
  keeps rows_and_levels (store_results tars levels).
Proof.
  induction levels as [|[f fa] rest IH]; cbn [store_results]; [apply keeps_ret|].
  apply keeps_bind; [apply keeps_lift|intro tar].
  apply keeps_bind; [intro s; reflexivity|intros _; exact IH].
Qed.

Lemma maintains_key_store_results key tars levels :
  maintains (has_key key) (store_results tars levels).
Proof.
  induction levels as [|[f fa] rest IH]; cbn [store_results]; [apply maintains_ret|].
  apply maintains_bind; [apply maintains_lift|intro tar].
  apply maintains_bind; [|intros _; exact IH].
  intros s H. unfold has_key, set_eval_result. cbn [self_after eval_results].
  apply keys_dict_set. now right.
Qed.

(** X20: [accumulate] assigns nothing but results: whether it returns or
    raises, the FAR levels, the embeddings and the labels are as before,
    and every key that had a result still has one (results are
    overwritten or added, never removed). *)
Theorem accumulate_changes_only_results (s : t) key :
  let s' := self_after (accumulate tar_at_far s) in
  far_levels s' = far_levels s
  /\ embedding s' = embedding s
  /\ id_labels s' = id_labels s
  /\ (In key (map fst (eval_results s)) -> In key (map fst (eval_results s'))).
Proof.
  intro s'.
  assert (K : keeps rows_and_levels (accumulate tar_at_far)).
  { unfold accumulate.
    apply keeps_bind; [apply keeps_logger_info|intros _].
    apply keeps_bind; [apply keeps_get_self|intro self].
    destruct (negb _); [apply keeps_raise|].
    destruct (_ <? _)%nat; [apply keeps_ret|].
    apply keeps_bind; [apply keeps_lift|intro tars].
    apply keeps_rows_store_results. }
  assert (R : maintains (has_key key) (accumulate tar_at_far)).
  { unfold accumulate.
    apply maintains_bind; [apply maintains_logger_info|intros _].
    apply maintains_bind; [apply maintains_get_self|intro self].
    destruct (negb _); [apply maintains_raise|].
    destruct (_ <? _)%nat; [apply maintains_ret|].
    apply maintains_bind; [apply maintains_lift|intro tars].
    apply maintains_key_store_results. }
  specialize (K s). unfold rows_and_levels in K. fold s' in K.
  injection K as -> -> ->. repeat split. exact (R s).
Qed.

(** X21: with nothing stored, [accumulate] returns after its logger line:
    the similarity and ROC computation is not run (whatever it would do),
    and the results of an earlier evaluation stay in place. *)
Theorem accumulate_returns_early_without_rows (s : t) :
  reachable tar_at_far s ->
  embedding s = [] ->
  accumulate tar_at_far s
  = {| outcome := Ok tt;
       self_after := s;
       logged := ["Computing pairwise similairity..."%string] |}.
Proof.
  intros Hr He.
  destruct (ReIDMetricFacts.reachable_paired tar_at_far s Hr) as [Hlen _].
  unfold accumulate, bind, logger_info, get_self. cbn [outcome self_after logged].
  unfold accumulate_assertion. rewrite <- Hlen, He. reflexivity.
Qed.

Lemma store_results_levels tars :
  forall levels k (s : t),
    (k <= List.length tars)%nat ->
    let c := store_results tars (combine (seq k (List.length levels)) levels) s in
    ((k + List.length levels <= List.length tars)%nat ->
     outcome c = Ok tt
     /\ Forall (fun fa => has_key (key_of fa) (self_after c)) levels)
    /\ ((List.length tars < k + List.length levels)%nat -> outcome c = Raise IndexError).
Proof.
  induction levels as [|fa levels IH]; intros k s Hk c; unfold c; clear c.
  - cbn [List.length seq combine store_results]. split.
    + intros _. split; [reflexivity|apply Forall_nil].
    + lia.
  - cbn [List.length seq combine store_results].
    destruct (nth_error tars k) as [tar|] eqn:E.
    + unfold getitem. rewrite E, bind_lift_ok.
      rewrite (bind_step _ _ s tt _) by reflexivity.
      assert (Hk' : (S k <= List.length tars)%nat).
      { apply Nat.le_succ_l. apply nth_error_Some. congruence. }
      specialize (IH (S k)
                    {| far_levels := far_levels s;
                       embedding := embedding s;
                       id_labels := id_labels s;
                       eval_results :=
                         dict_set ("TPR@FAR=" ++ format_f 7 fa) (" " ++ format_f 4 tar)
                           (eval_results s) |} Hk').
      cbv zeta in IH. destruct IH as [IH1 IH2].
      split.
      * intro H. destruct IH1 as [O F]; [lia|]. split; [exact O|].
        apply Forall_cons; [|exact F].
        apply maintains_key_store_results. unfold has_key, key_of.
        cbn [eval_results]. apply keys_dict_set. now left.
      * intro H. apply IH2. lia.
    + unfold getitem. rewrite E. apply nth_error_None in E.
      split; [lia|reflexivity].
Qed.

(** X22: with rows stored and one TAR computed per FAR level,
    [accumulate] returns after its logger line, and every level has its
    result under [TPR@FAR=<level>] (seven decimals). *)
Theorem accumulate_stores_a_result_per_level (s : t) tars :
  List.length (embedding s) = List.length (id_labels s) ->
  embedding s <> [] ->
  tar_at_far (embedding s) (id_labels s) (far_levels s) = Ok tars ->
  List.length tars = List.length (far_levels s) ->
  let c := accumulate tar_at_far s in
  outcome c = Ok tt
  /\ Forall (fun fa => In ("TPR@FAR=" ++ format_f 7 fa)%string
                         (map fst (eval_results (self_after c))))
       (far_levels s).
Proof.
  intros Hlen Hne Htar Htars c.
  assert (E : c = {| outcome := outcome (store_results tars
                        (combine (seq 0 (List.length (far_levels s))) (far_levels s)) s);
                     self_after := self_after (store_results tars
                        (combine (seq 0 (List.length (far_levels s))) (far_levels s)) s);
                     logged := "Computing pairwise similairity..."%string
                               :: logged (store_results tars
                        (combine (seq 0 (List.length (far_levels s))) (far_levels s)) s) |}).
  { unfold c, accumulate.
    unfold bind at 1. cbn [logger_info outcome self_after logged].
    rewrite bind_get_self. unfold accumulate_assertion.
    rewrite <- Hlen, Nat.eqb_refl. cbn [negb].
    rewrite Htar. clear Hlen Htar.
    destruct (embedding s) as [|e es]; [contradiction|].
    cbn [List.length Nat.ltb Nat.leb].
    rewrite bind_lift_ok. reflexivity. }
  rewrite E. cbn [outcome self_after].
  destruct (store_results_levels tars (far_levels s) 0%nat s (Nat.le_0_l _)) as [A _].
  apply A. cbn [Nat.add]. rewrite Htars. apply Nat.le_refl.
Qed.

End WithLibraries.

(** *** [log] and [get_results] *)

Lemma log_items_lines items (self : t) :
  log_items items self
  = {| outcome := Ok tt; self_after := self; logged := map line items |}.
Proof.
  induction items as [|[k v] rest IH]; [reflexivity|].
  cbn [log_items]. unfold bind. cbn [logger_info outcome self_after logged].
  rewrite IH. reflexivity.
Qed.

(** X23: [log] sends the logger one line [<key>: <value>] per result, in
    the order in which the keys were first stored, and leaves the object
    as it is; [get_results] returns those results. *)
Theorem log_writes_a_line_per_result (self : t) :
  log self
  = {| outcome := Ok tt;
       self_after := self;
       logged := map (fun kv => (fst kv ++ ": " ++ snd kv)%string) (eval_results self) |}
  /\ get_results self
     = {| outcome := Ok (eval_results self); self_after := self; logged := [] |}.
Proof.
  split; [|reflexivity].
  unfold log. rewrite bind_get_self. apply log_items_lines.
Qed.

End ReIDMetricRowsFacts.

(* ------------------------------------------------------------------ *)
(** ** Further scenarios *)

Module FurtherScenarios.
Import Examples FurtherExamples.

Local Open Scope Q_scope.

(** *** [make_divisible] *)

(** 30 channels, in units of 8: 32. *)
Lemma make_divisible_30_by_8_above_min :
  MobileNetV3.make_divisible 30 8 None = Some 32%Z
  /\ (8 <= 32)%Z /\ ((8 | 8)%Z -> (8 | 32)%Z).
Proof.
  split; [reflexivity|].
  apply (MakeDivisibleFacts.make_divisible_multiple_above_min 30 8 None 32);
    reflexivity.
Defined.

(** The double 8.88888888888889, in units of 8: the float product
    [0.9 * v] is 8.0, the test [8 < 8.0] fails and the result is 8. *)
Lemma make_divisible_8_889_by_8 :
  MobileNetV3.make_divisible double_8_889 8 None = Some 8%Z
  /\ Double.mul MobileNetV3.nine_tenths double_8_889 = Double.Finite 8
  /\ exists vf half s t,
       Double.round double_8_889 = Double.Finite vf
       /\ Double.round (inject_Z 8 / 2) = Double.Finite half
       /\ Double.add vf half = Double.Finite s
       /\ Double.mul MobileNetV3.nine_tenths vf = Double.Finite t
       /\ t <= inject_Z 8
       /\ s - inject_Z 8 < inject_Z 8
       /\ (@None Z = None -> inject_Z 8 <= s + inject_Z 8)
       /\ (9 # 10) * double_8_889 * (1 - 2 ^ (-52)) - 2 ^ (-1074) <= inject_Z 8.
Proof.
  split; [reflexivity|]. split; [reflexivity|].
  apply (MakeDivisibleFacts.make_divisible_near_v double_8_889 8 None 8);
    [reflexivity|discriminate|reflexivity].
Defined.

(** Beyond the range of exact sums: [2 ^ 53 + 1] is not a double, and
    comes back as [2 ^ 53]; a zero divisor and a sum beyond the doubles
    raise. *)
Example make_divisible_beyond_exact_sums :
  MobileNetV3.make_divisible (inject_Z (2 ^ 53 + 1)) 1 None = Some (2 ^ 53)%Z
  /\ MobileNetV3.make_divisible 30 0 None = None
  /\ MobileNetV3.make_divisible (inject_Z (2 ^ 1024)) 8 None = None.
Proof. vm_compute. repeat split. Qed.

(** 32 = 4 * 8 stays 32. *)
Lemma make_divisible_32_by_8 :
  MobileNetV3.make_divisible (inject_Z (4 * 8)) 8 None = Some (4 * 8)%Z.
Proof.
  apply (MakeDivisibleFacts.make_divisible_fixes_multiples 4 8 None);
    [reflexivity|reflexivity|discriminate|reflexivity].
Defined.

(** *** [parse_anchor] *)

(** One anchor and a mask list that asks for the second one. *)
Lemma parse_anchor_mask_out_of_range :
  IndexError = IndexError
  /\ self_after (JDEHead.parse_anchor [[1; 2]%Z] [[1%Z]] head) = head
  /\ ~ Forall (Forall (fun i => (- Z.of_nat (List.length [[1; 2]%Z]) <= i
                               < Z.of_nat (List.length [[1; 2]%Z]))%Z)) [[1%Z]].
Proof.
  apply (ParseAnchorFacts.parse_anchor_raises_IndexError_only
           [[1; 2]%Z] [[1%Z]] head IndexError).
  reflexivity.
Defined.

(** Two anchors, taken in the reverse order, one per group. *)
Lemma parse_anchor_two_groups :
  let c := JDEHead.parse_anchor [[1; 2]; [3; 4]]%Z [[1]; [0]]%Z head in
  outcome c = Ok tt
  /\ List.length (JDEHead.anchors (self_after c)) = List.length [[1]; [0]]%Z
  /\ JDEHead.mask_anchors (self_after c)
     = map (@List.concat Z) (JDEHead.anchors (self_after c))
  /\ forall k mask group j i,
       nth_error [[1]; [0]]%Z k = Some mask ->
       nth_error (JDEHead.anchors (self_after c)) k = Some group ->
       nth_error mask j = Some i ->
       py_getitem [[1; 2]; [3; 4]]%Z i = getitem group j.
Proof.
  apply (ParseAnchorFacts.parse_anchor_groups [[1; 2]; [3; 4]]%Z [[1]; [0]]%Z head).
  repeat constructor; discriminate.
Defined.

(** *** [COCOMetric] *)

(** A batch, an evaluation, a failed batch and a second evaluation. *)
Lemma coco_results_grow_over_sample_calls :
  COCOMetricNotions.grown coco
    (COCOMetric.run one_box_one_segm count_entries
       [COCOMetric.Update (Some im_id_7) []; COCOMetric.Accumulate;
        COCOMetric.Update None []; COCOMetric.GetResults; COCOMetric.Accumulate]
       coco).
Proof.
  apply (COCOMetricFacts.results_only_grow nat nat one_box_one_segm count_entries).
  repeat constructor; discriminate.
Defined.

Lemma coco_accumulate_before_any_batch :
  COCOMetric.accumulate count_entries coco
  = {| outcome := Ok tt; self_after := coco; logged := [] |}.
Proof.
  apply (COCOMetricFacts.accumulate_nothing_on_empty_results nat nat count_entries coco).
  reflexivity.
Defined.

Lemma coco_segm_statistics_after_batch :
  let w' := self_after (COCOMetric.accumulate count_entries coco_after_batch) in
  py_get "mask" (COCOMetric.eval_results (COCOMetric.metric w'))
  = Some (count_entries (COCOMetric.files w') "segm.json" "segm"
            (COCOMetric.anno_file (COCOMetric.metric coco_after_batch)))
  /\ py_get "segm" (COCOMetric.eval_results (COCOMetric.metric w'))
     = py_get "segm" (COCOMetric.eval_results (COCOMetric.metric coco_after_batch)).
Proof.
  apply (COCOMetricFacts.segm_statistics_stored_under_mask nat nat count_entries
           coco_after_batch).
  discriminate.
Defined.

Lemma coco_keys_after_sample_calls :
  let w := COCOMetric.run one_box_one_segm count_entries
             [COCOMetric.Update (Some im_id_7) []; COCOMetric.Accumulate] coco in
  COCOMetricNotions.keys_known w
  /\ py_get "segm" (COCOMetric.eval_results (COCOMetric.metric w)) = None
  /\ outcome (COCOMetric.get_results w)
     = Ok (COCOMetric.eval_results (COCOMetric.metric w)).
Proof.
  apply (COCOMetricFacts.eval_results_keys_are_bbox_and_mask nat nat
           one_box_one_segm count_entries any_file no_categories
           "instances.json" None [] coco).
  reflexivity.
Defined.

Lemma coco_configuration_after_sample_calls :
  COCOMetricNotions.config
    (COCOMetric.run one_box_one_segm count_entries
       [COCOMetric.Update (Some im_id_7) []; COCOMetric.Accumulate; COCOMetric.Reset]
       coco)
  = ("instances.json"%string,
     fst (no_categories "COCO" "instances.json"),
     snd (no_categories "COCO" "instances.json"),
     0%Z).
Proof.
  apply (COCOMetricFacts.coco_configuration_fixed nat nat
           one_box_one_segm count_entries any_file no_categories
           "instances.json" None [] coco).
  reflexivity.
Defined.

(** *** [VOCMetric] *)

(** The lines of [log]: after one image and [accumulate]; on the score
    [0.125 * 0.01], whose percentage is the double 0.125, written 0.12;
    on the threshold 0.665 and the score [23 / 160], whose percentage is
    the double 14.374999999999998. *)
Lemma log_lines_on_sample_scores :
  VOCMetric.log
    (self_after (VOCMetric.accumulate
       (self_after (VOCMetric.update keep_all (inputs_one (Some [[0%Z]]))
                      outputs_one (voc false)))))
  = {| outcome := Ok tt;
       self_after :=
         self_after (VOCMetric.accumulate
           (self_after (VOCMetric.update keep_all (inputs_one (Some [[0%Z]]))
                          outputs_one (voc false))));
       logged := ["mAP(0.50, 11point) = 100.00%"%string] |}
  /\ VOCMetric.log (voc_with_score (1 # 2) double_0_00125)
     = {| outcome := Ok tt;
          self_after := voc_with_score (1 # 2) double_0_00125;
          logged := ["mAP(0.50, 11point) = 0.12%"%string] |}
  /\ VOCMetric.log (voc_with_score double_0_665 double_23_160)
     = {| outcome := Ok tt;
          self_after := voc_with_score double_0_665 double_23_160;
          logged := ["mAP(0.67, 11point) = 14.37%"%string] |}.
Proof.
  split; [|split].
  - rewrite (proj2 (VOCMetricFacts.log_emits_mAP_summary _) (11 # 11))
      by (vm_compute; reflexivity).
    vm_compute. reflexivity.
  - rewrite (proj2 (VOCMetricFacts.log_emits_mAP_summary _) double_0_00125)
      by reflexivity.
    vm_compute. reflexivity.
  - rewrite (proj2 (VOCMetricFacts.log_emits_mAP_summary _) double_23_160)
      by reflexivity.
    vm_compute. reflexivity.
Defined.

(** A batch of one image of scale (height 2, width 4): its box
    (0, 0, 4, 2) reaches the matcher divided by (4, 2, 4, 2). *)
Lemma scale_factor_applied_in_update :
  map DetectionMAP.im_gt_box
    (VOCMetricBatch.images_of keep_all true (inputs_one None) outputs_one)
  = [[(0 / 4, 0 / 2, 4 / 4, 2 / 2)]]
  /\ let sf := VOCMetricBatch.factors_used (inputs_one None) [[(0, 0, 4, 2)]] in
     let flags := VOCMetricBatch.flags_read (VOCMetric.evaluate_difficult (voc true))
                    (inputs_one None) in
     let ims := VOCMetricBatch.images_of keep_all
                  (VOCMetric.evaluate_difficult (voc true)) (inputs_one None)
                  outputs_one in
     let c := VOCMetric.update keep_all (inputs_one None) outputs_one (voc true) in
     match DetectionMAP.update_all (VOCMetric.detection_map (voc true)) ims with
     | Ok dm => self_after c = VOCMetric.set_detection_map (voc true) dm
     | Raise e => outcome c = Raise e
     end
     /\ List.length ims
        = VOCMetricBatch.batch_size [[(0, 0, 4, 2)]] sf [[0%Z]] flags
            (VOCMetric.bbox_num outputs_one)
     /\ (forall i im,
           nth_error ims i = Some im ->
           exists g h w l,
             nth_error [[(0, 0, 4, 2)]] i = Some g
             /\ nth_error sf i = Some (h, w)
             /\ nth_error [[0%Z]] i = Some l
             /\ (DetectionMAP.im_gt_box im, DetectionMAP.im_gt_label im,
                 DetectionMAP.im_difficult im)
                = keep_all
                    (map (fun b : box => let '(x1, y1, x2, y2) := b in
                                         (x1 / w, y1 / h, x2 / w, y2 / h)) g)
                    l (VOCMetricBatch.flags_at flags i))
     /\ (VOCMetric.scale_factor (inputs_one None) = None ->
         forall i im,
           nth_error ims i = Some im ->
           exists g l,
             nth_error [[(0, 0, 4, 2)]] i = Some g
             /\ nth_error sf i = Some (1, 1)
             /\ nth_error [[0%Z]] i = Some l
             /\ (DetectionMAP.im_gt_box im, DetectionMAP.im_gt_label im,
                 DetectionMAP.im_difficult im)
                = keep_all g l (VOCMetricBatch.flags_at flags i)).
Proof.
  split; [reflexivity|].
  apply (VOCMetricBatchFacts.update_divides_gt_box_by_scale_factor keep_all (voc true)
           (inputs_one None) outputs_one [[(0, 0, 4, 2)]] [[0%Z]]).
  - repeat constructor.
  - discriminate.
  - reflexivity.
  - reflexivity.
  - discriminate.
Defined.

(** The same image without a scale factor: the box reaches the matcher
    as it is. *)
Example boxes_unchanged_without_scale_factor :
  map DetectionMAP.im_gt_box
    (VOCMetricBatch.images_of keep_all true inputs_unscaled outputs_one)
  = [[(0 / 1, 0 / 1, 4 / 1, 2 / 1)]]
  /\ outcome (VOCMetric.update keep_all inputs_unscaled outputs_one (voc true)) = Ok tt
  /\ DetectionMAP.records
       (VOCMetric.detection_map
          (self_after (VOCMetric.update keep_all inputs_unscaled outputs_one (voc true))))
     = DetectionMAP.records
         (VOCMetric.detection_map
            (self_after (VOCMetric.update keep_all
                           {| VOCMetric.gt_bbox := Some [[(0, 0, 4, 2)]];
                              VOCMetric.gt_class := Some [[0%Z]];
                              VOCMetric.difficult := None;
                              VOCMetric.scale_factor := Some [(1, 1)] |}
                           outputs_one (voc true)))).
Proof. repeat split. Qed.

(** Inputs that have the boxes and the classes but not the difficulty
    flags, given to a metric that does not evaluate difficult
    instances. *)
Lemma voc_update_without_difficult_flags :
  VOCMetric.update keep_all (inputs_one None) outputs_one (voc false)
  = {| outcome := Raise (KeyError "difficult");
       self_after := voc false;
       logged := [] |}.
Proof.
  apply (VOCMetricBatchFacts.update_raises_KeyError_of_first_missing_entry keep_all
           (voc false) (inputs_one None) outputs_one "difficult").
  - repeat constructor.
  - discriminate.
  - reflexivity.
Defined.

(** A batch of one image. *)
Lemma voc_update_feeds_inputs_one :
  let ims := VOCMetricBatch.images_of keep_all (VOCMetric.evaluate_difficult (voc true))
               (inputs_one None) outputs_one in
  let c := VOCMetric.update keep_all (inputs_one None) outputs_one (voc true) in
  logged c = []
  /\ match DetectionMAP.update_all (VOCMetric.detection_map (voc true)) ims with
     | Ok dm =>
         self_after c = VOCMetric.set_detection_map (voc true) dm
         /\ outcome c = if (List.length ims =? List.length [[(0, 0, 4, 2)]])%nat
                        then Ok tt else Raise IndexError
     | Raise e => outcome c = Raise e
     end.
Proof.
  apply (VOCMetricBatchFacts.update_feeds_engine_image_by_image keep_all (voc true)
           (inputs_one None) outputs_one [[(0, 0, 4, 2)]] [[0%Z]]).
  - repeat constructor.
  - discriminate.
  - reflexivity.
  - reflexivity.
  - discriminate.
Defined.

Lemma voc_log_before_accumulate :
  VOCMetric.log (voc false)
  = {| outcome := Raise TypeError; self_after := voc false; logged := [] |}.
Proof.
  apply (VOCMetricBatchFacts.log_raises_TypeError_without_score (voc false)).
  reflexivity.
Defined.

Lemma voc_annotations_after_sample_calls :
  let s := VOCMetric.run keep_all
             [VOCMetric.Update (inputs_one (Some [[0%Z]])) outputs_one;
              VOCMetric.Accumulate; VOCMetric.Reset]
             (voc false) in
  any_file "annotations.txt" = true
  /\ VOCMetric.anno_file s = "annotations.txt"%string
  /\ (VOCMetric.clsid2catid s, VOCMetric.catid2name s)
     = no_categories "VOC" "annotations.txt".
Proof.
  apply (VOCMetricBatchFacts.annotation_tables_fixed_at_construction keep_all
           any_file no_categories "annotations.txt" 1%nat (1 # 2) "11point"%string
           false false (voc false)).
  reflexivity.
Defined.

(** *** [ReIDMetric] *)

(** Three rows: one stored, one with the label -1, one stored. *)
Lemma reid_update_three_rows :
  let outputs := [[1; 2; 7]; [3; 4; -1]; [5; 6; 8]] in
  let self := ReIDMetric.init ReIDMetric.default_far_levels in
  let s := self_after (ReIDMetric.update outputs self) in
  outcome (ReIDMetric.update outputs self) = Ok tt
  /\ logged (ReIDMetric.update outputs self) = []
  /\ ReIDMetric.embedding s
     = ReIDMetric.embedding self
       ++ map (@removelast float) (filter ReIDMetricRows.kept outputs)
  /\ ReIDMetric.id_labels s
     = ReIDMetric.id_labels self
       ++ map ReIDMetricRows.label_of (filter ReIDMetricRows.kept outputs)
  /\ ReIDMetric.far_levels s = ReIDMetric.far_levels self
  /\ ReIDMetric.eval_results s = ReIDMetric.eval_results self.
Proof.
  apply (ReIDMetricRowsFacts.update_appends_kept_rows
           [[1; 2; 7]; [3; 4; -1]; [5; 6; 8]]
           (ReIDMetric.init ReIDMetric.default_far_levels)).
  repeat constructor; discriminate.
Defined.

Lemma reid_update_with_empty_row :
  exists e,
    ReIDMetric.update ([[1; 2; 7]] ++ [] :: [[5; 6; 8]])
      (ReIDMetric.init ReIDMetric.default_far_levels)
    = {| outcome := Raise e;
         self_after := self_after (ReIDMetric.update [[1; 2; 7]]
                                     (ReIDMetric.init ReIDMetric.default_far_levels));
         logged := [] |}.
Proof.
  apply (ReIDMetricRowsFacts.update_stops_at_empty_row [[1; 2; 7]] [[5; 6; 8]]
           (ReIDMetric.init ReIDMetric.default_far_levels)).
  repeat constructor; discriminate.
Defined.

(** A row whose last entry is -1.5. *)
Lemma reid_row_with_label_minus_one_and_a_half :
  ReIDMetric.update [[1; 2; - (3 # 2)]] (ReIDMetric.init ReIDMetric.default_far_levels)
  = {| outcome := Ok tt;
       self_after := ReIDMetric.init ReIDMetric.default_far_levels;
       logged := [] |}
  <-> -2 < last [1; 2; - (3 # 2)] 0 /\ last [1; 2; - (3 # 2)] 0 <= -1.
Proof.
  apply (ReIDMetricRowsFacts.row_skipped_iff_label_truncates_to_minus_one
           [1; 2; - (3 # 2)] (ReIDMetric.init ReIDMetric.default_far_levels)).
  discriminate.
Defined.

Lemma reid_accumulate_right_after_construction :
  ReIDMetric.accumulate no_roc (ReIDMetric.init ReIDMetric.default_far_levels)
  = {| outcome := Ok tt;
       self_after := ReIDMetric.init ReIDMetric.default_far_levels;
       logged := ["Computing pairwise similairity..."%string] |}.
Proof.
  apply (ReIDMetricRowsFacts.accumulate_returns_early_without_rows no_roc
           (ReIDMetric.init ReIDMetric.default_far_levels)).
  - apply ReIDMetric.reach_init.
  - reflexivity.
Defined.

Lemma reid_accumulate_one_row :
  let c := ReIDMetric.accumulate flat_roc reid_one_row in
  outcome c = Ok tt
  /\ Forall (fun fa => In ("TPR@FAR=" ++ format_f 7 fa)%string
                         (map fst (ReIDMetric.eval_results (self_after c))))
       (ReIDMetric.far_levels reid_one_row).
Proof.
  apply (ReIDMetricRowsFacts.accumulate_stores_a_result_per_level flat_roc
           reid_one_row [1 # 2; 1 # 2]).
  - reflexivity.
  - discriminate.
  - reflexivity.
  - reflexivity.
Defined.

End FurtherScenarios.
